(** * nexus2D: the simulation core of the platformer, embedded in Rocq

    The TypeScript classes under [src/game] are translated one module per
    class.  Mutable objects become records and methods become functions
    from the old object to the new one.  The methods that only draw
    ([render]), the audio manager and the React shell take no part in the
    simulation state and are left out.

    Numbers.  A JavaScript [number] is modelled as a rational [Q]: every
    finite double is a rational.  The three countdowns whose sign decides
    what happens next (the power-up timers, the invulnerability timer and
    the life of a particle) subtract as doubles do, [JS.sub]: the exact
    difference rounded to the nearest double.  The rest of the arithmetic
    of the game ([+], [*], [/], comparisons, [Math.min], [Math.max], and
    [-] elsewhere) is taken without rounding.  Counters that the code only
    ever steps by one (level number, animation frame, enemy health) are
    integers [Z].  Concrete inputs used below are small dyadic numbers on
    which the double arithmetic is exact as well, unless the rounding is
    the point. *)

From Stdlib Require Import QArith Qminmax Qround Qabs Qpower Lqa Lia ZArith List Bool.
From stdpp Require Import base strings gmap list.

Open Scope Q_scope.

(** ** JavaScript comparison and Math helpers *)

Module JS.

(** [a <= b] *)
Definition le (a b : Q) : bool := Qle_bool a b.

(** [a < b] *)
Definition lt (a b : Q) : bool := negb (Qle_bool b a).

(** [a >= b] *)
Definition ge (a b : Q) : bool := Qle_bool b a.

(** [a > b] *)
Definition gt (a b : Q) : bool := negb (Qle_bool a b).

(** [Math.min(a, b)] and [Math.max(a, b)] *)
Definition min (a b : Q) : Q := Qmin a b.
Definition max (a b : Q) : Q := Qmax a b.

(** A counter used as a number. *)
Definition num (n : nat) : Q := inject_Z (Z.of_nat n).

(** *** Double precision

    The nearest integer, ties to the even one. *)
Definition nearestEven (q : Q) : Z :=
  let f := Qfloor q in
  match Qcompare (q - inject_Z f) (1 # 2) with
  | Lt => f
  | Gt => (f + 1)%Z
  | Eq => if Z.even f then f else (f + 1)%Z
  end.

(** [floor(log2 q)] for [q > 0]: the difference of the bit lengths of
    numerator and denominator, or one less. *)
Definition ilog2 (q : Q) : Z :=
  let k := (Z.log2 (Qnum q) - Z.log2 (Zpos (Qden q)))%Z in
  if Qle_bool (2 ^ k) q then k else (k - 1)%Z.

(** The double nearest to [q]: [q] rounded to 53 significant bits, ties
    to even.  The exponent range is not modelled: no number of the game
    comes near the overflow threshold, and the difference of two doubles
    is exact when it is subnormal. *)
Definition double (q : Q) : Q :=
  if Qeq_bool q 0 then 0
  else
    let e := (ilog2 (Qabs q) - 52)%Z in
    inject_Z (nearestEven (q / 2 ^ e)) * 2 ^ e.

(** [a - b] on doubles *)
Definition sub (a b : Q) : Q := double (a - b).

(** [Number.EPSILON], [2^-52] *)
Definition EPSILON : Q := 1 # 4503599627370496.

End JS.

(** ** utils/Rectangle *)

Module Rectangle.

Record t : Type := new { x : Q; y : Q; width : Q; height : Q }.

Definition left (r : t) : Q := x r.
Definition right (r : t) : Q := x r + width r.
Definition top (r : t) : Q := y r.
Definition bottom (r : t) : Q := y r + height r.
Definition centerX (r : t) : Q := x r + width r / 2.
Definition centerY (r : t) : Q := y r + height r / 2.

Definition intersects (this other : t) : bool :=
  negb (JS.le (right this) (left other)
        || JS.ge (left this) (right other)
        || JS.le (bottom this) (top other)
        || JS.ge (top this) (bottom other)).

Definition contains (this : t) (px py : Q) : bool :=
  JS.ge px (left this) && JS.le px (right this)
  && JS.ge py (top this) && JS.le py (bottom this).

(** The returned object [{x, y}] is a pair. *)
Definition overlaps (this other : t) : Q * Q :=
  let overlapX := JS.min (right this - left other) (right other - left this) in
  let overlapY := JS.min (bottom this - top other) (bottom other - top this) in
  (overlapX, overlapY).

End Rectangle.

(** ** utils/Vector2 *)

Module Vector2.

(** Modelled from the spec: the class [Vector2] (imported by [Player]
    from [utils/Vector2]) is a mutable pair [{x, y}] of numbers with
    component mutation; [set(x, y)] overwrites both components. *)
Record t : Type := new { x : Q; y : Q }.

Definition set (vx vy : Q) (_ : t) : t := new vx vy.
Definition set_x (vx : Q) (v : t) : t := new vx (y v).
Definition set_y (vy : Q) (v : t) : t := new (x v) vy.

End Vector2.

(** ** entities/Platform *)

Inductive PlatformType : Type := ground | floating | moving | breakable.

Module Platform.

Record t : Type := mk {
  x : Q; y : Q; width : Q; height : Q;
  type : PlatformType;
  originalX : Q; originalY : Q;
  moveSpeed : Q; moveRange : Q; moveDirection : Q; moveTime : Q }.

(** [constructor(x, y, width, height, type)] *)
Definition new (px py w h : Q) (ty : PlatformType) : t :=
  {| x := px; y := py; width := w; height := h; type := ty;
     originalX := px; originalY := py;
     moveSpeed := 50; moveRange := 100; moveDirection := 1; moveTime := 0 |}.

Definition getBounds (p : t) : Rectangle.t :=
  Rectangle.new (x p) (y p) (width p) (height p).

(** [update(deltaTime)]: only a moving platform changes, swinging around
    its origin; [sin] is [Math.sin]. *)
Definition update (sin : Q -> Q) (deltaTime : Q) (p : t) : t :=
  match type p with
  | moving =>
      let moveTime' := moveTime p + deltaTime in
      let offset := sin (moveTime' * 2) * moveRange p in
      {| x := originalX p + offset; y := y p; width := width p;
         height := height p; type := type p;
         originalX := originalX p; originalY := originalY p;
         moveSpeed := moveSpeed p; moveRange := moveRange p;
         moveDirection := moveDirection p; moveTime := moveTime' |}
  | _ => p
  end.

End Platform.

(** ** entities/Collectible *)

Inductive CollectibleType : Type := coin | gem | star.

Module Collectible.

Record t : Type := mk {
  x : Q; y : Q; width : Q; height : Q;
  type : CollectibleType; value : Q; color : string;
  animationFrame : Z; animationTimer : Q;
  rotationAngle : Q; bobOffset : Q; bobTimer : Q }.

Definition new (cx cy : Q) (ty : CollectibleType) : t :=
  match ty with
  | coin => mk cx cy 16 16 ty 100 "#FFD700" 0 0 0 0 0
  | gem => mk cx cy 20 20 ty 500 "#FF69B4" 0 0 0 0 0
  | star => mk cx cy 24 24 ty 1000 "#00CED1" 0 0 0 0 0
  end.

Definition getBounds (c : t) : Rectangle.t :=
  Rectangle.new (x c) (y c + bobOffset c) (width c) (height c).

(** [update(deltaTime)]; [sin] is [Math.sin] and [PI] is [Math.PI]. *)
Definition update (sin : Q -> Q) (PI : Q) (deltaTime : Q) (c : t) : t :=
  (* Rotation animation *)
  let rotationAngle1 := rotationAngle c + deltaTime * 3 in
  let rotationAngle2 :=
    if JS.ge rotationAngle1 (PI * 2) then 0 else rotationAngle1 in
  (* Bobbing animation *)
  let bobTimer' := bobTimer c + deltaTime * 4 in
  let bobOffset' := sin bobTimer' * 3 in
  (* Frame animation for gems *)
  let '(frame', timer') :=
    match type c with
    | gem =>
        let timer1 := animationTimer c + deltaTime in
        if JS.ge timer1 0.1
        then (Z.rem (animationFrame c + 1) 6, 0)
        else (animationFrame c, timer1)
    | _ => (animationFrame c, animationTimer c)
    end in
  mk (x c) (y c) (width c) (height c) (type c) (value c) (color c)
     frame' timer' rotationAngle2 bobOffset' bobTimer'.

End Collectible.

(** ** entities/PowerUp *)

Module PowerUpType.
Inductive t : Type := speed | jump | size | invincible.
End PowerUpType.

Module PowerUp.

Record t : Type := mk {
  x : Q; y : Q; width : Q; height : Q;
  type : PowerUpType.t; value : Q; color : string;
  animationTimer : Q; pulseScale : Q; rotationAngle : Q }.

Definition new (px py : Q) (ty : PowerUpType.t) : t :=
  let c := match ty with
           | PowerUpType.speed => "#00FF00"
           | PowerUpType.jump => "#FFFF00"
           | PowerUpType.size => "#FF8800"
           | PowerUpType.invincible => "#FF00FF"
           end%string in
  mk px py 32 32 ty 200 c 0 1 0.

Definition getBounds (p : t) : Rectangle.t :=
  Rectangle.new (x p) (y p) (width p) (height p).

(** [update(deltaTime)]; [sin] is [Math.sin] and [PI] is [Math.PI]. *)
Definition update (sin : Q -> Q) (PI : Q) (deltaTime : Q) (p : t) : t :=
  let animationTimer' := animationTimer p + deltaTime in
  (* Pulsing effect *)
  let pulseScale' := 1 + sin (animationTimer' * 6) * 0.1 in
  (* Rotation *)
  let rotationAngle1 := rotationAngle p + deltaTime * 2 in
  let rotationAngle2 :=
    if JS.ge rotationAngle1 (PI * 2) then 0 else rotationAngle1 in
  mk (x p) (y p) (width p) (height p) (type p) (value p) (color p)
     animationTimer' pulseScale' rotationAngle2.

End PowerUp.

(** ** entities/Enemy *)

Inductive EnemyType : Type := goomba | koopa | spiky | flying.

Module Enemy.

Record t : Type := mk {
  x : Q; y : Q; width : Q; height : Q;
  type : EnemyType;
  velocity : Vector2.t;
  speed : Q; direction : Q; health : Z; gravity : Q;
  isGrounded : bool;
  animationFrame : Z; animationTimer : Q;
  flyingOffset : Q; flyingTimer : Q }.

(** [constructor(x, y, type)]: the field initialisers, then the switch
    on the type. *)
Definition new (ex ey : Q) (ty : EnemyType) : t :=
  let '(w, h, sp, hp) :=
    match ty with
    | goomba => (24, 24, 60, 1%Z)
    | koopa => (28, 32, 80, 2%Z)
    | spiky => (26, 26, 40, 2%Z)
    | flying => (30, 24, 100, 1%Z)
    end in
  {| x := ex; y := ey; width := w; height := h; type := ty;
     velocity := Vector2.new 0 0;
     speed := sp; direction := -1; health := hp; gravity := 600;
     isGrounded := false;
     animationFrame := 0; animationTimer := 0;
     flyingOffset := 0; flyingTimer := 0 |}.

Definition set_x (v : Q) (p : t) : t :=
  {| x := v; y := y p; width := width p; height := height p;
     type := type p; velocity := velocity p; speed := speed p;
     direction := direction p; health := health p; gravity := gravity p;
     isGrounded := isGrounded p; animationFrame := animationFrame p;
     animationTimer := animationTimer p; flyingOffset := flyingOffset p;
     flyingTimer := flyingTimer p |}.

Definition set_y (v : Q) (p : t) : t :=
  {| x := x p; y := v; width := width p; height := height p;
     type := type p; velocity := velocity p; speed := speed p;
     direction := direction p; health := health p; gravity := gravity p;
     isGrounded := isGrounded p; animationFrame := animationFrame p;
     animationTimer := animationTimer p; flyingOffset := flyingOffset p;
     flyingTimer := flyingTimer p |}.

Definition set_velocity (v : Vector2.t) (p : t) : t :=
  {| x := x p; y := y p; width := width p; height := height p;
     type := type p; velocity := v; speed := speed p;
     direction := direction p; health := health p; gravity := gravity p;
     isGrounded := isGrounded p; animationFrame := animationFrame p;
     animationTimer := animationTimer p; flyingOffset := flyingOffset p;
     flyingTimer := flyingTimer p |}.

Definition set_direction (v : Q) (p : t) : t :=
  {| x := x p; y := y p; width := width p; height := height p;
     type := type p; velocity := velocity p; speed := speed p;
     direction := v; health := health p; gravity := gravity p;
     isGrounded := isGrounded p; animationFrame := animationFrame p;
     animationTimer := animationTimer p; flyingOffset := flyingOffset p;
     flyingTimer := flyingTimer p |}.

Definition set_health (v : Z) (p : t) : t :=
  {| x := x p; y := y p; width := width p; height := height p;
     type := type p; velocity := velocity p; speed := speed p;
     direction := direction p; health := v; gravity := gravity p;
     isGrounded := isGrounded p; animationFrame := animationFrame p;
     animationTimer := animationTimer p; flyingOffset := flyingOffset p;
     flyingTimer := flyingTimer p |}.

Definition set_isGrounded (v : bool) (p : t) : t :=
  {| x := x p; y := y p; width := width p; height := height p;
     type := type p; velocity := velocity p; speed := speed p;
     direction := direction p; health := health p; gravity := gravity p;
     isGrounded := v; animationFrame := animationFrame p;
     animationTimer := animationTimer p; flyingOffset := flyingOffset p;
     flyingTimer := flyingTimer p |}.


Definition getBounds (e : t) : Rectangle.t :=
  Rectangle.new (x e) (y e) (width e) (height e).

(** The body of the [forEach] callback of [checkPlatformCollisions];
    [enemyBounds] is the rectangle taken once before the loop. *)
Definition collideWith (enemyBounds : Rectangle.t) (e : t)
    (platform : Platform.t) : t :=
  let platformBounds := Platform.getBounds platform in
  if Rectangle.intersects enemyBounds platformBounds then
    let overlapX :=
      JS.min (Rectangle.right enemyBounds - Rectangle.left platformBounds)
             (Rectangle.right platformBounds - Rectangle.left enemyBounds) in
    let overlapY :=
      JS.min (Rectangle.bottom enemyBounds - Rectangle.top platformBounds)
             (Rectangle.bottom platformBounds - Rectangle.top enemyBounds) in
    if JS.lt overlapX overlapY then
      let e1 := set_direction (direction e * -1) e in
      if JS.lt (Rectangle.centerX enemyBounds)
               (Rectangle.centerX platformBounds)
      then set_x (Rectangle.left platformBounds - width e1) e1
      else set_x (Rectangle.right platformBounds) e1
    else
      if JS.lt (Rectangle.centerY enemyBounds)
               (Rectangle.centerY platformBounds)
      then
        let e1 := set_y (Rectangle.top platformBounds - height e) e in
        let e2 := set_velocity (Vector2.set_y 0 (velocity e1)) e1 in
        set_isGrounded true e2
      else e
  else e.

(** [checkPlatformCollisions(level)]; the method reads [level.platforms]
    only, so the platform array is the argument. *)
Definition checkPlatformCollisions (platforms : list Platform.t) (e : t) : t :=
  let enemyBounds := getBounds e in
  fold_left (collideWith enemyBounds) platforms (set_isGrounded false e).

(** [checkEdgesAndWalls(level)] *)
Definition checkEdgesAndWalls (platforms : list Platform.t) (e : t) : t :=
  if isGrounded e then
    let futureX := x e + direction e * width e in
    let futureY := y e + height e + 10 in
    let platformBelow :=
      fold_left
        (fun acc platform =>
           if JS.ge futureX (Platform.x platform)
              && JS.le futureX (Platform.x platform + Platform.width platform)
              && JS.ge futureY (Platform.y platform)
              && JS.le futureY (Platform.y platform + Platform.height platform)
           then true else acc)
        platforms false in
    if negb platformBelow then set_direction (direction e * -1) e else e
  else e.

(** [updateGroundMovement(deltaTime, level)], the movement of the
    goomba, koopa and spiky types. *)
Definition updateGroundMovement (deltaTime : Q) (platforms : list Platform.t)
    (e : t) : t :=
  let e1 := set_velocity (Vector2.set_x (direction e * speed e) (velocity e)) e in
  let e2 := set_velocity
              (Vector2.set_y (Vector2.y (velocity e1) + gravity e1 * deltaTime)
                             (velocity e1)) e1 in
  let e3 := set_x (x e2 + Vector2.x (velocity e2) * deltaTime) e2 in
  let e4 := set_y (y e3 + Vector2.y (velocity e3) * deltaTime) e3 in
  checkEdgesAndWalls platforms (checkPlatformCollisions platforms e4).

Definition takeDamage (e : t) : t := set_health (health e - 1)%Z e.

Definition isAlive (e : t) : bool := (0 <? health e)%Z.

Definition set_animationFrame (v : Z) (p : t) : t :=
  {| x := x p; y := y p; width := width p; height := height p;
     type := type p; velocity := velocity p; speed := speed p;
     direction := direction p; health := health p; gravity := gravity p;
     isGrounded := isGrounded p; animationFrame := v;
     animationTimer := animationTimer p; flyingOffset := flyingOffset p;
     flyingTimer := flyingTimer p |}.

Definition set_animationTimer (v : Q) (p : t) : t :=
  {| x := x p; y := y p; width := width p; height := height p;
     type := type p; velocity := velocity p; speed := speed p;
     direction := direction p; health := health p; gravity := gravity p;
     isGrounded := isGrounded p; animationFrame := animationFrame p;
     animationTimer := v; flyingOffset := flyingOffset p;
     flyingTimer := flyingTimer p |}.

Definition set_flyingOffset (v : Q) (p : t) : t :=
  {| x := x p; y := y p; width := width p; height := height p;
     type := type p; velocity := velocity p; speed := speed p;
     direction := direction p; health := health p; gravity := gravity p;
     isGrounded := isGrounded p; animationFrame := animationFrame p;
     animationTimer := animationTimer p; flyingOffset := v;
     flyingTimer := flyingTimer p |}.

Definition set_flyingTimer (v : Q) (p : t) : t :=
  {| x := x p; y := y p; width := width p; height := height p;
     type := type p; velocity := velocity p; speed := speed p;
     direction := direction p; health := health p; gravity := gravity p;
     isGrounded := isGrounded p; animationFrame := animationFrame p;
     animationTimer := animationTimer p; flyingOffset := flyingOffset p;
     flyingTimer := v |}.

(** [updateFlyingMovement(deltaTime)]; [sin] is [Math.sin]. *)
Definition updateFlyingMovement (sin : Q -> Q) (deltaTime : Q) (e : t) : t :=
  let e1 := set_flyingTimer (flyingTimer e + deltaTime) e in
  (* Sine wave movement *)
  let e2 := set_flyingOffset (sin (flyingTimer e1 * 3) * 50) e1 in
  let e3 := set_x (x e2 + direction e2 * speed e2 * deltaTime) e2 in
  (* Vertical bobbing *)
  set_y (y e3 + sin (flyingTimer e3 * 4) * 30 * deltaTime) e3.

(** [updateMovement(deltaTime, level)] *)
Definition updateMovement (sin : Q -> Q) (deltaTime : Q)
    (platforms : list Platform.t) (e : t) : t :=
  match type e with
  | goomba | koopa | spiky => updateGroundMovement deltaTime platforms e
  | flying => updateFlyingMovement sin deltaTime e
  end.

Definition updateAnimation (deltaTime : Q) (e : t) : t :=
  let e1 := set_animationTimer (animationTimer e + deltaTime) e in
  if JS.ge (animationTimer e1) 0.2 then
    set_animationTimer 0 (set_animationFrame (Z.rem (animationFrame e1 + 1) 2) e1)
  else e1.

(** [checkBounds(level)]; the method reads [level.width] and
    [level.height]. *)
Definition checkBounds (levelWidth levelHeight : Q) (e : t) : t :=
  (* Keep enemy within level bounds *)
  let e1 :=
    if JS.lt (x e) 0 || JS.gt (x e) (levelWidth - width e)
    then set_direction (direction e * -1) e
    else e in
  (* Remove if fallen off level *)
  if JS.gt (y e1) (levelHeight + 100) then set_health 0 e1 else e1.

(** [update(deltaTime, level)]; of the level the method reads the width,
    the height and the platforms. *)
Definition update (sin : Q -> Q) (deltaTime : Q) (levelWidth levelHeight : Q)
    (platforms : list Platform.t) (e : t) : t :=
  let e1 := updateMovement sin deltaTime platforms e in
  let e2 := updateAnimation deltaTime e1 in
  checkBounds levelWidth levelHeight e2.

End Enemy.

(** ** Level *)

Module Level.

(** [backgroundGradient] and the render methods only draw; they are left
    out. *)
Record t : Type := mk {
  width : Q; height : Q;
  platforms : list Platform.t;
  enemies : list Enemy.t;
  collectibles : list Collectible.t;
  powerUps : list PowerUp.t;
  levelNumber : Z }.

Definition push_platform (p : Platform.t) (l : t) : t :=
  mk (width l) (height l) (platforms l ++ [p]) (enemies l)
     (collectibles l) (powerUps l) (levelNumber l).

Definition push_enemy (e : Enemy.t) (l : t) : t :=
  mk (width l) (height l) (platforms l) (enemies l ++ [e])
     (collectibles l) (powerUps l) (levelNumber l).

Definition push_collectible (c : Collectible.t) (l : t) : t :=
  mk (width l) (height l) (platforms l) (enemies l)
     (collectibles l ++ [c]) (powerUps l) (levelNumber l).

Definition push_powerUp (p : PowerUp.t) (l : t) : t :=
  mk (width l) (height l) (platforms l) (enemies l)
     (collectibles l) (powerUps l ++ [p]) (levelNumber l).

(** *** Generation

    [Math.random] and [Math.sin] are the two library functions the
    generator calls.  The successive results of [Math.random()] are an
    arbitrary stream [rnd]; a computation threads the number of draws
    made so far. *)

Definition Gen (A : Type) : Type := nat -> A * nat.

#[global] Instance Gen_ret : MRet Gen := fun A a n => (a, n).
#[global] Instance Gen_bind : MBind Gen :=
  fun A B f m n => let '(a, n') := m n in f a n'.

(** [for (let i = start; i < start + count; i++) body(i)] on a state [s] *)
Fixpoint for_range {S : Type} (count start : nat) (body : nat -> S -> Gen S)
    (s : S) : Gen S :=
  match count with
  | O => mret s
  | Datatypes.S count' =>
      s' ← body start s; for_range count' (Datatypes.S start) body s'
  end.

Section Generation.

Variable sin : Q -> Q.
Variable rnd : nat -> Q.

(** [Math.random()] *)
Definition random : Gen Q := fun n => (rnd n, Datatypes.S n).

(** [for (let x = x0; x < this.width; x += 128) push(ground tile)];
    [fuel] bounds the number of iterations. *)
Fixpoint groundLoop (fuel : nat) (x : Q) (l : t) : t :=
  match fuel with
  | O => l
  | Datatypes.S fuel' =>
      if JS.lt x (width l)
      then groundLoop fuel' (x + 128)
             (push_platform (Platform.new x (height l - 64) 128 64 ground) l)
      else l
  end.

(** The loop leaves through its guard after at most
    [ceil(width / 128)] iterations. *)
Definition groundFuel (l : t) : nat :=
  Datatypes.S (Z.to_nat (Qceiling (width l / 128))).

Definition generatePlatforms (l : t) : Gen t :=
  let l1 := groundLoop (groundFuel l) 0 l in
  let difficulty := Z.min (levelNumber l1) 5 in
  let platformCount := (8 + difficulty * 2)%Z in
  l2 ← for_range (Z.to_nat platformCount) 0
         (fun i l =>
            let x := 200 + (JS.num i * (width l - 400)) / inject_Z platformCount in
            r1 ← random;
            let y := 200 + sin (JS.num i * 0.5) * 100 + r1 * 100 in
            r2 ← random;
            let w := 96 + r2 * 64 in
            let h := 24 in
            mret (push_platform (Platform.new x y w h floating) l))
         l1;
  if (levelNumber l2 >=? 3)%Z then
    for_range 2 0
      (fun i l =>
         let x := 600 + JS.num i * 400 in
         let y := 300 + JS.num i * 50 in
         mret (push_platform (Platform.new x y 128 24 moving) l))
      l2
  else mret l2.

(** [types[Math.floor(Math.random() * types.length)]]; [Math.random]
    returns a value in [[0, 1)], for which the index is in range. *)
Definition pick {A : Type} (types : list A) (d : A) : Gen A :=
  r ← random;
  mret (nth (Z.to_nat (Qfloor (r * JS.num (length types)))) types d).

Definition generateEnemies (l : t) : Gen t :=
  let enemyCount := (3 + levelNumber l)%Z in
  for_range (Z.to_nat enemyCount) 0
    (fun i l =>
       let x := 300 + (JS.num i * (width l - 600)) / inject_Z enemyCount in
       let y := height l - 128 in
       let types :=
         [goomba; koopa]
         ++ (if (levelNumber l >=? 2)%Z then [spiky] else [])
         ++ (if (levelNumber l >=? 4)%Z then [flying] else []) in
       ty ← pick types goomba;
       mret (push_enemy (Enemy.new x y ty) l))
    l.

(** The predicate of [this.platforms.some(...)] in
    [generateCollectibles]. *)
Definition insidePlatform (x y : Q) (platform : Platform.t) : bool :=
  JS.ge x (Platform.x platform)
  && JS.le x (Platform.x platform + Platform.width platform)
  && JS.ge y (Platform.y platform)
  && JS.le y (Platform.y platform + Platform.height platform).

Definition generateCollectibles (l : t) : Gen t :=
  let collectibleCount := (15 + levelNumber l * 3)%Z in
  for_range (Z.to_nat collectibleCount) 0
    (fun _ l =>
       r1 ← random;
       let x := 150 + r1 * (width l - 300) in
       r2 ← random;
       let y := 100 + r2 * (height l - 200) in
       let isValidPosition := negb (existsb (insidePlatform x y) (platforms l)) in
       if isValidPosition then
         r3 ← random;
         let ty := if JS.lt r3 0.7 then coin else gem in
         mret (push_collectible (Collectible.new x y ty) l)
       else mret l)
    l.

Definition generatePowerUps (l : t) : Gen t :=
  let powerUpCount := (2 + levelNumber l / 2)%Z in
  for_range (Z.to_nat powerUpCount) 0
    (fun i l =>
       let x := 400 + (JS.num i * (width l - 800)) / inject_Z powerUpCount in
       r ← random;
       let y := 200 + r * 200 in
       ty ← pick [PowerUpType.speed; PowerUpType.jump; PowerUpType.size;
                  PowerUpType.invincible] PowerUpType.speed;
       mret (push_powerUp (PowerUp.new x y ty) l))
    l.

Definition generateLevel (l : t) : Gen t :=
  let l0 := mk (width l) (height l) [] [] [] [] (levelNumber l) in
  l1 ← generatePlatforms l0;
  l2 ← generateEnemies l1;
  l3 ← generateCollectibles l2;
  generatePowerUps l3.

(** [constructor(levelNumber)] *)
Definition new (levelNumber : Z) : Gen t :=
  generateLevel (mk 2048 576 [] [] [] [] levelNumber).

End Generation.

(** *** The frame update

    [update(deltaTime, player)]; the [player] argument is not used.  The
    callback of [this.enemies.filter] updates each enemy against the level
    as it is before the platforms move, and keeps it when it is alive. *)
Fixpoint updateEnemies (sin : Q -> Q) (deltaTime : Q) (l : t)
    (es : list Enemy.t) : list Enemy.t :=
  match es with
  | [] => []
  | e :: es' =>
      let e' := Enemy.update sin deltaTime (width l) (height l) (platforms l) e in
      if Enemy.isAlive e'
      then e' :: updateEnemies sin deltaTime l es'
      else updateEnemies sin deltaTime l es'
  end.

Definition update (sin : Q -> Q) (PI : Q) (deltaTime : Q) (l : t) : t :=
  (* Update enemies *)
  let enemies' := updateEnemies sin deltaTime l (enemies l) in
  (* Update moving platforms *)
  let platforms' := map (Platform.update sin deltaTime) (platforms l) in
  (* Update collectibles (spinning animation) *)
  let collectibles' := map (Collectible.update sin PI deltaTime) (collectibles l) in
  (* Update power-ups *)
  let powerUps' := map (PowerUp.update sin PI deltaTime) (powerUps l) in
  mk (width l) (height l) platforms' enemies' collectibles' powerUps'
     (levelNumber l).

End Level.

(** ** InputManager *)

Module InputManager.

(** The key-state sets; the event handlers that fill them are outside
    the simulation. *)
Record t : Type := mk { keys : gset string; previousKeys : gset string }.

Definition has (k : string) (s : gset string) : bool := bool_decide (k ∈ s).

Definition isPressed (this : t) (key : string) : bool :=
  match key with
  | "left" | "a" => has key (keys this) || has "gamepad_left" (keys this)
  | "right" | "d" => has key (keys this) || has "gamepad_right" (keys this)
  | "up" | "w" => has key (keys this) || has "gamepad_up" (keys this)
  | "down" | "s" => has key (keys this) || has "gamepad_down" (keys this)
  | "space" => has key (keys this) || has "gamepad_jump" (keys this)
  | "shift" => has key (keys this) || has "gamepad_run" (keys this)
  | _ => has key (keys this)
  end%string.

Definition add (k : string) (this : t) : t :=
  mk (keys this ∪ {[ k ]}) (previousKeys this).

Definition delete (k : string) (this : t) : t :=
  mk (keys this ∖ {[ k ]}) (previousKeys this).

(** [normalizeKey(code)]: the [keyMap] table, else [code.toLowerCase()];
    [toLowerCase] is the string method, [code] a [KeyboardEvent.code]. *)
Definition normalizeKey (toLowerCase : string -> string) (code : string) : string :=
  match code with
  | "KeyW" => "w"
  | "KeyA" => "a"
  | "KeyS" => "s"
  | "KeyD" => "d"
  | "ArrowUp" => "up"
  | "ArrowDown" => "down"
  | "ArrowLeft" => "left"
  | "ArrowRight" => "right"
  | "Space" => "space"
  | "ShiftLeft" => "shift"
  | "ShiftRight" => "shift"
  | "Enter" => "enter"
  | "Escape" => "escape"
  | _ => toLowerCase code
  end%string.

(** [handleKeyDown(event)] and [handleKeyUp(event)], on [event.code] *)
Definition handleKeyDown (toLowerCase : string -> string) (code : string)
    (this : t) : t :=
  add (normalizeKey toLowerCase code) this.

Definition handleKeyUp (toLowerCase : string -> string) (code : string)
    (this : t) : t :=
  delete (normalizeKey toLowerCase code) this.

(** What [navigator.getGamepads()[gamepadIndex]] shows of a pad: the axes
    and, for each button index, whether it is there and pressed. *)
Record Gamepad : Type := mkGamepad { axes : nat -> Q; pressed : nat -> bool }.

(** [updateGamepadInput()]; [gamepad] is [None] when the method returns
    at one of its guards (no pad index, pads unsupported, no pad object). *)
Definition updateGamepadInput (gamepad : option Gamepad) (this : t) : t :=
  match gamepad with
  | None => this
  | Some pad =>
      let leftStickX := axes pad 0 in
      let leftStickY := axes pad 1 in
      let deadzone := 0.3 in
      (* Clear previous gamepad inputs *)
      let t1 := delete "gamepad_down"
                  (delete "gamepad_up"
                     (delete "gamepad_right" (delete "gamepad_left" this))) in
      (* Add current gamepad inputs *)
      let t2 := if JS.lt leftStickX (- deadzone) || pressed pad 14
                then add "gamepad_left" t1 else t1 in
      let t3 := if JS.gt leftStickX deadzone || pressed pad 15
                then add "gamepad_right" t2 else t2 in
      let t4 := if JS.lt leftStickY (- deadzone) || pressed pad 12
                then add "gamepad_up" t3 else t3 in
      let t5 := if JS.gt leftStickY deadzone || pressed pad 13
                then add "gamepad_down" t4 else t4 in
      (* Action buttons *)
      let t6 := if pressed pad 0
                then add "gamepad_jump" t5 else delete "gamepad_jump" t5 in
      if pressed pad 1 || pressed pad 5
      then add "gamepad_run" t6 else delete "gamepad_run" t6
  end.

(** [update()] *)
Definition update (gamepad : option Gamepad) (this : t) : t :=
  updateGamepadInput gamepad (mk (keys this) (keys this)).

Definition isJustPressed (this : t) (key : string) : bool :=
  isPressed this key && negb (has key (previousKeys this)).

Definition isJustReleased (this : t) (key : string) : bool :=
  negb (isPressed this key) && has key (previousKeys this).

End InputManager.

(** ** entities/Player *)

#[global] Instance PowerUpType_eq_dec : EqDecision PowerUpType.t.
Proof. solve_decision. Defined.

(** [Map<PowerUpType, number>]: the entries in insertion order, as
    [forEach] visits them. *)
Module TimerMap.

Definition t : Type := list (PowerUpType.t * Q).

Fixpoint get (k : PowerUpType.t) (m : t) : option Q :=
  match m with
  | [] => None
  | (k', v) :: m' => if decide (k = k') then Some v else get k m'
  end.

Definition has (k : PowerUpType.t) (m : t) : bool :=
  match get k m with Some _ => true | None => false end.

(** [set]: an existing key keeps its place, a new key goes last. *)
Fixpoint set (k : PowerUpType.t) (v : Q) (m : t) : t :=
  match m with
  | [] => [(k, v)]
  | (k', v') :: m' =>
      if decide (k = k') then (k', v) :: m' else (k', v') :: set k v m'
  end.

Fixpoint delete (k : PowerUpType.t) (m : t) : t :=
  match m with
  | [] => []
  | (k', v') :: m' =>
      if decide (k = k') then delete k m' else (k', v') :: delete k m'
  end.

(** The keys of a [Map] are distinct. *)
Definition wf (m : t) : Prop := List.NoDup (map fst m).

End TimerMap.

Module Player.

(** [basePowerValues]: the constructor stores exactly the keys ['speed'],
    ['jumpPower'] and ['maxSpeed'] and nothing writes the map afterwards,
    so the three entries are the fields of a record. *)
Record BaseValues : Type := mkBase {
  base_speed : Q; base_jumpPower : Q; base_maxSpeed : Q }.

Record t : Type := mk {
  x : Q; y : Q;
  velocity : Vector2.t;
  width : Q; height : Q;
  speed : Q; jumpPower : Q; gravity : Q; friction : Q; maxSpeed : Q;
  isGrounded : bool; isRunning : bool; facingRight : bool;
  invulnerabilityTimer : Q;
  animationFrame : Z; animationTimer : Q; animationSpeed : Q;
  powerUpTimers : TimerMap.t;
  basePowerValues : BaseValues }.

(** [constructor(x, y)] *)
Definition new (px py : Q) : t :=
  {| x := px; y := py; velocity := Vector2.new 0 0;
     width := 32; height := 48;
     speed := 200; jumpPower := 400; gravity := 1200; friction := 0.8;
     maxSpeed := 300;
     isGrounded := false; isRunning := false; facingRight := true;
     invulnerabilityTimer := 0;
     animationFrame := 0; animationTimer := 0; animationSpeed := 0.1;
     powerUpTimers := [];
     basePowerValues := mkBase 200 400 300 |}.

Definition set_x (v : Q) (p : t) : t :=
  {| x := v; y := y p; velocity := velocity p; width := width p;
     height := height p; speed := speed p; jumpPower := jumpPower p;
     gravity := gravity p; friction := friction p; maxSpeed := maxSpeed p;
     isGrounded := isGrounded p; isRunning := isRunning p;
     facingRight := facingRight p;
     invulnerabilityTimer := invulnerabilityTimer p;
     animationFrame := animationFrame p;
     animationTimer := animationTimer p;
     animationSpeed := animationSpeed p; powerUpTimers := powerUpTimers p;
     basePowerValues := basePowerValues p |}.

Definition set_y (v : Q) (p : t) : t :=
  {| x := x p; y := v; velocity := velocity p; width := width p;
     height := height p; speed := speed p; jumpPower := jumpPower p;
     gravity := gravity p; friction := friction p; maxSpeed := maxSpeed p;
     isGrounded := isGrounded p; isRunning := isRunning p;
     facingRight := facingRight p;
     invulnerabilityTimer := invulnerabilityTimer p;
     animationFrame := animationFrame p;
     animationTimer := animationTimer p;
     animationSpeed := animationSpeed p; powerUpTimers := powerUpTimers p;
     basePowerValues := basePowerValues p |}.

Definition set_velocity (v : Vector2.t) (p : t) : t :=
  {| x := x p; y := y p; velocity := v; width := width p;
     height := height p; speed := speed p; jumpPower := jumpPower p;
     gravity := gravity p; friction := friction p; maxSpeed := maxSpeed p;
     isGrounded := isGrounded p; isRunning := isRunning p;
     facingRight := facingRight p;
     invulnerabilityTimer := invulnerabilityTimer p;
     animationFrame := animationFrame p;
     animationTimer := animationTimer p;
     animationSpeed := animationSpeed p; powerUpTimers := powerUpTimers p;
     basePowerValues := basePowerValues p |}.

Definition set_width (v : Q) (p : t) : t :=
  {| x := x p; y := y p; velocity := velocity p; width := v;
     height := height p; speed := speed p; jumpPower := jumpPower p;
     gravity := gravity p; friction := friction p; maxSpeed := maxSpeed p;
     isGrounded := isGrounded p; isRunning := isRunning p;
     facingRight := facingRight p;
     invulnerabilityTimer := invulnerabilityTimer p;
     animationFrame := animationFrame p;
     animationTimer := animationTimer p;
     animationSpeed := animationSpeed p; powerUpTimers := powerUpTimers p;
     basePowerValues := basePowerValues p |}.

Definition set_height (v : Q) (p : t) : t :=
  {| x := x p; y := y p; velocity := velocity p; width := width p;
     height := v; speed := speed p; jumpPower := jumpPower p;
     gravity := gravity p; friction := friction p; maxSpeed := maxSpeed p;
     isGrounded := isGrounded p; isRunning := isRunning p;
     facingRight := facingRight p;
     invulnerabilityTimer := invulnerabilityTimer p;
     animationFrame := animationFrame p;
     animationTimer := animationTimer p;
     animationSpeed := animationSpeed p; powerUpTimers := powerUpTimers p;
     basePowerValues := basePowerValues p |}.

Definition set_speed (v : Q) (p : t) : t :=
  {| x := x p; y := y p; velocity := velocity p; width := width p;
     height := height p; speed := v; jumpPower := jumpPower p;
     gravity := gravity p; friction := friction p; maxSpeed := maxSpeed p;
     isGrounded := isGrounded p; isRunning := isRunning p;
     facingRight := facingRight p;
     invulnerabilityTimer := invulnerabilityTimer p;
     animationFrame := animationFrame p;
     animationTimer := animationTimer p;
     animationSpeed := animationSpeed p; powerUpTimers := powerUpTimers p;
     basePowerValues := basePowerValues p |}.

Definition set_jumpPower (v : Q) (p : t) : t :=
  {| x := x p; y := y p; velocity := velocity p; width := width p;
     height := height p; speed := speed p; jumpPower := v;
     gravity := gravity p; friction := friction p; maxSpeed := maxSpeed p;
     isGrounded := isGrounded p; isRunning := isRunning p;
     facingRight := facingRight p;
     invulnerabilityTimer := invulnerabilityTimer p;
     animationFrame := animationFrame p;
     animationTimer := animationTimer p;
     animationSpeed := animationSpeed p; powerUpTimers := powerUpTimers p;
     basePowerValues := basePowerValues p |}.

Definition set_maxSpeed (v : Q) (p : t) : t :=
  {| x := x p; y := y p; velocity := velocity p; width := width p;
     height := height p; speed := speed p; jumpPower := jumpPower p;
     gravity := gravity p; friction := friction p; maxSpeed := v;
     isGrounded := isGrounded p; isRunning := isRunning p;
     facingRight := facingRight p;
     invulnerabilityTimer := invulnerabilityTimer p;
     animationFrame := animationFrame p;
     animationTimer := animationTimer p;
     animationSpeed := animationSpeed p; powerUpTimers := powerUpTimers p;
     basePowerValues := basePowerValues p |}.

Definition set_isGrounded (v : bool) (p : t) : t :=
  {| x := x p; y := y p; velocity := velocity p; width := width p;
     height := height p; speed := speed p; jumpPower := jumpPower p;
     gravity := gravity p; friction := friction p; maxSpeed := maxSpeed p;
     isGrounded := v; isRunning := isRunning p;
     facingRight := facingRight p;
     invulnerabilityTimer := invulnerabilityTimer p;
     animationFrame := animationFrame p;
     animationTimer := animationTimer p;
     animationSpeed := animationSpeed p; powerUpTimers := powerUpTimers p;
     basePowerValues := basePowerValues p |}.

Definition set_isRunning (v : bool) (p : t) : t :=
  {| x := x p; y := y p; velocity := velocity p; width := width p;
     height := height p; speed := speed p; jumpPower := jumpPower p;
     gravity := gravity p; friction := friction p; maxSpeed := maxSpeed p;
     isGrounded := isGrounded p; isRunning := v;
     facingRight := facingRight p;
     invulnerabilityTimer := invulnerabilityTimer p;
     animationFrame := animationFrame p;
     animationTimer := animationTimer p;
     animationSpeed := animationSpeed p; powerUpTimers := powerUpTimers p;
     basePowerValues := basePowerValues p |}.

Definition set_facingRight (v : bool) (p : t) : t :=
  {| x := x p; y := y p; velocity := velocity p; width := width p;
     height := height p; speed := speed p; jumpPower := jumpPower p;
     gravity := gravity p; friction := friction p; maxSpeed := maxSpeed p;
     isGrounded := isGrounded p; isRunning := isRunning p;
     facingRight := v; invulnerabilityTimer := invulnerabilityTimer p;
     animationFrame := animationFrame p;
     animationTimer := animationTimer p;
     animationSpeed := animationSpeed p; powerUpTimers := powerUpTimers p;
     basePowerValues := basePowerValues p |}.

Definition set_invulnerabilityTimer (v : Q) (p : t) : t :=
  {| x := x p; y := y p; velocity := velocity p; width := width p;
     height := height p; speed := speed p; jumpPower := jumpPower p;
     gravity := gravity p; friction := friction p; maxSpeed := maxSpeed p;
     isGrounded := isGrounded p; isRunning := isRunning p;
     facingRight := facingRight p; invulnerabilityTimer := v;
     animationFrame := animationFrame p;
     animationTimer := animationTimer p;
     animationSpeed := animationSpeed p; powerUpTimers := powerUpTimers p;
     basePowerValues := basePowerValues p |}.

Definition set_animationFrame (v : Z) (p : t) : t :=
  {| x := x p; y := y p; velocity := velocity p; width := width p;
     height := height p; speed := speed p; jumpPower := jumpPower p;
     gravity := gravity p; friction := friction p; maxSpeed := maxSpeed p;
     isGrounded := isGrounded p; isRunning := isRunning p;
     facingRight := facingRight p;
     invulnerabilityTimer := invulnerabilityTimer p; animationFrame := v;
     animationTimer := animationTimer p;
     animationSpeed := animationSpeed p; powerUpTimers := powerUpTimers p;
     basePowerValues := basePowerValues p |}.

Definition set_animationTimer (v : Q) (p : t) : t :=
  {| x := x p; y := y p; velocity := velocity p; width := width p;
     height := height p; speed := speed p; jumpPower := jumpPower p;
     gravity := gravity p; friction := friction p; maxSpeed := maxSpeed p;
     isGrounded := isGrounded p; isRunning := isRunning p;
     facingRight := facingRight p;
     invulnerabilityTimer := invulnerabilityTimer p;
     animationFrame := animationFrame p; animationTimer := v;
     animationSpeed := animationSpeed p; powerUpTimers := powerUpTimers p;
     basePowerValues := basePowerValues p |}.

Definition set_powerUpTimers (v : TimerMap.t) (p : t) : t :=
  {| x := x p; y := y p; velocity := velocity p; width := width p;
     height := height p; speed := speed p; jumpPower := jumpPower p;
     gravity := gravity p; friction := friction p; maxSpeed := maxSpeed p;
     isGrounded := isGrounded p; isRunning := isRunning p;
     facingRight := facingRight p;
     invulnerabilityTimer := invulnerabilityTimer p;
     animationFrame := animationFrame p;
     animationTimer := animationTimer p;
     animationSpeed := animationSpeed p; powerUpTimers := v;
     basePowerValues := basePowerValues p |}.


Definition set_vx (v : Q) (p : t) : t :=
  set_velocity (Vector2.set_x v (velocity p)) p.
Definition set_vy (v : Q) (p : t) : t :=
  set_velocity (Vector2.set_y v (velocity p)) p.
Definition vx (p : t) : Q := Vector2.x (velocity p).
Definition vy (p : t) : Q := Vector2.y (velocity p).

Definition getBounds (p : t) : Rectangle.t :=
  Rectangle.new (x p) (y p) (width p) (height p).

Definition handleInput (input : InputManager.t) (deltaTime : Q) (p : t) : t :=
  let pressed := InputManager.isPressed input in
  (* Horizontal movement *)
  let p1 :=
    if pressed "left" || pressed "a" then
      set_isRunning true
        (set_facingRight false (set_vx (vx p - speed p * deltaTime) p))
    else if pressed "right" || pressed "d" then
      set_isRunning true
        (set_facingRight true (set_vx (vx p + speed p * deltaTime) p))
    else set_isRunning false p in
  (* Running *)
  let runMultiplier := if pressed "shift" && isRunning p1 then 1.5 else 1 in
  let p2 := set_vx (vx p1 * runMultiplier) p1 in
  (* Jumping *)
  let p3 :=
    if (pressed "space" || pressed "up" || pressed "w") && isGrounded p2
    then set_isGrounded false (set_vy (- jumpPower p2) p2)
    else p2 in
  (* Friction and speed limits *)
  let p4 := set_vx (vx p3 * friction p3) p3 in
  set_vx (JS.max (- maxSpeed p4) (JS.min (maxSpeed p4) (vx p4))) p4.

(** The body of the [forEach] callback of [checkPlatformCollisions];
    [playerBounds] is the rectangle taken once before the loop. *)
Definition collideWith (playerBounds : Rectangle.t) (p : t)
    (platform : Platform.t) : t :=
  let platformBounds := Platform.getBounds platform in
  if Rectangle.intersects playerBounds platformBounds then
    let overlapX :=
      JS.min (Rectangle.right playerBounds - Rectangle.left platformBounds)
             (Rectangle.right platformBounds - Rectangle.left playerBounds) in
    let overlapY :=
      JS.min (Rectangle.bottom playerBounds - Rectangle.top platformBounds)
             (Rectangle.bottom platformBounds - Rectangle.top playerBounds) in
    if JS.lt overlapX overlapY then
      let p1 :=
        if JS.lt (Rectangle.centerX playerBounds)
                 (Rectangle.centerX platformBounds)
        then set_x (Rectangle.left platformBounds - width p) p
        else set_x (Rectangle.right platformBounds) p in
      set_vx 0 p1
    else
      if JS.lt (Rectangle.centerY playerBounds)
               (Rectangle.centerY platformBounds)
      then
        set_isGrounded true
          (set_vy 0 (set_y (Rectangle.top platformBounds - height p) p))
      else
        set_vy 0 (set_y (Rectangle.bottom platformBounds) p)
  else p.

Definition checkPlatformCollisions (level : Level.t) (p : t) : t :=
  let playerBounds := getBounds p in
  fold_left (collideWith playerBounds) (Level.platforms level)
            (set_isGrounded false p).

Definition respawn (p : t) : t :=
  set_velocity (Vector2.set 0 0 (velocity p)) (set_y 400 (set_x 100 p)).

Definition updatePhysics (deltaTime : Q) (level : Level.t) (p : t) : t :=
  (* Apply gravity *)
  let p1 := set_vy (vy p + gravity p * deltaTime) p in
  (* Update position *)
  let p2 := set_x (x p1 + vx p1 * deltaTime) p1 in
  let p3 := set_y (y p2 + vy p2 * deltaTime) p2 in
  (* Check collisions with platforms *)
  let p4 := checkPlatformCollisions level p3 in
  (* Keep player in bounds *)
  let p5 := set_x (JS.max 0 (JS.min (Level.width level - width p4) (x p4))) p4 in
  (* Check if player fell off the level *)
  if JS.gt (y p5) (Level.height level + 100) then respawn p5 else p5.

Definition removePowerUp (type : PowerUpType.t) (p : t) : t :=
  match type with
  | PowerUpType.speed =>
      set_maxSpeed (base_maxSpeed (basePowerValues p))
        (set_speed (base_speed (basePowerValues p)) p)
  | PowerUpType.jump => set_jumpPower (base_jumpPower (basePowerValues p)) p
  | PowerUpType.size => set_height 48 (set_width 32 p)
  | PowerUpType.invincible => p
  end.

(** The callback of the [forEach] in [updatePowerUps], for the entry
    [(type, timer)]. *)
Definition tickPowerUp (deltaTime : Q) (p : t) (entry : PowerUpType.t * Q) : t :=
  let '(type, timer) := entry in
  let newTimer := JS.sub timer deltaTime in
  if JS.le newTimer 0 then
    let p1 := removePowerUp type p in
    set_powerUpTimers (TimerMap.delete type (powerUpTimers p1)) p1
  else
    set_powerUpTimers (TimerMap.set type newTimer (powerUpTimers p)) p.

(** [Map.prototype.forEach] visits every entry once, in insertion order;
    the callback deletes or overwrites the entry being visited only, so
    the visited entries are those present when the loop starts. *)
Definition updatePowerUps (deltaTime : Q) (p : t) : t :=
  fold_left (tickPowerUp deltaTime) (powerUpTimers p) p.

Definition updateAnimation (deltaTime : Q) (p : t) : t :=
  if isRunning p && isGrounded p then
    let p1 := set_animationTimer (animationTimer p + deltaTime) p in
    if JS.ge (animationTimer p1) (animationSpeed p1) then
      set_animationTimer 0
        (set_animationFrame (Z.rem (animationFrame p1 + 1) 4) p1)
    else p1
  else set_animationFrame 0 p.

Definition updateInvulnerability (deltaTime : Q) (p : t) : t :=
  if JS.gt (invulnerabilityTimer p) 0
  then set_invulnerabilityTimer (JS.sub (invulnerabilityTimer p) deltaTime) p
  else p.

Definition update (deltaTime : Q) (input : InputManager.t) (level : Level.t)
    (p : t) : t :=
  let p1 := handleInput input deltaTime p in
  let p2 := updatePhysics deltaTime level p1 in
  let p3 := updatePowerUps deltaTime p2 in
  let p4 := updateAnimation deltaTime p3 in
  updateInvulnerability deltaTime p4.

Definition applyPowerUp (type : PowerUpType.t) (p : t) : t :=
  let p1 := set_powerUpTimers (TimerMap.set type 10 (powerUpTimers p)) p in
  match type with
  | PowerUpType.speed =>
      set_maxSpeed (base_maxSpeed (basePowerValues p1) * 1.5)
        (set_speed (base_speed (basePowerValues p1) * 1.5) p1)
  | PowerUpType.jump => set_jumpPower (base_jumpPower (basePowerValues p1) * 1.3) p1
  | PowerUpType.size => set_height 36 (set_width 24 p1)
  | PowerUpType.invincible => set_invulnerabilityTimer 10 p1
  end.

Definition isInvulnerable (p : t) : bool :=
  JS.gt (invulnerabilityTimer p) 0
  || TimerMap.has PowerUpType.invincible (powerUpTimers p).

Definition takeDamage (p : t) : t :=
  if negb (isInvulnerable p) then
    let p1 := set_invulnerabilityTimer 2 p in
    (* Knockback effect *)
    let p2 := set_vx (if facingRight p1 then -200 else 200) p1 in
    set_vy (-150) p2
  else p.

Definition bounce (p : t) : t := set_vy (-200) p.

End Player.

(** ** GameState *)

Module GameState.

(** What [loadFromStorage] reads back from the save slot after
    [JSON.parse]; either field may be missing. *)
Record SaveData : Type := mkSave {
  saved_highScore : option Q;
  saved_achievements : option (list string) }.

Record t : Type := mk {
  score : Q; lives : Q; currentLevel : Z; highScore : Q;
  achievements : gset string }.

(** [constructor()]: the field initialisers, then [loadFromStorage];
    [saved] is [None] when the slot is empty or cannot be read. *)
Definition new (saved : option SaveData) : t :=
  match saved with
  | Some data =>
      mk 0 3 1 (default 0 (saved_highScore data))
         (list_to_set (default [] (saved_achievements data)))
  | None => mk 0 3 1 0 ∅
  end.

Definition unlock (threshold : bool) (id : string) (g : t) : t :=
  if threshold && negb (bool_decide (id ∈ achievements g))
  then mk (score g) (lives g) (currentLevel g) (highScore g)
          (achievements g ∪ {[ id ]})
  else g.

Definition checkScoreAchievements (g : t) : t :=
  let g1 := unlock (JS.ge (score g) 10000) "score_10k" g in
  unlock (JS.ge (score g1) 50000) "score_50k" g1.

Definition checkLevelAchievements (g : t) : t :=
  let g1 := unlock (5 <=? currentLevel g)%Z "level_5" g in
  unlock (10 <=? currentLevel g1)%Z "level_10" g1.

(** [saveToStorage] writes the save slot and leaves the object as it
    is, so it does not appear. *)
Definition addScore (points : Q) (g : t) : t :=
  let g1 := mk (score g + points) (lives g) (currentLevel g) (highScore g)
               (achievements g) in
  let g2 :=
    if JS.gt (score g1) (highScore g1)
    then mk (score g1) (lives g1) (currentLevel g1) (score g1) (achievements g1)
    else g1 in
  checkScoreAchievements g2.

Definition loseLife (g : t) : t :=
  mk (score g) (JS.max 0 (lives g - 1)) (currentLevel g) (highScore g)
     (achievements g).

Definition gainLife (g : t) : t :=
  mk (score g) (JS.min 9 (lives g + 1)) (currentLevel g) (highScore g)
     (achievements g).

Definition nextLevel (g : t) : t :=
  let g1 := mk (score g) (lives g) (currentLevel g + 1)%Z (highScore g)
               (achievements g) in
  let g2 := addScore (1000 * inject_Z (currentLevel g1)) g1 in
  checkLevelAchievements g2.

Definition reset (g : t) : t :=
  mk 0 3 1 (highScore g) (achievements g).

(** The calls a client can make on a [GameState]. *)
Inductive call : Type :=
| AddScore (points : Q)
| LoseLife
| GainLife
| NextLevel
| Reset.

Definition perform (g : t) (c : call) : t :=
  match c with
  | AddScore points => addScore points g
  | LoseLife => loseLife g
  | GainLife => gainLife g
  | NextLevel => nextLevel g
  | Reset => reset g
  end.

Definition run (cs : list call) (g : t) : t := fold_left perform cs g.

End GameState.

(** ** Camera *)

Module Camera.

(** [target] is a reference to the live player object, so it is not a
    field here: [update] is given the player's current state, [None] when
    no target is set. *)
Record t : Type := mk {
  x : Q; y : Q; width : Q; height : Q;
  smoothing : Q; offsetX : Q; offsetY : Q;
  shakeX : Q; shakeY : Q; shakeIntensity : Q; shakeDecay : Q }.

(** [constructor(width, height)] *)
Definition new (w h : Q) : t :=
  {| x := 0; y := 0; width := w; height := h;
     smoothing := 0.1; offsetX := 0; offsetY := 0;
     shakeX := 0; shakeY := 0; shakeIntensity := 0; shakeDecay := 0.9 |}.

Definition set_position (cx cy : Q) (c : t) : t :=
  {| x := cx; y := cy; width := width c; height := height c;
     smoothing := smoothing c; offsetX := offsetX c; offsetY := offsetY c;
     shakeX := shakeX c; shakeY := shakeY c;
     shakeIntensity := shakeIntensity c; shakeDecay := shakeDecay c |}.

Definition set_shake (sx sy intensity : Q) (c : t) : t :=
  {| x := x c; y := y c; width := width c; height := height c;
     smoothing := smoothing c; offsetX := offsetX c; offsetY := offsetY c;
     shakeX := sx; shakeY := sy;
     shakeIntensity := intensity; shakeDecay := shakeDecay c |}.

(** [updateScreenShake(deltaTime)]; [rnd] is the stream of [Math.random]
    results. *)
Definition updateScreenShake (rnd : nat -> Q) (c : t) : Level.Gen t :=
  if JS.gt (shakeIntensity c) 0 then
    r1 ← Level.random rnd;
    let shakeX' := (r1 - 0.5) * shakeIntensity c in
    r2 ← Level.random rnd;
    let shakeY' := (r2 - 0.5) * shakeIntensity c in
    let intensity' := shakeIntensity c * shakeDecay c in
    if JS.lt intensity' 0.1
    then mret (set_shake 0 0 0 c)
    else mret (set_shake shakeX' shakeY' intensity' c)
  else mret c.

(** [update(deltaTime)] *)
Definition update (rnd : nat -> Q) (deltaTime : Q) (target : option Player.t)
    (c : t) : Level.Gen t :=
  let c1 :=
    match target with
    | Some player =>
        (* Calculate desired camera position *)
        let targetX := Player.x player - width c / 2 + Player.width player / 2 in
        let targetY := Player.y player - height c / 2 + Player.height player / 2 in
        (* Smooth camera movement *)
        let x1 := x c + (targetX - x c) * smoothing c in
        let y1 := y c + (targetY - y c) * smoothing c in
        (* Keep camera within bounds *)
        set_position (JS.max 0 x1) (JS.max (-100) (JS.min 100 y1)) c
    | None => c
    end in
  updateScreenShake rnd c1.

(** [shake(intensity)] *)
Definition shake (intensity : Q) (c : t) : t :=
  set_shake (shakeX c) (shakeY c) (JS.max (shakeIntensity c) intensity) c.

(** The vector [apply(ctx)] passes to [ctx.translate]. *)
Definition translation (c : t) : Q * Q :=
  (- x c + offsetX c + shakeX c, - y c + offsetY c + shakeY c).

End Camera.

(** ** effects/ParticleSystem *)

Inductive ParticleType : Type := spark | explosion | sparkle | trail.

Module ParticleSystem.

Record Particle : Type := mkParticle {
  x : Q; y : Q; vx : Q; vy : Q;
  life : Q; maxLife : Q;
  color : string; size : Q; alpha : Q;
  type : ParticleType }.

(** Of the settings the class reads [graphics.particleEffects] only. *)
Record GameSettings : Type := mkSettings { particleEffects : bool }.

Record t : Type := mk {
  particles : list Particle;
  settings : GameSettings;
  maxParticles : Z;
  qualityMultiplier : Q }.

(** [constructor(settings)] *)
Definition new (s : GameSettings) : t :=
  mk [] s (if particleEffects s then 200 else 50)
     (if particleEffects s then 1 else 0.5).

(** [Array.prototype.slice(start)] for an integer [start]: a negative
    [start] counts from the end. *)
Definition sliceFrom {A : Type} (start : Z) (l : list A) : list A :=
  let len := Z.of_nat (length l) in
  let k := if (start <? 0)%Z then Z.max (len + start) 0 else Z.min start len in
  skipn (Z.to_nat k) l.

(** The callback of the [filter] in [update]: the particle after the
    step, and whether it is kept. *)
Definition step (deltaTime : Q) (p : Particle) : Particle * bool :=
  (* Update particle position *)
  let x' := x p + vx p * deltaTime in
  let y' := y p + vy p * deltaTime in
  (* Apply gravity to some particle types *)
  let vy1 := match type p with
             | explosion | spark => vy p + 300 * deltaTime
             | _ => vy p
             end in
  (* Update life *)
  let life' := JS.sub (life p) deltaTime in
  let alpha' := life' / maxLife p in
  (* Apply friction *)
  let vx' := vx p * 0.98 in
  let vy' := vy1 * 0.98 in
  (mkParticle x' y' vx' vy' life' (maxLife p) (color p) (size p) alpha' (type p),
   JS.gt life' 0).

Fixpoint stepAll (deltaTime : Q) (ps : list Particle) : list Particle :=
  match ps with
  | [] => []
  | p :: ps' =>
      let '(p', keep) := step deltaTime p in
      if keep then p' :: stepAll deltaTime ps' else stepAll deltaTime ps'
  end.

(** [update(deltaTime)] *)
Definition update (deltaTime : Q) (this : t) : t :=
  let ps0 :=
    if negb (particleEffects (settings this))
    then firstn 20 (particles this)   (* slice(0, 20) *)
    else particles this in
  let ps1 := stepAll deltaTime ps0 in
  (* Limit particle count for performance *)
  let ps2 :=
    if (maxParticles this <? Z.of_nat (length ps1))%Z
    then sliceFrom (- maxParticles this) ps1
    else ps1 in
  mk ps2 (settings this) (maxParticles this) (qualityMultiplier this).

Definition push (p : Particle) (this : t) : t :=
  mk (particles this ++ [p]) (settings this) (maxParticles this)
     (qualityMultiplier this).

Section Emitters.

Variable sin cos : Q -> Q.
Variable PI : Q.
Variable rnd : nat -> Q.

(** [createExplosion(x, y, color)] *)
Definition createExplosion (px py : Q) (col : string) (this : t) : Level.Gen t :=
  let particleCount := Qfloor (15 * qualityMultiplier this) in
  Level.for_range (Z.to_nat particleCount) 0
    (fun i this =>
       let angle := (PI * 2 * JS.num i) / inject_Z particleCount in
       r1 ← Level.random rnd;
       let speed := (100 + r1 * 100) * qualityMultiplier this in
       r2 ← Level.random rnd;
       r3 ← Level.random rnd;
       mret (push (mkParticle px py (cos angle * speed) (sin angle * speed)
                     (0.8 + r2 * 0.4) 1.2 col
                     ((3 + r3 * 3) * qualityMultiplier this) 1 explosion)
                  this))
    this.

(** [createSparkle(x, y, color)] *)
Definition createSparkle (px py : Q) (col : string) (this : t) : Level.Gen t :=
  let particleCount := Qfloor (8 * qualityMultiplier this) in
  Level.for_range (Z.to_nat particleCount) 0
    (fun _ this =>
       r1 ← Level.random rnd;
       let angle := r1 * PI * 2 in
       r2 ← Level.random rnd;
       let speed := (50 + r2 * 50) * qualityMultiplier this in
       r3 ← Level.random rnd;
       r4 ← Level.random rnd;
       r5 ← Level.random rnd;
       r6 ← Level.random rnd;
       mret (push (mkParticle (px + r3 * 20 - 10) (py + r4 * 20 - 10)
                     (cos angle * speed) (sin angle * speed)
                     (0.5 + r5 * 0.5) 1 col
                     ((2 + r6 * 3) * qualityMultiplier this) 1 sparkle)
                  this))
    this.

(** [createPowerUpEffect(x, y, color)] *)
Definition createPowerUpEffect (px py : Q) (col : string) (this : t) : Level.Gen t :=
  let particleCount := Qfloor (20 * qualityMultiplier this) in
  Level.for_range (Z.to_nat particleCount) 0
    (fun _ this =>
       r1 ← Level.random rnd;
       let angle := r1 * PI * 2 in
       r2 ← Level.random rnd;
       let speed := (80 + r2 * 80) * qualityMultiplier this in
       r3 ← Level.random rnd;
       r4 ← Level.random rnd;
       mret (push (mkParticle (px + 16) (py + 16)
                     (cos angle * speed) (sin angle * speed - 100)
                     (1 + r3 * 0.5) 1.5 col
                     ((4 + r4 * 4) * qualityMultiplier this) 1 spark)
                  this))
    this.

(** [createTrail(x, y, color)] *)
Definition createTrail (px py : Q) (col : string) (this : t) : Level.Gen t :=
  if negb (particleEffects (settings this)) then mret this
  else
    r1 ← Level.random rnd;
    r2 ← Level.random rnd;
    r3 ← Level.random rnd;
    mret (push (mkParticle px py ((r1 - 0.5) * 20) ((r2 - 0.5) * 20)
                  0.3 0.3 col
                  ((2 + r3 * 2) * qualityMultiplier this) 0.6 trail)
               this).

End Emitters.

(** [reduceQuality()] *)
Definition reduceQuality (this : t) : t :=
  mk (particles this) (settings this)
     (Qfloor (inject_Z (maxParticles this) * 0.8))
     (JS.max 0.2 (qualityMultiplier this * 0.8)).

(** [updateSettings(settings)] *)
Definition updateSettings (s : GameSettings) (this : t) : t :=
  mk (particles this) s (if particleEffects s then 200 else 50)
     (if particleEffects s then 1 else 0.5).

End ParticleSystem.

(** * Vocabulary of the statements

    Projections, classifications and concrete inputs that the theorems
    below are stated with. *)

(** ** Players *)

(** The fields that only the power-up methods write. *)
Definition powerState (p : Player.t) :=
  (Player.width p, Player.height p, Player.speed p, Player.jumpPower p,
   Player.maxSpeed p, Player.powerUpTimers p, Player.basePowerValues p).


(** A level of the generated shape with its sixteen ground tiles. *)
Definition ground_level : Level.t :=
  Level.groundLoop 17 0 (Level.mk 2048 576 [] [] [] [] 1).

(** No key is held. *)
Definition no_keys : InputManager.t := InputManager.mk ∅ ∅.

(** The stat a power-up kind changes, and the value [removePowerUp] gives
    it back: the stored base values for [speed] and [jump], the size of the
    constructor for [size]; [invincible] has no stat. *)
Definition affectedStat (k : PowerUpType.t) (p : Player.t) : list Q :=
  match k with
  | PowerUpType.speed => [Player.speed p; Player.maxSpeed p]
  | PowerUpType.jump => [Player.jumpPower p]
  | PowerUpType.size => [Player.width p; Player.height p]
  | PowerUpType.invincible => []
  end.

(** The value the stat of a kind is restored to. *)
Definition baseStat (k : PowerUpType.t) (p : Player.t) : list Q :=
  match k with
  | PowerUpType.speed =>
      [Player.base_speed (Player.basePowerValues p);
       Player.base_maxSpeed (Player.basePowerValues p)]
  | PowerUpType.jump => [Player.base_jumpPower (Player.basePowerValues p)]
  | PowerUpType.size => [32; 48]
  | PowerUpType.invincible => []
  end.

(** What the engine does to a player between two frames. *)
Inductive action : Type :=
| Update (dt : Q) (input : InputManager.t) (level : Level.t)
| ApplyPowerUp (k : PowerUpType.t)
| TakeDamage
| Bounce
| Respawn.

Definition act (p : Player.t) (a : action) : Player.t :=
  match a with
  | Update dt input level => Player.update dt input level p
  | ApplyPowerUp k => Player.applyPowerUp k p
  | TakeDamage => Player.takeDamage p
  | Bounce => Player.bounce p
  | Respawn => Player.respawn p
  end.

Definition simulate (acts : list action) (p : Player.t) : Player.t :=
  fold_left act acts p.

(** The simulated time of a run: the sum of the [dt] of its updates. *)
Fixpoint elapsed (acts : list action) : Q :=
  match acts with
  | [] => 0
  | Update dt _ _ :: acts' => dt + elapsed acts'
  | _ :: acts' => elapsed acts'
  end.

(** Time runs forward: an update has a non-negative [dt]. *)
Definition forward (a : action) : Prop :=
  match a with
  | Update dt _ _ => 0 <= dt
  | _ => True
  end.

(** The timer entry of one kind through [n] updates of [dt] each: what
    the callback of [updatePowerUps] does to it. *)
Definition countdown (dt : Q) (n : nat) (entry : option Q) : option Q :=
  Nat.iter n
    (fun entry =>
       match entry with
       | Some timer =>
           if JS.le (JS.sub timer dt) 0 then None else Some (JS.sub timer dt)
       | None => None
       end)
    entry.

(** ** Enemies *)

(** The resolution the specification describes for a ground enemy: the
    callback of [Player.checkPlatformCollisions] carried over to the
    enemy's fields, with the direction reversed in the horizontal branch. *)
Definition playerStyle_collideWith (bounds : Rectangle.t) (e : Enemy.t)
    (platform : Platform.t) : Enemy.t :=
  let platformBounds := Platform.getBounds platform in
  if Rectangle.intersects bounds platformBounds then
    let overlapX :=
      JS.min (Rectangle.right bounds - Rectangle.left platformBounds)
             (Rectangle.right platformBounds - Rectangle.left bounds) in
    let overlapY :=
      JS.min (Rectangle.bottom bounds - Rectangle.top platformBounds)
             (Rectangle.bottom platformBounds - Rectangle.top bounds) in
    if JS.lt overlapX overlapY then
      let e0 := Enemy.set_direction (Enemy.direction e * -1) e in
      let e1 :=
        if JS.lt (Rectangle.centerX bounds) (Rectangle.centerX platformBounds)
        then Enemy.set_x (Rectangle.left platformBounds - Enemy.width e0) e0
        else Enemy.set_x (Rectangle.right platformBounds) e0 in
      Enemy.set_velocity (Vector2.set_x 0 (Enemy.velocity e1)) e1
    else
      if JS.lt (Rectangle.centerY bounds) (Rectangle.centerY platformBounds)
      then
        let e1 := Enemy.set_y (Rectangle.top platformBounds - Enemy.height e) e in
        let e2 := Enemy.set_velocity (Vector2.set_y 0 (Enemy.velocity e1)) e1 in
        Enemy.set_isGrounded true e2
      else
        let e1 := Enemy.set_y (Rectangle.bottom platformBounds) e in
        Enemy.set_velocity (Vector2.set_y 0 (Enemy.velocity e1)) e1
  else e.

Definition playerStyle_checkPlatformCollisions (platforms : list Platform.t)
    (e : Enemy.t) : Enemy.t :=
  fold_left (playerStyle_collideWith (Enemy.getBounds e)) platforms
            (Enemy.set_isGrounded false e).

(** The kinematic state the two classes share. *)
Record Body : Type := mkBody {
  body_x : Q; body_y : Q; body_width : Q; body_height : Q;
  body_velocity : Vector2.t; body_isGrounded : bool }.

Definition Player_body (p : Player.t) : Body :=
  mkBody (Player.x p) (Player.y p) (Player.width p) (Player.height p)
         (Player.velocity p) (Player.isGrounded p).

Definition Enemy_body (e : Enemy.t) : Body :=
  mkBody (Enemy.x e) (Enemy.y e) (Enemy.width e) (Enemy.height e)
         (Enemy.velocity e) (Enemy.isGrounded e).

(** The rectangle [bounds] meets the platform on the vertical axis with its
    centre not above the platform's centre: the "hit underside" case. *)
Definition hitsUnderside (bounds : Rectangle.t) (platform : Platform.t) : bool :=
  let platformBounds := Platform.getBounds platform in
  Rectangle.intersects bounds platformBounds
  && negb (JS.lt (fst (Rectangle.overlaps bounds platformBounds))
                 (snd (Rectangle.overlaps bounds platformBounds)))
  && negb (JS.lt (Rectangle.centerY bounds) (Rectangle.centerY platformBounds)).

(** The collision is resolved on the horizontal axis: a wall contact. *)
Definition hitsWall (bounds : Rectangle.t) (platform : Platform.t) : bool :=
  let platformBounds := Platform.getBounds platform in
  Rectangle.intersects bounds platformBounds
  && JS.lt (fst (Rectangle.overlaps bounds platformBounds))
           (snd (Rectangle.overlaps bounds platformBounds)).

(** The player's method with the two differences of the enemy's: a
    platform met from below is ignored, and [velocity.x] is kept. *)
Definition enemyStyle_collideWith (bounds : Rectangle.t) (e : Enemy.t)
    (platform : Platform.t) : Enemy.t :=
  if hitsUnderside bounds platform then e
  else
    let s := playerStyle_collideWith bounds e platform in
    Enemy.set_velocity
      (Vector2.set_x (Vector2.x (Enemy.velocity e)) (Enemy.velocity s)) s.

(** ** Levels *)

(** The platforms of [ps] that have the type [ty]. *)
Definition ofType (ty : PlatformType) (ps : list Platform.t) : list Platform.t :=
  List.filter
    (fun p => match Platform.type p, ty with
              | ground, ground | floating, floating
              | moving, moving | breakable, breakable => true
              | _, _ => false
              end) ps.

(** The platforms [ps], left to right, cover [[from, to]] edge to edge:
    each starts where the one before ends. *)
Fixpoint tiles (ps : list Platform.t) (from to : Q) : Prop :=
  match ps with
  | [] => from == to
  | p :: ps' =>
      Platform.x p == from /\ 0 < Platform.width p
      /\ tiles ps' (Platform.x p + Platform.width p) to
  end.

(** The ground row of a level 2048 wide and 576 high. *)
Definition groundRow : list Platform.t :=
  map (fun i => Platform.new (inject_Z (128 * Z.of_nat i)) 512 128 64 ground)
      (seq 0 16).

(** A platform of the floating type. *)
Definition isFloating (p : Platform.t) : Prop := Platform.type p = floating.

(** The two moving platforms of the levels from 3 on. *)
Definition movingPair : list Platform.t :=
  [Platform.new 600 300 128 24 moving; Platform.new 1000 350 128 24 moving].

(** The parts of a level that only [generatePlatforms] writes. *)
Definition sameTerrain (l0 l : Level.t) : Prop :=
  Level.width l = Level.width l0 /\ Level.height l = Level.height l0
  /\ Level.platforms l = Level.platforms l0
  /\ Level.levelNumber l = Level.levelNumber l0.

(** A collectible whose position is inside no platform of [ps] (the
    closed-rectangle test of [generateCollectibles]). *)
Definition clearOf (ps : list Platform.t) (c : Collectible.t) : Prop :=
  List.Forall
    (fun platform =>
       Level.insidePlatform (Collectible.x c) (Collectible.y c) platform = false)
    ps.


(** A [Math.sin] that is constantly [0] and a [Math.random] that always
    returns [1/2], for the concrete levels below. *)
Definition flat_sin : Q -> Q := fun _ => 0.
Definition even_rnd : nat -> Q := fun _ => 1 # 2.

(** ** Further vocabulary *)

(** The rectangle [bounds] comes down on the platform: they intersect, the
    collision is resolved on the vertical axis, and the centre of [bounds]
    is above the platform's centre. *)
Definition landsOn (bounds : Rectangle.t) (platform : Platform.t) : bool :=
  let platformBounds := Platform.getBounds platform in
  Rectangle.intersects bounds platformBounds
  && negb (JS.lt (fst (Rectangle.overlaps bounds platformBounds))
                 (snd (Rectangle.overlaps bounds platformBounds)))
  && JS.lt (Rectangle.centerY bounds) (Rectangle.centerY platformBounds).

(** [Player.update] repeated for [n] frames with the same time step, input
    and level. *)
Definition frames (n : nat) (dt : Q) (input : InputManager.t) (level : Level.t)
    (p : Player.t) : Player.t :=
  Nat.iter n (Player.update dt input level) p.

(** The player [p] is at rest on top of [platform], the only platform of
    [level]: no power-up is running, the velocity is zero, the feet are on
    the platform's top, the sink of one frame of gravity
    ([gravity * dt * dt]) is positive, no more than the horizontal overlap
    with the platform and less than half the two heights together, and the
    player is within the level's bounds. *)
Definition restsOn (dt : Q) (level : Level.t) (platform : Platform.t)
    (p : Player.t) : Prop :=
  Level.platforms level = [platform]
  /\ Player.powerUpTimers p = []
  /\ Player.vx p == 0 /\ Player.vy p == 0
  /\ Player.y p + Player.height p == Platform.y platform
  /\ 0 < Player.gravity p * dt * dt
  /\ Player.gravity p * dt * dt
     <= Player.x p + Player.width p - Platform.x platform
  /\ Player.gravity p * dt * dt
     <= Platform.x platform + Platform.width platform - Player.x p
  /\ 2 * (Player.gravity p * dt * dt) < Player.height p + Platform.height platform
  /\ 0 <= Player.maxSpeed p
  /\ 0 <= Player.x p <= Level.width level - Player.width p
  /\ Player.y p <= Level.height level + 100.

(** The actions that neither hit the player nor make it invincible, with
    time running forward. *)
Definition calm (a : action) : Prop :=
  match a with
  | Update dt _ _ => 0 <= dt
  | Bounce | Respawn => True
  | ApplyPowerUp _ | TakeDamage => False
  end.

(** The names under which [updateGamepadInput] records the gamepad. *)
Definition gamepadKeys : list string :=
  ["gamepad_left"; "gamepad_right"; "gamepad_up"; "gamepad_down";
   "gamepad_jump"; "gamepad_run"]%string.

(** [Camera.update] over successive frames; [targets] gives the state of
    the camera's target in each frame. *)
Fixpoint cameraFrames (rnd : nat -> Q) (dt : Q) (targets : list (option Player.t))
    (c : Camera.t) : Level.Gen Camera.t :=
  match targets with
  | [] => mret c
  | target :: rest =>
      c' ← Camera.update rnd dt target c; cameraFrames rnd dt rest c'
  end.

(** No screen shake is running: the intensity and both offsets are [0]. *)
Definition shakeSettled (c : Camera.t) : Prop :=
  Camera.shakeIntensity c = 0 /\ Camera.shakeX c = 0 /\ Camera.shakeY c = 0.

(** [this'] is [this] with [count] new particles appended ([count]
    taken as [0] when negative), all of type [ty], opaque, and with
    [0 < life <= maxLife <= 1.5]. *)
Definition emitted (this : ParticleSystem.t) (count : Z) (ty : ParticleType)
    (this' : ParticleSystem.t) : Prop :=
  exists new,
    this' = ParticleSystem.mk (ParticleSystem.particles this ++ new)
              (ParticleSystem.settings this) (ParticleSystem.maxParticles this)
              (ParticleSystem.qualityMultiplier this)
    /\ Z.of_nat (length new) = Z.max 0 count
    /\ List.Forall
         (fun p => ParticleSystem.type p = ty
                   /\ ParticleSystem.alpha p = 1
                   /\ 0 < ParticleSystem.life p
                   /\ ParticleSystem.life p <= ParticleSystem.maxLife p
                   /\ ParticleSystem.maxLife p <= 1.5)
         new.

(** * Properties *)

(** ** Comparisons as propositions *)

Lemma JS_le_true a b : JS.le a b = true <-> a <= b.
Proof. apply Qle_bool_iff. Qed.

Lemma JS_le_false a b : JS.le a b = false <-> b < a.
Proof.
  unfold JS.le. rewrite <- not_true_iff_false, Qle_bool_iff.
  split; [apply Qnot_le_lt | apply Qlt_not_le].
Qed.

Lemma JS_ge_true a b : JS.ge a b = true <-> b <= a.
Proof. apply JS_le_true. Qed.

Lemma JS_ge_false a b : JS.ge a b = false <-> a < b.
Proof. apply JS_le_false. Qed.

Lemma JS_lt_true a b : JS.lt a b = true <-> a < b.
Proof. unfold JS.lt. rewrite negb_true_iff. apply JS_le_false. Qed.

Lemma JS_lt_false a b : JS.lt a b = false <-> b <= a.
Proof. unfold JS.lt. rewrite negb_false_iff. apply JS_le_true. Qed.

Lemma JS_gt_true a b : JS.gt a b = true <-> b < a.
Proof. apply JS_lt_true. Qed.

Lemma JS_gt_false a b : JS.gt a b = false <-> a <= b.
Proof. apply JS_lt_false. Qed.

(** ** Double precision

    [0.1] as a double is [3602879701896397 * 2^-55]. *)
Example double_tenth : JS.double 0.1 == 3602879701896397 # 36028797018963968.
Proof. vm_compute. reflexivity. Qed.

(** Dyadic numbers of up to 53 bits are doubles. *)
Example double_dyadic : JS.double (5 # 8) == 5 # 8 /\ JS.double 10 == 10 /\ JS.double (-3) == -3.
Proof. vm_compute. repeat split. Qed.

Lemma nearestEven_error (q : Q) :
  - (1 # 2) <= inject_Z (JS.nearestEven q) - q <= 1 # 2.
Proof.
  unfold JS.nearestEven. cbv zeta.
  assert (L := Qfloor_le q). assert (U := Qlt_floor q).
  rewrite inject_Z_plus in U. change (inject_Z 1) with 1 in U.
  destruct (Qcompare_spec (q - inject_Z (Qfloor q)) (1 # 2)) as [E | E | E].
  - destruct (Z.even (Qfloor q)); [| rewrite inject_Z_plus; change (inject_Z 1) with 1]; lra.
  - lra.
  - rewrite inject_Z_plus; change (inject_Z 1) with 1. lra.
Qed.

Lemma pow2_pos (k : Z) : 0 < 2 ^ k.
Proof. apply Qpower_0_lt. reflexivity. Qed.

Lemma ilog2_le (q : Q) : 0 < q -> 2 ^ JS.ilog2 q <= q.
Proof.
  intros Hq. unfold JS.ilog2. cbv zeta.
  destruct q as [n d]. cbn [Qnum Qden].
  assert (Hn : (0 < n)%Z).
  { unfold Qlt in Hq. cbn in Hq. lia. }
  set (a := Z.log2 n). set (b := Z.log2 (Z.pos d)).
  destruct (Qle_bool (2 ^ (a - b)) (n # d)) eqn:T.
  - now apply Qle_bool_iff.
  - clear T.
    assert (Ha : (0 <= a)%Z) by apply Z.log2_nonneg.
    assert (Hb : (0 <= b)%Z) by apply Z.log2_nonneg.
    destruct (Z.log2_spec n Hn) as [A1 _]. fold a in A1.
    destruct (Z.log2_spec (Z.pos d) ltac:(lia)) as [_ B2]. fold b in B2.
    replace (a - b - 1)%Z with (a - (b + 1))%Z by lia.
    rewrite Qpower_minus by discriminate.
    rewrite (Qmake_Qdiv n d).
    assert (QA : 2 ^ a <= inject_Z n).
    { change 2 with (inject_Z 2). rewrite <- Zpower_Qpower by lia.
      now rewrite <- Zle_Qle. }
    assert (QB : inject_Z (Z.pos d) < 2 ^ (b + 1)).
    { change 2 with (inject_Z 2). rewrite <- Zpower_Qpower by lia.
      rewrite <- Zlt_Qlt. rewrite <- Z.add_1_r in B2. exact B2. }
    assert (PA := pow2_pos a). assert (PB := pow2_pos (b + 1)).
    assert (PD : 0 < inject_Z (Z.pos d)) by reflexivity.
    set (A := 2 ^ a) in *. set (B := 2 ^ (b + 1)) in *.
    set (N := inject_Z n) in *. set (D := inject_Z (Z.pos d)) in *.
    apply Qle_shift_div_l; [exact PD |].
    unfold Qdiv. rewrite <- Qmult_assoc, (Qmult_comm (/ B)), Qmult_assoc.
    apply Qle_shift_div_r; [exact PB |]. nra.
Qed.

(** The rounding error of a double is at most [2^-53] of the value. *)
Lemma double_error (q : Q) :
  Qabs (JS.double q - q) <= (1 # 2 ^ 53) * Qabs q.
Proof.
  unfold JS.double.
  destruct (Qeq_bool q 0) eqn:Z0.
  - apply Qeq_bool_eq in Z0. rewrite Z0. cbn. discriminate.
  - cbv zeta. apply Qeq_bool_neq in Z0.
    assert (Hq : 0 < Qabs q).
    { destruct (Qlt_le_dec 0 (Qabs q)) as [H | H]; [exact H |].
      exfalso. apply Z0. assert (N := Qabs_nonneg q).
      assert (E : Qabs q == 0) by lra.
      apply Qabs_Qle_condition with (y := 0) in H. lra. }
    assert (L := ilog2_le (Qabs q) Hq).
    set (k := JS.ilog2 (Qabs q)) in *. clearbody k.
    assert (P := pow2_pos (k - 52)).
    assert (Ek : 2 ^ k == 4503599627370496 * 2 ^ (k - 52)).
    { replace k with ((k - 52) + 52)%Z at 1 by lia.
      rewrite Qpower_plus by discriminate.
      assert (E52 : 2 ^ 52 == 4503599627370496) by reflexivity.
      rewrite E52. ring. }
    assert (Er := nearestEven_error (q / 2 ^ (k - 52))).
    set (m := inject_Z (JS.nearestEven (q / 2 ^ (k - 52)))) in *. clearbody m.
    set (s := 2 ^ (k - 52)) in *. clearbody s.
    assert (Eq : q / s * s == q) by (field; lra).
    assert (B : Qabs (m * s - q) <= (1 # 2) * s).
    { apply Qabs_Qle_condition. nra. }
    eapply Qle_trans; [exact B |].
    change (1 # 2 ^ 53) with (1 # 9007199254740992).
    lra.
Qed.

(** The double difference has the sign of the exact one and is within
    half of [Number.EPSILON] of it, relatively. *)
Lemma sub_pos (a b : Q) :
  b < a ->
  0 < JS.sub a b
  /\ (1 - JS.EPSILON * (1 # 2)) * (a - b) <= JS.sub a b
     <= (1 + JS.EPSILON * (1 # 2)) * (a - b).
Proof.
  intros H. unfold JS.sub. assert (E := double_error (a - b)).
  rewrite (Qabs_pos (a - b)) in E by lra.
  apply Qabs_Qle_condition in E.
  change (1 # 2 ^ 53) with (1 # 9007199254740992) in E.
  unfold JS.EPSILON. split; [| split]; lra.
Qed.

Lemma sub_nonpos (a b : Q) : a <= b -> JS.sub a b <= 0.
Proof.
  intros H. unfold JS.sub. assert (E := double_error (a - b)).
  rewrite (Qabs_neg (a - b)) in E by lra.
  apply Qabs_Qle_condition in E.
  change (1 # 2 ^ 53) with (1 # 9007199254740992) in E.
  lra.
Qed.

Lemma num_S (k : nat) : JS.num (Datatypes.S k) == JS.num k + 1.
Proof.
  unfold JS.num. rewrite Nat2Z.inj_succ. unfold Z.succ.
  rewrite inject_Z_plus. reflexivity.
Qed.

Lemma num_nonneg (k : nat) : 0 <= JS.num k.
Proof.
  unfold JS.num. change 0 with (inject_Z 0). rewrite <- Zle_Qle. lia.
Qed.


(** Turn every boolean comparison among the hypotheses into its
    proposition. *)
Ltac js_props :=
  repeat match goal with
    | H : JS.le _ _ = true |- _ => apply JS_le_true in H
    | H : JS.le _ _ = false |- _ => apply JS_le_false in H
    | H : JS.ge _ _ = true |- _ => apply JS_ge_true in H
    | H : JS.ge _ _ = false |- _ => apply JS_ge_false in H
    | H : JS.lt _ _ = true |- _ => apply JS_lt_true in H
    | H : JS.lt _ _ = false |- _ => apply JS_lt_false in H
    | H : JS.gt _ _ = true |- _ => apply JS_gt_true in H
    | H : JS.gt _ _ = false |- _ => apply JS_gt_false in H
    end.

(** Case analysis on the first comparison the goal branches on. *)
Ltac js_case :=
  match goal with
  | |- context [JS.le ?a ?b] => destruct (JS.le a b) eqn:?
  | |- context [JS.ge ?a ?b] => destruct (JS.ge a b) eqn:?
  | |- context [JS.lt ?a ?b] => destruct (JS.lt a b) eqn:?
  | |- context [JS.gt ?a ?b] => destruct (JS.gt a b) eqn:?
  end.

Lemma JS_min_cases a b :
  (a <= b /\ JS.min a b == a) \/ (b <= a /\ JS.min a b == b).
Proof. unfold JS.min. destruct (Q.min_spec_le a b); tauto. Qed.

Lemma JS_max_cases a b :
  (a <= b /\ JS.max a b == b) \/ (b <= a /\ JS.max a b == a).
Proof. unfold JS.max. destruct (Q.max_spec_le a b); tauto. Qed.

(** ** Rectangle *)

Lemma intersects_true (a b : Rectangle.t) :
  Rectangle.intersects a b = true <->
  Rectangle.left a < Rectangle.right b /\ Rectangle.left b < Rectangle.right a
  /\ Rectangle.top a < Rectangle.bottom b /\ Rectangle.top b < Rectangle.bottom a.
Proof.
  unfold Rectangle.intersects.
  rewrite negb_true_iff, !orb_false_iff, !JS_le_false, !JS_ge_false. tauto.
Qed.

Lemma intersects_false (a b : Rectangle.t) :
  Rectangle.intersects a b = false <->
  Rectangle.right a <= Rectangle.left b \/ Rectangle.right b <= Rectangle.left a
  \/ Rectangle.bottom a <= Rectangle.top b \/ Rectangle.bottom b <= Rectangle.top a.
Proof.
  unfold Rectangle.intersects.
  rewrite negb_false_iff, !orb_true_iff, !JS_le_true, !JS_ge_true. tauto.
Qed.

(** C6.  [Rectangle.intersects] holds exactly when the open intervals of
    the two rectangles overlap on both axes; two rectangles with an edge
    of one exactly on the facing edge of the other do not intersect; and
    whenever [intersects] is true both components of [overlaps] are
    non-negative. *)
Theorem C6_intersects_open_and_overlaps_nonneg (a b : Rectangle.t) :
  (Rectangle.intersects a b = true <->
     Rectangle.left a < Rectangle.right b /\ Rectangle.left b < Rectangle.right a
     /\ Rectangle.top a < Rectangle.bottom b /\ Rectangle.top b < Rectangle.bottom a)
  /\ (Rectangle.right a == Rectangle.left b \/ Rectangle.left a == Rectangle.right b
      \/ Rectangle.bottom a == Rectangle.top b \/ Rectangle.top a == Rectangle.bottom b ->
      Rectangle.intersects a b = false)
  /\ (Rectangle.intersects a b = true ->
      0 <= fst (Rectangle.overlaps a b) /\ 0 <= snd (Rectangle.overlaps a b)).
Proof.
  split; [apply intersects_true |]. split.
  - intros H. apply intersects_false.
    destruct H as [H | [H | [H | H]]]; rewrite H; auto using Qle_refl.
  - intros H. apply intersects_true in H. destruct H as (H1 & H2 & H3 & H4).
    unfold Rectangle.overlaps; cbn [fst snd]. split.
    + destruct (JS_min_cases (Rectangle.right a - Rectangle.left b)
                             (Rectangle.right b - Rectangle.left a))
        as [[_ E] | [_ E]]; rewrite E; lra.
    + destruct (JS_min_cases (Rectangle.bottom a - Rectangle.top b)
                             (Rectangle.bottom b - Rectangle.top a))
        as [[_ E] | [_ E]]; rewrite E; lra.
Qed.

(** Two unit-height rectangles sharing the edge [x = 4] do not intersect,
    and two properly crossing ones overlap by [2] and [3]. *)
Lemma C6_witness :
  Rectangle.intersects (Rectangle.new 0 0 4 1) (Rectangle.new 4 0 4 1) = false
  /\ (0 <= fst (Rectangle.overlaps (Rectangle.new 0 0 4 5) (Rectangle.new 2 2 4 5))
      /\ 0 <= snd (Rectangle.overlaps (Rectangle.new 0 0 4 5) (Rectangle.new 2 2 4 5))).
Proof.
  split.
  - apply (C6_intersects_open_and_overlaps_nonneg
             (Rectangle.new 0 0 4 1) (Rectangle.new 4 0 4 1)).
    left. reflexivity.
  - apply (C6_intersects_open_and_overlaps_nonneg
             (Rectangle.new 0 0 4 5) (Rectangle.new 2 2 4 5)).
    reflexivity.
Defined.

(** ** GameState *)

Lemma unlock_fields (b : bool) (id : string) (g : GameState.t) :
  GameState.score (GameState.unlock b id g) = GameState.score g
  /\ GameState.lives (GameState.unlock b id g) = GameState.lives g
  /\ GameState.currentLevel (GameState.unlock b id g) = GameState.currentLevel g
  /\ GameState.highScore (GameState.unlock b id g) = GameState.highScore g.
Proof. unfold GameState.unlock. destruct (_ && _); auto. Qed.

Lemma checkScoreAchievements_fields (g : GameState.t) :
  GameState.score (GameState.checkScoreAchievements g) = GameState.score g
  /\ GameState.lives (GameState.checkScoreAchievements g) = GameState.lives g
  /\ GameState.highScore (GameState.checkScoreAchievements g) = GameState.highScore g.
Proof.
  unfold GameState.checkScoreAchievements; cbv zeta.
  destruct (unlock_fields (JS.ge (GameState.score g) 10000) "score_10k" g)
    as (E1 & E2 & _ & E3).
  set (g1 := GameState.unlock _ "score_10k" g) in *.
  destruct (unlock_fields (JS.ge (GameState.score g1) 50000) "score_50k" g1)
    as (F1 & F2 & _ & F3).
  rewrite F1, F2, F3. auto.
Qed.

Lemma checkLevelAchievements_fields (g : GameState.t) :
  GameState.score (GameState.checkLevelAchievements g) = GameState.score g
  /\ GameState.lives (GameState.checkLevelAchievements g) = GameState.lives g
  /\ GameState.highScore (GameState.checkLevelAchievements g) = GameState.highScore g.
Proof.
  unfold GameState.checkLevelAchievements; cbv zeta.
  destruct (unlock_fields (5 <=? GameState.currentLevel g)%Z "level_5" g)
    as (E1 & E2 & _ & E3).
  set (g1 := GameState.unlock _ "level_5" g) in *.
  destruct (unlock_fields (10 <=? GameState.currentLevel g1)%Z "level_10" g1)
    as (F1 & F2 & _ & F3).
  rewrite F1, F2, F3. auto.
Qed.

Lemma addScore_score (points : Q) (g : GameState.t) :
  GameState.score (GameState.addScore points g) = GameState.score g + points.
Proof.
  unfold GameState.addScore; cbv zeta.
  rewrite (proj1 (checkScoreAchievements_fields _)).
  destruct (JS.gt _ _); reflexivity.
Qed.

Lemma addScore_lives (points : Q) (g : GameState.t) :
  GameState.lives (GameState.addScore points g) = GameState.lives g.
Proof.
  unfold GameState.addScore; cbv zeta.
  rewrite (proj1 (proj2 (checkScoreAchievements_fields _))).
  destruct (JS.gt _ _); reflexivity.
Qed.

Lemma addScore_highScore (points : Q) (g : GameState.t) :
  GameState.highScore (GameState.addScore points g) =
  if JS.gt (GameState.score g + points) (GameState.highScore g)
  then GameState.score g + points else GameState.highScore g.
Proof.
  unfold GameState.addScore; cbv zeta.
  rewrite (proj2 (proj2 (checkScoreAchievements_fields _))). cbn.
  destruct (JS.gt _ _); reflexivity.
Qed.

(** C7, as the claim states it, fails: [addScore] adds whatever it is
    given, and on a fresh state [addScore(-1)] takes the score from [0]
    down to [-1]. *)
Lemma C7_counterexample :
  GameState.score (GameState.new None) == 0
  /\ GameState.score (GameState.addScore (-1) (GameState.new None)) == -1
  /\ GameState.score (GameState.addScore (-1) (GameState.new None))
     < GameState.score (GameState.new None).
Proof. repeat split; reflexivity. Qed.

(** C7, amended.  A call [addScore(points)] with [points >= 0] never
    decreases the score; and for every call, with any [points], the new
    high score is the maximum of the old high score and the new score, so
    it never goes down. *)
Theorem C7_addScore_monotone (g : GameState.t) (points : Q) :
  (0 <= points ->
   GameState.score g <= GameState.score (GameState.addScore points g))
  /\ GameState.highScore (GameState.addScore points g)
     == JS.max (GameState.highScore g)
               (GameState.score (GameState.addScore points g))
  /\ GameState.highScore g <= GameState.highScore (GameState.addScore points g).
Proof.
  rewrite addScore_score, addScore_highScore.
  split; [intros; lra |].
  destruct (JS_max_cases (GameState.highScore g) (GameState.score g + points))
    as [[L E] | [L E]]; rewrite E;
    destruct (JS.gt _ _) eqn:C; js_props; split; lra.
Qed.

(** Adding [100] to a fresh state. *)
Lemma C7_witness :
  GameState.score (GameState.new None)
  <= GameState.score (GameState.addScore 100 (GameState.new None)).
Proof.
  apply (proj1 (C7_addScore_monotone (GameState.new None) 100)). discriminate.
Defined.

Lemma loseLife_bounds (g : GameState.t) :
  0 <= GameState.lives g <= 9 ->
  0 <= GameState.lives (GameState.loseLife g) <= 9.
Proof.
  intros [L U]. cbn.
  destruct (JS_max_cases 0 (GameState.lives g - 1)) as [[A E] | [A E]];
    rewrite E; split; lra.
Qed.

Lemma gainLife_bounds (g : GameState.t) :
  0 <= GameState.lives g <= 9 ->
  0 <= GameState.lives (GameState.gainLife g) <= 9.
Proof.
  intros [L U]. cbn.
  destruct (JS_min_cases 9 (GameState.lives g + 1)) as [[A E] | [A E]];
    rewrite E; split; lra.
Qed.

Lemma perform_lives_bounds (g : GameState.t) (c : GameState.call) :
  0 <= GameState.lives g <= 9 ->
  0 <= GameState.lives (GameState.perform g c) <= 9.
Proof.
  intros H. destruct c; cbn [GameState.perform].
  - now rewrite addScore_lives.
  - now apply loseLife_bounds.
  - now apply gainLife_bounds.
  - unfold GameState.nextLevel; cbv zeta.
    rewrite (proj1 (proj2 (checkLevelAchievements_fields _))), addScore_lives.
    exact H.
  - cbn. split; discriminate.
Qed.

Lemma run_lives_bounds (cs : list GameState.call) (g : GameState.t) :
  0 <= GameState.lives g <= 9 ->
  0 <= GameState.lives (GameState.run cs g) <= 9.
Proof.
  revert g. induction cs as [| c cs IH]; intros g H; cbn; [exact H |].
  apply IH, perform_lives_bounds, H.
Qed.

(** C9.  [loseLife] at [0] lives leaves [0], [gainLife] at [9] lives
    leaves [9], each of the two keeps a number of lives in [[0, 9]] in
    [[0, 9]], and after any sequence of calls on a newly constructed
    [GameState] the number of lives is in [[0, 9]]. *)
Theorem C9_lives_clamped :
  (forall g : GameState.t,
      (GameState.lives g == 0 -> GameState.lives (GameState.loseLife g) == 0)
      /\ (GameState.lives g == 9 -> GameState.lives (GameState.gainLife g) == 9)
      /\ (0 <= GameState.lives g <= 9 ->
          0 <= GameState.lives (GameState.loseLife g) <= 9
          /\ 0 <= GameState.lives (GameState.gainLife g) <= 9))
  /\ (forall (saved : option GameState.SaveData) (cs : list GameState.call),
         0 <= GameState.lives (GameState.run cs (GameState.new saved)) <= 9).
Proof.
  split.
  - intros g. split; [| split].
    + intros E. cbn.
      destruct (JS_max_cases 0 (GameState.lives g - 1)) as [[A F] | [A F]];
        rewrite F; lra.
    + intros E. cbn.
      destruct (JS_min_cases 9 (GameState.lives g + 1)) as [[A F] | [A F]];
        rewrite F; lra.
    + intros H. split; [apply loseLife_bounds | apply gainLife_bounds]; exact H.
  - intros saved cs. apply run_lives_bounds.
    destruct saved; cbn; split; discriminate.
Qed.

(** Losing a life at [0] and gaining one at [9]. *)
Lemma C9_witness :
  GameState.lives (GameState.loseLife (GameState.mk 0 0 1 0 ∅)) == 0
  /\ GameState.lives (GameState.gainLife (GameState.mk 0 9 1 0 ∅)) == 9
  /\ 0 <= GameState.lives (GameState.loseLife (GameState.mk 0 9 1 0 ∅)) <= 9.
Proof.
  split; [| split].
  - apply (proj1 C9_lives_clamped (GameState.mk 0 0 1 0 ∅)). reflexivity.
  - apply (proj1 C9_lives_clamped (GameState.mk 0 9 1 0 ∅)). reflexivity.
  - apply (proj1 C9_lives_clamped (GameState.mk 0 9 1 0 ∅)).
    split; discriminate.
Defined.

(** ** Player: damage *)

Lemma isInvulnerable_true (p : Player.t) :
  Player.isInvulnerable p = true <->
  0 < Player.invulnerabilityTimer p
  \/ TimerMap.get PowerUpType.invincible (Player.powerUpTimers p) <> None.
Proof.
  unfold Player.isInvulnerable, TimerMap.has.
  rewrite orb_true_iff, JS_gt_true.
  destruct (TimerMap.get _ _); split; intros [H | H]; auto; congruence.
Qed.

(** C8.  A player counts as invulnerable exactly when its invulnerability
    timer is positive or the timer map holds an entry for [invincible].
    [takeDamage] returns an invulnerable player unchanged; on any other
    player it sets the invulnerability timer to [2], the horizontal
    velocity to [-200] when facing right and [200] when facing left, the
    vertical velocity to [-150], and leaves every other field alone. *)
Theorem C8_takeDamage (p : Player.t) :
  (Player.isInvulnerable p = true <->
     0 < Player.invulnerabilityTimer p
     \/ TimerMap.get PowerUpType.invincible (Player.powerUpTimers p) <> None)
  /\ (Player.isInvulnerable p = true -> Player.takeDamage p = p)
  /\ (Player.isInvulnerable p = false ->
      Player.invulnerabilityTimer (Player.takeDamage p) = 2
      /\ Player.vx (Player.takeDamage p)
         = (if Player.facingRight p then -200 else 200)
      /\ Player.vy (Player.takeDamage p) = -150
      /\ Player.takeDamage p
         = Player.set_velocity
             (Vector2.new (if Player.facingRight p then -200 else 200) (-150))
             (Player.set_invulnerabilityTimer 2 p)).
Proof.
  split; [apply isInvulnerable_true |].
  unfold Player.takeDamage. split; intros ->; cbn [negb]; [reflexivity |].
  destruct p; cbn. auto.
Qed.

(** A fresh player facing right is hit; a player with one second of
    invulnerability left is not. *)
Lemma C8_witness :
  Player.takeDamage (Player.set_invulnerabilityTimer 1 (Player.new 100 400))
  = Player.set_invulnerabilityTimer 1 (Player.new 100 400)
  /\ Player.invulnerabilityTimer (Player.takeDamage (Player.new 100 400)) = 2
  /\ Player.vx (Player.takeDamage (Player.new 100 400)) = -200.
Proof.
  split.
  - apply (proj1 (proj2 (C8_takeDamage
             (Player.set_invulnerabilityTimer 1 (Player.new 100 400))))).
    reflexivity.
  - destruct (proj2 (proj2 (C8_takeDamage (Player.new 100 400))) eq_refl)
      as (H1 & H2 & _).
    split; [exact H1 | exact H2].
Defined.

(** Unfold the edges of the rectangles of players, enemies and platforms
    down to their coordinates. *)
Ltac rect_unfold :=
  unfold Rectangle.centerX, Rectangle.centerY, Rectangle.right, Rectangle.left,
    Rectangle.bottom, Rectangle.top, Player.getBounds, Enemy.getBounds,
    Platform.getBounds, Player.vx, Player.vy in *;
  cbn in *.

(** ** Player: collision with one platform *)

(** C1.  A player whose bounds intersect the single platform of the level
    is corrected on exactly one axis.  When the horizontal overlap is the
    smaller one, [x] moves (to the platform's left edge minus the player's
    width, or to its right edge), [velocity.x] becomes [0] and [y] stays;
    otherwise [y] moves and [x] stays: with the player's centre above the
    platform's centre the player is put on top, [velocity.y] becomes [0]
    and it is grounded, else it is put under the platform, [velocity.y]
    becomes [0] and it is not grounded.  In every case the player's
    rectangle no longer intersects the platform's. *)
Theorem C1_single_platform_resolution
    (p : Player.t) (level : Level.t) (platform : Platform.t) :
  Level.platforms level = [platform] ->
  Rectangle.intersects (Player.getBounds p) (Platform.getBounds platform) = true ->
  let pb := Player.getBounds p in
  let qb := Platform.getBounds platform in
  let p' := Player.checkPlatformCollisions level p in
  (fst (Rectangle.overlaps pb qb) < snd (Rectangle.overlaps pb qb) ->
     ~ Player.x p' == Player.x p
     /\ Player.y p' = Player.y p /\ Player.vy p' = Player.vy p
     /\ Player.vx p' = 0
     /\ Player.x p' = (if JS.lt (Rectangle.centerX pb) (Rectangle.centerX qb)
                       then Rectangle.left qb - Player.width p
                       else Rectangle.right qb))
  /\ (snd (Rectangle.overlaps pb qb) <= fst (Rectangle.overlaps pb qb) ->
      ~ Player.y p' == Player.y p
      /\ Player.x p' = Player.x p /\ Player.vx p' = Player.vx p
      /\ Player.vy p' = 0
      /\ (Rectangle.centerY pb < Rectangle.centerY qb ->
          Player.y p' = Rectangle.top qb - Player.height p
          /\ Player.isGrounded p' = true)
      /\ (Rectangle.centerY qb <= Rectangle.centerY pb ->
          Player.y p' = Rectangle.bottom qb
          /\ Player.isGrounded p' = false))
  /\ Rectangle.intersects (Player.getBounds p') qb = false.
Proof.
  intros Hl Hi pb qb p'. subst p'.
  unfold Player.checkPlatformCollisions. rewrite Hl. cbn [fold_left].
  unfold Player.collideWith; cbv zeta. rewrite Hi. fold pb qb.
  change (JS.min (Rectangle.right pb - Rectangle.left qb)
                 (Rectangle.right qb - Rectangle.left pb))
    with (fst (Rectangle.overlaps pb qb)).
  change (JS.min (Rectangle.bottom pb - Rectangle.top qb)
                 (Rectangle.bottom qb - Rectangle.top pb))
    with (snd (Rectangle.overlaps pb qb)).
  apply intersects_true in Hi. destruct Hi as (I1 & I2 & I3 & I4).
  set (ox := fst (Rectangle.overlaps pb qb)).
  set (oy := snd (Rectangle.overlaps pb qb)).
  destruct (JS.lt ox oy) eqn:Ax; js_props.
  - split; [intros _ | split; [intros C; lra |]].
    + destruct (JS.lt (Rectangle.centerX pb) (Rectangle.centerX qb)) eqn:Cx;
        js_props; subst pb qb; rect_unfold;
        repeat split; intros; try reflexivity; lra.
    + apply intersects_false.
      destruct (JS.lt (Rectangle.centerX pb) (Rectangle.centerX qb));
        subst pb qb; rect_unfold; lra.
  - split; [intros C; lra | split; [intros _ |]].
    + destruct (JS.lt (Rectangle.centerY pb) (Rectangle.centerY qb)) eqn:Cy;
        js_props; subst pb qb; rect_unfold;
        repeat split; intros; try reflexivity; lra.
    + apply intersects_false.
      destruct (JS.lt (Rectangle.centerY pb) (Rectangle.centerY qb));
        subst pb qb; rect_unfold; lra.
Qed.

(** A player sunk six units into the first ground tile is put back on top
    of it. *)
Lemma C1_witness :
  let level := Level.mk 2048 576 [Platform.new 0 512 128 64 ground] [] [] [] 1 in
  Rectangle.intersects
    (Player.getBounds (Player.checkPlatformCollisions level (Player.new 40 470)))
    (Platform.getBounds (Platform.new 0 512 128 64 ground)) = false.
Proof.
  exact (proj2 (proj2
           (C1_single_platform_resolution (Player.new 40 470)
              (Level.mk 2048 576 [Platform.new 0 512 128 64 ground] [] [] [] 1)
              (Platform.new 0 512 128 64 ground) eq_refl eq_refl))).
Defined.

(** ** Player: what one update leaves alone *)

Lemma fold_left_invariant {A B : Type} (f : A -> B -> A) (P : A -> Prop) :
  (forall a b, P a -> P (f a b)) ->
  forall (l : list B) (a : A), P a -> P (fold_left f l a).
Proof.
  intros Hf l. induction l as [| b l IH]; intros a Ha; cbn; auto.
Qed.

(** Split every conditional of the goal. *)
Ltac split_ifs :=
  repeat match goal with
    | |- context [if ?c then _ else _] => destruct c
    end.

Lemma handleInput_powerState input dt p :
  powerState (Player.handleInput input dt p) = powerState p.
Proof. unfold Player.handleInput; cbv zeta. split_ifs; reflexivity. Qed.

Lemma handleInput_x input dt p :
  Player.x (Player.handleInput input dt p) = Player.x p.
Proof. unfold Player.handleInput; cbv zeta. split_ifs; reflexivity. Qed.

Lemma collideWith_powerState pb p platform :
  powerState (Player.collideWith pb p platform) = powerState p.
Proof. unfold Player.collideWith; cbv zeta. split_ifs; reflexivity. Qed.

Lemma checkPlatformCollisions_powerState level p :
  powerState (Player.checkPlatformCollisions level p) = powerState p.
Proof.
  unfold Player.checkPlatformCollisions; cbv zeta.
  apply (fold_left_invariant _ (fun q => powerState q = powerState p));
    [| reflexivity].
  intros q platform <-. apply collideWith_powerState.
Qed.

Lemma updatePhysics_powerState dt level p :
  powerState (Player.updatePhysics dt level p) = powerState p.
Proof.
  unfold Player.updatePhysics; cbv zeta.
  match goal with
  | |- context [Player.checkPlatformCollisions level ?q] =>
      assert (E := checkPlatformCollisions_powerState level q);
      set (p4 := Player.checkPlatformCollisions level q) in *
  end.
  destruct (JS.gt _ _); cbn; exact E.
Qed.

Lemma updateAnimation_powerState dt p :
  powerState (Player.updateAnimation dt p) = powerState p.
Proof. unfold Player.updateAnimation; cbv zeta. split_ifs; reflexivity. Qed.

Lemma updateAnimation_x dt p :
  Player.x (Player.updateAnimation dt p) = Player.x p.
Proof. unfold Player.updateAnimation; cbv zeta. split_ifs; reflexivity. Qed.

Lemma updateInvulnerability_powerState dt p :
  powerState (Player.updateInvulnerability dt p) = powerState p.
Proof. unfold Player.updateInvulnerability. split_ifs; reflexivity. Qed.

Lemma updateInvulnerability_x dt p :
  Player.x (Player.updateInvulnerability dt p) = Player.x p.
Proof. unfold Player.updateInvulnerability. split_ifs; reflexivity. Qed.

Lemma tickPowerUp_x dt p entry :
  Player.x (Player.tickPowerUp dt p entry) = Player.x p.
Proof.
  destruct entry as [k timer]. unfold Player.tickPowerUp.
  destruct (JS.le _ _); [destruct k |]; reflexivity.
Qed.

Lemma updatePowerUps_x dt p :
  Player.x (Player.updatePowerUps dt p) = Player.x p.
Proof.
  unfold Player.updatePowerUps.
  apply (fold_left_invariant _ (fun q => Player.x q = Player.x p));
    [| reflexivity].
  intros q entry <-. apply tickPowerUp_x.
Qed.

Lemma powerState_width p q : powerState p = powerState q ->
  Player.width p = Player.width q.
Proof. unfold powerState. congruence. Qed.

(** ** Player: the horizontal clamp *)

Lemma updatePhysics_x_bounds dt level p :
  Player.width p + 100 <= Level.width level ->
  0 <= Player.x (Player.updatePhysics dt level p)
  /\ Player.x (Player.updatePhysics dt level p)
     <= Level.width level - Player.width p.
Proof.
  intros Hw. unfold Player.updatePhysics; cbv zeta.
  match goal with
  | |- context [Player.checkPlatformCollisions level ?q] =>
      assert (E := powerState_width _ _
                     (checkPlatformCollisions_powerState level q));
      set (p4 := Player.checkPlatformCollisions level q) in *
  end.
  cbn in E. destruct (JS.gt _ _); cbn; [split; lra |]. rewrite E.
  destruct (JS_min_cases (Level.width level - Player.width p) (Player.x p4))
    as [[A1 E1] | [A1 E1]];
    destruct (JS_max_cases 0
                (JS.min (Level.width level - Player.width p) (Player.x p4)))
      as [[A2 E2] | [A2 E2]];
    rewrite E2; split; lra.
Qed.

Lemma tickPowerUp_width dt p k timer :
  (k = PowerUpType.size -> dt < timer) ->
  Player.width (Player.tickPowerUp dt p (k, timer)) = Player.width p.
Proof.
  intros H. unfold Player.tickPowerUp.
  destruct (JS.le _ _) eqn:C; [| reflexivity].
  destruct k; try reflexivity.
  js_props. destruct (sub_pos timer dt (H eq_refl)). lra.
Qed.

Lemma fold_tickPowerUp_width dt (entries : TimerMap.t) :
  (forall timer, In (PowerUpType.size, timer) entries -> dt < timer) ->
  forall p,
    Player.width (fold_left (Player.tickPowerUp dt) entries p) = Player.width p.
Proof.
  induction entries as [| [k timer] entries IH]; intros H p; cbn [fold_left];
    [reflexivity |].
  rewrite IH by (intros; apply H; now right).
  apply tickPowerUp_width. intros ->. apply H. now left.
Qed.


(** What the clamp does achieve.  For a level at least [100] wider than
    the player (every generated level is [2048] wide, a player [24] or
    [32]), after [Player.update] the player's [x] lies in
    [[0, level.width - w]], where [w] is the player's width before the
    update, the width the clamp of [updatePhysics] uses; and when no size
    power-up expires during the update, [x] lies in
    [[0, level.width - player.width]] for the width after the update as
    well. *)
Theorem update_keeps_x_in_bounds_of_entry_width
    (dt : Q) (input : InputManager.t) (level : Level.t) (p : Player.t) :
  Player.width p + 100 <= Level.width level ->
  let p' := Player.update dt input level p in
  (0 <= Player.x p' <= Level.width level - Player.width p)
  /\ ((forall timer,
          In (PowerUpType.size, timer) (Player.powerUpTimers p) -> dt < timer) ->
      0 <= Player.x p' <= Level.width level - Player.width p').
Proof.
  intros Hw p'. subst p'. unfold Player.update; cbv zeta.
  set (p1 := Player.handleInput input dt p).
  set (p2 := Player.updatePhysics dt level p1).
  assert (S1 : powerState p1 = powerState p)
    by apply handleInput_powerState.
  assert (S2 : powerState p2 = powerState p)
    by (unfold p2; now rewrite updatePhysics_powerState).
  assert (B : 0 <= Player.x p2 <= Level.width level - Player.width p).
  { rewrite <- (powerState_width _ _ S1).
    apply updatePhysics_x_bounds. rewrite (powerState_width _ _ S1). exact Hw. }
  rewrite updateInvulnerability_x, updateAnimation_x, updatePowerUps_x.
  split; [exact B | intros Ht].
  rewrite (powerState_width _ _ (updateInvulnerability_powerState _ _)).
  rewrite (powerState_width _ _ (updateAnimation_powerState _ _)).
  unfold Player.updatePowerUps. rewrite fold_tickPowerUp_width.
  - rewrite (powerState_width _ _ S2). exact B.
  - intros timer Hin. apply Ht.
    assert (E : Player.powerUpTimers p2 = Player.powerUpTimers p)
      by (unfold powerState in S2; congruence).
    now rewrite <- E.
Qed.

(** A fresh player at [x = 2000] moving in a generated level. *)
Lemma update_keeps_x_in_bounds_witness :
  0 <= Player.x (Player.update (1 # 64) no_keys ground_level (Player.new 2000 400))
    <= Level.width ground_level
       - Player.width
           (Player.update (1 # 64) no_keys ground_level (Player.new 2000 400)).
Proof.
  apply (proj2 (update_keeps_x_in_bounds_of_entry_width (1 # 64) no_keys ground_level
                  (Player.new 2000 400) ltac:(vm_compute; discriminate))).
  intros timer [].
Defined.

(** ** The power-up timer map *)

Lemma TimerMap_get_set_eq k v m : TimerMap.get k (TimerMap.set k v m) = Some v.
Proof.
  induction m as [| [k' v'] m IH]; cbn.
  - now rewrite decide_True.
  - destruct (decide (k = k')) as [-> | N]; cbn.
    + now rewrite decide_True.
    + now rewrite decide_False.
Qed.

Lemma TimerMap_get_set_ne k k' v m :
  k <> k' -> TimerMap.get k (TimerMap.set k' v m) = TimerMap.get k m.
Proof.
  intros N. induction m as [| [k2 v2] m IH]; cbn.
  - now rewrite decide_False.
  - destruct (decide (k' = k2)) as [-> | N2]; cbn.
    + now rewrite !decide_False.
    + destruct (decide (k = k2)); auto.
Qed.

Lemma TimerMap_get_delete_eq k m : TimerMap.get k (TimerMap.delete k m) = None.
Proof.
  induction m as [| [k' v'] m IH]; cbn; [reflexivity |].
  destruct (decide (k = k')); cbn; [exact IH | now rewrite decide_False].
Qed.

Lemma TimerMap_get_delete_ne k k' m :
  k <> k' -> TimerMap.get k (TimerMap.delete k' m) = TimerMap.get k m.
Proof.
  intros N. induction m as [| [k2 v2] m IH]; cbn; [reflexivity |].
  destruct (decide (k' = k2)) as [-> | N2]; cbn.
  - now rewrite decide_False.
  - destruct (decide (k = k2)); auto.
Qed.

Lemma TimerMap_get_None k m : TimerMap.get k m = None <-> ~ In k (map fst m).
Proof.
  induction m as [| [k' v'] m IH]; cbn; [tauto |].
  destruct (decide (k = k')) as [-> | N]; [split; [discriminate | tauto] |].
  rewrite IH. split; [intros H [E | I]; congruence | tauto].
Qed.

Lemma TimerMap_keys_set k v m :
  forall k', In k' (map fst (TimerMap.set k v m)) -> k' = k \/ In k' (map fst m).
Proof.
  induction m as [| [k2 v2] m IH]; cbn; [intuition |].
  intros k'. destruct (decide (k = k2)); cbn; [tauto |].
  intros [E | I]; [tauto |]. destruct (IH _ I); tauto.
Qed.

Lemma TimerMap_wf_set k v m : TimerMap.wf m -> TimerMap.wf (TimerMap.set k v m).
Proof.
  unfold TimerMap.wf. induction m as [| [k2 v2] m IH]; cbn.
  - intros _. apply List.NoDup_cons; [intros [] | apply List.NoDup_nil].
  - intros H. apply List.NoDup_cons_iff in H. destruct H as [Hn Hd].
    destruct (decide (k = k2)); cbn; [now apply List.NoDup_cons |].
    apply List.NoDup_cons; [| auto].
    intros I. destruct (TimerMap_keys_set _ _ _ _ I); [congruence | tauto].
Qed.

Lemma TimerMap_keys_delete k m :
  forall k', In k' (map fst (TimerMap.delete k m)) -> In k' (map fst m).
Proof.
  induction m as [| [k2 v2] m IH]; cbn; [tauto |].
  intros k'. destruct (decide (k = k2)); cbn; [auto |].
  intros [E | I]; auto.
Qed.

Lemma TimerMap_wf_delete k m :
  TimerMap.wf m -> TimerMap.wf (TimerMap.delete k m).
Proof.
  unfold TimerMap.wf. induction m as [| [k2 v2] m IH]; cbn; [auto |].
  intros H. apply List.NoDup_cons_iff in H. destruct H as [Hn Hd].
  destruct (decide (k = k2)); cbn; [auto |].
  apply List.NoDup_cons; [| auto].
  intros I. apply Hn. eapply TimerMap_keys_delete, I.
Qed.

(** ** Player: the life of a power-up *)

Lemma powerState_timers p q :
  powerState p = powerState q -> Player.powerUpTimers p = Player.powerUpTimers q.
Proof. unfold powerState. congruence. Qed.

Lemma powerState_affectedStat k p q :
  powerState p = powerState q -> affectedStat k p = affectedStat k q.
Proof. unfold powerState. intros H. destruct k; cbn; congruence. Qed.

Lemma powerState_baseStat k p q :
  powerState p = powerState q -> baseStat k p = baseStat k q.
Proof. unfold powerState. intros H. destruct k; cbn; congruence. Qed.

(** One callback of the [forEach], seen from the kind [K]. *)
Lemma tickPowerUp_get K dt p k timer :
  TimerMap.get K (Player.powerUpTimers (Player.tickPowerUp dt p (k, timer)))
  = if decide (K = k)
    then (if JS.le (JS.sub timer dt) 0 then None else Some (JS.sub timer dt))
    else TimerMap.get K (Player.powerUpTimers p).
Proof.
  unfold Player.tickPowerUp.
  destruct (decide (K = k)) as [-> | N]; destruct (JS.le (JS.sub timer dt) 0).
  - destruct k; cbn; apply TimerMap_get_delete_eq.
  - cbn. apply TimerMap_get_set_eq.
  - destruct k; cbn; now apply TimerMap_get_delete_ne.
  - cbn. now apply TimerMap_get_set_ne.
Qed.

Lemma tickPowerUp_affectedStat K dt p k timer :
  affectedStat K (Player.tickPowerUp dt p (k, timer))
  = if decide (K = k)
    then (if JS.le (JS.sub timer dt) 0 then baseStat K p else affectedStat K p)
    else affectedStat K p.
Proof.
  unfold Player.tickPowerUp.
  destruct (decide (K = k)) as [E | N]; destruct (JS.le (JS.sub timer dt) 0);
    destruct K, k; try reflexivity; congruence.
Qed.

Lemma tickPowerUp_base dt p entry :
  Player.basePowerValues (Player.tickPowerUp dt p entry)
  = Player.basePowerValues p.
Proof.
  destruct entry as [k timer]. unfold Player.tickPowerUp.
  destruct (JS.le _ _); [destruct k |]; reflexivity.
Qed.

Lemma tickPowerUp_wf dt p entry :
  TimerMap.wf (Player.powerUpTimers p) ->
  TimerMap.wf (Player.powerUpTimers (Player.tickPowerUp dt p entry)).
Proof.
  destruct entry as [k timer]. unfold Player.tickPowerUp. intros H.
  destruct (JS.le _ _).
  - destruct k; cbn; now apply TimerMap_wf_delete.
  - cbn. now apply TimerMap_wf_set.
Qed.

Lemma baseStat_base K p q :
  Player.basePowerValues p = Player.basePowerValues q -> baseStat K p = baseStat K q.
Proof. intros H. destruct K; cbn; congruence. Qed.

(** The whole [forEach], over the entries [es] still to visit. *)
Lemma fold_tickPowerUp K dt (es : TimerMap.t) :
  TimerMap.wf es ->
  forall p,
    let p' := fold_left (Player.tickPowerUp dt) es p in
    match TimerMap.get K es with
    | Some timer =>
        if JS.le (JS.sub timer dt) 0
        then TimerMap.get K (Player.powerUpTimers p') = None
             /\ affectedStat K p' = baseStat K p
        else TimerMap.get K (Player.powerUpTimers p') = Some (JS.sub timer dt)
             /\ affectedStat K p' = affectedStat K p
    | None =>
        TimerMap.get K (Player.powerUpTimers p')
        = TimerMap.get K (Player.powerUpTimers p)
        /\ affectedStat K p' = affectedStat K p
    end.
Proof.
  induction es as [| [k timer] es IH]; intros Hwf p; cbn [fold_left TimerMap.get].
  - cbn. auto.
  - apply List.NoDup_cons_iff in Hwf. cbn [map fst] in Hwf.
    destruct Hwf as [Hn Hd].
    specialize (IH Hd (Player.tickPowerUp dt p (k, timer))). cbv zeta in IH.
    set (p' := fold_left _ es _) in *.
    destruct (decide (K = k)) as [-> | N].
    + apply TimerMap_get_None in Hn. rewrite Hn in IH.
      rewrite tickPowerUp_get, tickPowerUp_affectedStat in IH.
      destruct IH as [-> ->].
      destruct (decide (k = k)); [| congruence].
      destruct (JS.le (JS.sub timer dt) 0); auto.
    + rewrite tickPowerUp_get, tickPowerUp_affectedStat in IH.
      destruct (decide (K = k)); [congruence |].
      destruct (TimerMap.get K es) as [t |]; [| exact IH].
      destruct (JS.le (JS.sub t dt) 0); [| exact IH].
      destruct IH as [-> ->]. split; [reflexivity |].
      apply baseStat_base, tickPowerUp_base.
Qed.

Lemma updatePowerUps_base dt p :
  Player.basePowerValues (Player.updatePowerUps dt p) = Player.basePowerValues p.
Proof.
  unfold Player.updatePowerUps.
  apply (fold_left_invariant _
           (fun q => Player.basePowerValues q = Player.basePowerValues p));
    [| reflexivity].
  intros q entry <-. apply tickPowerUp_base.
Qed.

Lemma updatePowerUps_wf dt p :
  TimerMap.wf (Player.powerUpTimers p) ->
  TimerMap.wf (Player.powerUpTimers (Player.updatePowerUps dt p)).
Proof.
  unfold Player.updatePowerUps.
  apply (fold_left_invariant _ (fun q => TimerMap.wf (Player.powerUpTimers q))).
  intros q entry. apply tickPowerUp_wf.
Qed.

Lemma update_powerState_before dt input level p :
  powerState (Player.updatePhysics dt level (Player.handleInput input dt p))
  = powerState p.
Proof. now rewrite updatePhysics_powerState, handleInput_powerState. Qed.

Lemma update_powerState_after dt p3 :
  powerState (Player.updateInvulnerability dt (Player.updateAnimation dt p3))
  = powerState p3.
Proof. now rewrite updateInvulnerability_powerState, updateAnimation_powerState. Qed.

(** One [update], seen from the kind [K]: its timer goes down by [dt]; when
    that reaches [0] or less the entry goes and the stat is the base value
    again. *)
Lemma update_powerUp K dt input level p :
  TimerMap.wf (Player.powerUpTimers p) ->
  let p' := Player.update dt input level p in
  TimerMap.wf (Player.powerUpTimers p')
  /\ baseStat K p' = baseStat K p
  /\ match TimerMap.get K (Player.powerUpTimers p) with
     | Some timer =>
         if JS.le (JS.sub timer dt) 0
         then TimerMap.get K (Player.powerUpTimers p') = None
              /\ affectedStat K p' = baseStat K p
         else TimerMap.get K (Player.powerUpTimers p') = Some (JS.sub timer dt)
              /\ affectedStat K p' = affectedStat K p
     | None =>
         TimerMap.get K (Player.powerUpTimers p') = None
         /\ affectedStat K p' = affectedStat K p
     end.
Proof.
  intros Hwf p'. subst p'. unfold Player.update; cbv zeta.
  set (p2 := Player.updatePhysics dt level (Player.handleInput input dt p)).
  assert (S2 : powerState p2 = powerState p)
    by apply update_powerState_before.
  set (p3 := Player.updatePowerUps dt p2).
  assert (S3 := update_powerState_after dt p3).
  rewrite (powerState_timers _ _ S3), (powerState_affectedStat K _ _ S3),
    (powerState_baseStat K _ _ S3).
  rewrite <- (powerState_timers _ _ S2), <- (powerState_affectedStat K _ _ S2),
    <- (powerState_baseStat K _ _ S2) in *.
  split; [now apply updatePowerUps_wf |].
  split; [apply baseStat_base, updatePowerUps_base |].
  assert (F := fold_tickPowerUp K dt (Player.powerUpTimers p2) Hwf p2).
  cbv zeta in F. fold (Player.updatePowerUps dt p2) in F. fold p3 in F.
  destruct (TimerMap.get K (Player.powerUpTimers p2)) as [timer |] eqn:G;
    [exact F |].
  destruct F as [-> ->]. auto.
Qed.

Lemma applyPowerUp_get k p :
  TimerMap.get k (Player.powerUpTimers (Player.applyPowerUp k p)) = Some 10.
Proof. destruct k; cbn; apply TimerMap_get_set_eq. Qed.

Lemma applyPowerUp_wf k p :
  TimerMap.wf (Player.powerUpTimers p) ->
  TimerMap.wf (Player.powerUpTimers (Player.applyPowerUp k p)).
Proof. intros H. destruct k; cbn; now apply TimerMap_wf_set. Qed.

Lemma applyPowerUp_base k p :
  Player.basePowerValues (Player.applyPowerUp k p) = Player.basePowerValues p.
Proof. destruct k; reflexivity. Qed.

Lemma applyPowerUp_other K k p :
  K <> k ->
  TimerMap.get K (Player.powerUpTimers (Player.applyPowerUp k p))
  = TimerMap.get K (Player.powerUpTimers p)
  /\ affectedStat K (Player.applyPowerUp k p) = affectedStat K p.
Proof.
  intros N. split.
  - destruct k; cbn; now apply TimerMap_get_set_ne.
  - destruct K, k; try reflexivity; congruence.
Qed.

Lemma takeDamage_powerState p : powerState (Player.takeDamage p) = powerState p.
Proof. unfold Player.takeDamage. split_ifs; reflexivity. Qed.

(** An action other than applying [K] again, seen from the kind [K]. *)
Lemma act_powerUp K a p :
  a <> ApplyPowerUp K ->
  TimerMap.wf (Player.powerUpTimers p) ->
  TimerMap.wf (Player.powerUpTimers (act p a))
  /\ baseStat K (act p a) = baseStat K p
  /\ match a, TimerMap.get K (Player.powerUpTimers p) with
     | Update dt _ _, Some timer =>
         if JS.le (JS.sub timer dt) 0
         then TimerMap.get K (Player.powerUpTimers (act p a)) = None
              /\ affectedStat K (act p a) = baseStat K p
         else TimerMap.get K (Player.powerUpTimers (act p a)) = Some (JS.sub timer dt)
              /\ affectedStat K (act p a) = affectedStat K p
     | _, _ =>
         TimerMap.get K (Player.powerUpTimers (act p a))
         = TimerMap.get K (Player.powerUpTimers p)
         /\ affectedStat K (act p a) = affectedStat K p
     end.
Proof.
  intros Na Hwf. destruct a as [dt input level | k | | |]; cbn [act].
  - destruct (update_powerUp K dt input level p Hwf) as (W & B & F).
    split; [exact W |]. split; [exact B |].
    destruct (TimerMap.get K (Player.powerUpTimers p)); [exact F |].
    destruct F as [-> ->]. auto.
  - assert (N : K <> k) by congruence.
    split; [now apply applyPowerUp_wf |].
    split; [apply baseStat_base, applyPowerUp_base |].
    destruct (applyPowerUp_other K k p N) as [-> ->].
    destruct (TimerMap.get K (Player.powerUpTimers p)); auto.
  - assert (S := takeDamage_powerState p).
    rewrite (powerState_timers _ _ S), (powerState_affectedStat K _ _ S),
      (powerState_baseStat K _ _ S).
    destruct (TimerMap.get K (Player.powerUpTimers p)); auto.
  - cbn. destruct (TimerMap.get K (Player.powerUpTimers p)), K; auto.
  - cbn. destruct (TimerMap.get K (Player.powerUpTimers p)), K; auto.
Qed.

(** Once the entry of [K] is gone and its stat is the base value, both stay
    so until [K] is applied again. *)
Lemma expired_stays K (acts : list action) :
  ~ In (ApplyPowerUp K) acts ->
  forall p,
    TimerMap.wf (Player.powerUpTimers p) ->
    TimerMap.get K (Player.powerUpTimers p) = None ->
    affectedStat K p = baseStat K p ->
    TimerMap.get K (Player.powerUpTimers (simulate acts p)) = None
    /\ affectedStat K (simulate acts p) = baseStat K p.
Proof.
  unfold simulate.
  induction acts as [| a acts IH]; intros Hn p Hwf Hg Hs; cbn [fold_left];
    [auto |].
  assert (Na : a <> ApplyPowerUp K) by (intros ->; apply Hn; now left).
  destruct (act_powerUp K a p Na Hwf) as (W & B & F).
  rewrite Hg in F.
  assert (F' : TimerMap.get K (Player.powerUpTimers (act p a)) = None
               /\ affectedStat K (act p a) = affectedStat K p)
    by (destruct a; exact F).
  destruct F' as [G S]. rewrite <- B.
  apply IH; auto.
  - intros I. apply Hn. now right.
  - congruence.
Qed.

(** A running timer of [K] runs out once the simulated time exceeds it by
    the rounding the subtractions can add: each of the at most
    [length acts] updates rounds its difference up by at most half of
    [Number.EPSILON], relatively. *)
Lemma timer_runs_out K (acts : list action) :
  ~ In (ApplyPowerUp K) acts ->
  List.Forall forward acts ->
  JS.num (length acts) * JS.EPSILON <= 1 ->
  forall p timer,
    TimerMap.wf (Player.powerUpTimers p) ->
    TimerMap.get K (Player.powerUpTimers p) = Some timer ->
    0 < timer ->
    timer * (1 + JS.num (length acts) * JS.EPSILON) <= elapsed acts ->
    TimerMap.get K (Player.powerUpTimers (simulate acts p)) = None
    /\ affectedStat K (simulate acts p) = baseStat K p.
Proof.
  induction acts as [| a acts IH]; intros Hn Hf Hlen p timer Hwf Hg Hpos He.
  - cbn in He. change (JS.num 0) with 0 in He. nra.
  - assert (Na : a <> ApplyPowerUp K) by (intros ->; apply Hn; now left).
    assert (Hn' : ~ In (ApplyPowerUp K) acts)
      by (intros I; apply Hn; now right).
    apply List.Forall_cons_iff in Hf. destruct Hf as [Ha Hf].
    cbn [length] in Hlen, He. rewrite num_S in Hlen, He.
    assert (Hm := num_nonneg (length acts)).
    assert (He0 : 0 < JS.EPSILON) by reflexivity.
    set (M := JS.num (length acts)) in *. set (e := JS.EPSILON) in *.
    assert (Hlen' : M * e <= 1) by nra.
    destruct (act_powerUp K a p Na Hwf) as (W & B & F).
    rewrite Hg in F. change (simulate (a :: acts) p) with (simulate acts (act p a)).
    rewrite <- B.
    assert (Hstay : timer * (1 + M * e) <= timer * (1 + (M + 1) * e)) by nra.
    destruct a as [dt input level | k | | |]; cbn [elapsed] in He.
    + cbn in Ha.
      destruct (JS.le (JS.sub timer dt) 0) eqn:C; js_props; destruct F as [G S].
      * apply expired_stays; auto; congruence.
      * destruct (Qlt_le_dec dt timer) as [Hx | Hx];
          [| assert (N := sub_nonpos timer dt Hx); lra].
        destruct (sub_pos timer dt Hx) as (_ & _ & U). fold e in U.
        apply (IH Hn' Hf Hlen' _ (JS.sub timer dt)); auto.
        set (t' := JS.sub timer dt) in *. clearbody t' M e.
        assert (P1 : 0 <= M * e) by (apply Qmult_le_0_compat; lra).
        assert (U1 : t' * (1 + M * e)
                     <= (1 + e * (1 # 2)) * (timer - dt) * (1 + M * e))
          by (apply Qmult_le_compat_r; lra).
        assert (U2 : (1 + e * (1 # 2)) * (1 + M * e) <= 1 + (M + 1) * e) by nra.
        assert (U3 : (1 + e * (1 # 2)) * (1 + M * e) * (timer - dt)
                     <= (1 + (M + 1) * e) * (timer - dt))
          by (apply Qmult_le_compat_r; lra).
        assert (U4 : 0 <= (M + 1) * e * dt)
          by (apply Qmult_le_0_compat; [apply Qmult_le_0_compat |]; lra).
        lra.
    + destruct F as [G S].
      apply (IH Hn' Hf Hlen' _ timer); auto; first [congruence | clearbody M e; lra].
    + destruct F as [G S].
      apply (IH Hn' Hf Hlen' _ timer); auto; first [congruence | clearbody M e; lra].
    + destruct F as [G S].
      apply (IH Hn' Hf Hlen' _ timer); auto; first [congruence | clearbody M e; lra].
    + destruct F as [G S].
      apply (IH Hn' Hf Hlen' _ timer); auto; first [congruence | clearbody M e; lra].
Qed.

Lemma elapsed_repeat (dt : Q) (input : InputManager.t) (level : Level.t) (n : nat) :
  elapsed (repeat (Update dt input level) n) == JS.num n * dt.
Proof.
  induction n as [| n IH]; cbn [repeat elapsed].
  - change (JS.num 0) with 0. ring.
  - rewrite IH, num_S. ring.
Qed.

(** The timer of [K] through [n] equal updates is the [countdown]. *)
Lemma timer_of_updates K (dt : Q) (input : InputManager.t) (level : Level.t)
    (n : nat) :
  forall p,
    TimerMap.wf (Player.powerUpTimers p) ->
    TimerMap.get K
      (Player.powerUpTimers (simulate (repeat (Update dt input level) n) p))
    = countdown dt n (TimerMap.get K (Player.powerUpTimers p)).
Proof.
  unfold countdown.
  induction n as [| n IH]; intros p Hwf; [reflexivity |].
  rewrite Nat.iter_succ_r. cbn [repeat].
  change (simulate (Update dt input level :: repeat (Update dt input level) n) p)
    with (simulate (repeat (Update dt input level) n)
            (Player.update dt input level p)).
  destruct (update_powerUp K dt input level p Hwf) as (W & _ & F).
  cbv zeta in W. rewrite (IH _ W). f_equal.
  destruct (TimerMap.get K (Player.powerUpTimers p)) as [timer |].
  - destruct (JS.le (JS.sub timer dt) 0); exact (proj1 F).
  - exact (proj1 F).
Qed.

(** C2, as the claim states it, fails at the boundary: the timer counts
    down in double precision.  A hundred updates of [0.1] seconds (the
    double [0.1], a little above one tenth) add up to at least ten
    seconds, and yet the speed power-up applied before them still has a
    timer entry, of [677 * 2^-55], about [1.9e-14] seconds: each of the
    hundred subtractions is rounded. *)
Lemma C2_counterexample :
  let dt := JS.double 0.1 in
  let acts := repeat (Update dt no_keys ground_level) 100 in
  10 <= elapsed acts
  /\ ~ In (ApplyPowerUp PowerUpType.speed) acts
  /\ option_map Qred
       (TimerMap.get PowerUpType.speed
          (Player.powerUpTimers
             (simulate acts
                (Player.applyPowerUp PowerUpType.speed (Player.new 100 400)))))
     = Some (677 # 36028797018963968).
Proof.
  cbv zeta. split; [| split].
  - rewrite elapsed_repeat. vm_compute. discriminate.
  - intros H. apply List.repeat_spec in H. discriminate H.
  - rewrite timer_of_updates by (apply applyPowerUp_wf, List.NoDup_nil).
    rewrite applyPowerUp_get. vm_compute. reflexivity.
Qed.

(** C2, amended.  [applyPowerUp(K)] leaves the timer of [K] at exactly
    [10].  After any run of the player in which time runs forward, [K] is
    not applied again and the updates add up to at least
    [10 * (1 + n * Number.EPSILON)] seconds, [n] being the number of
    actions of the run (at most [2^52]), the timer map has no entry for
    [K] and the stat of [K] is its stored base value: [speed] and
    [maxSpeed] for [speed], [jumpPower] for [jump], the 32 by 48 size for
    [size]; [invincible] has no stat of its own: applying it sets the
    invulnerability timer to [10] and removing it changes no field. *)
Theorem C2_powerUp_expires
    (K : PowerUpType.t) (p : Player.t) (acts : list action) :
  TimerMap.wf (Player.powerUpTimers p) ->
  ~ In (ApplyPowerUp K) acts ->
  List.Forall forward acts ->
  JS.num (length acts) * JS.EPSILON <= 1 ->
  10 * (1 + JS.num (length acts) * JS.EPSILON) <= elapsed acts ->
  (TimerMap.get K (Player.powerUpTimers (Player.applyPowerUp K p)) = Some 10
   /\ TimerMap.get K
        (Player.powerUpTimers (simulate acts (Player.applyPowerUp K p))) = None
   /\ affectedStat K (simulate acts (Player.applyPowerUp K p)) = baseStat K p)
  /\ Player.invulnerabilityTimer (Player.applyPowerUp PowerUpType.invincible p) = 10
  /\ Player.removePowerUp PowerUpType.invincible p = p.
Proof.
  intros Hwf Hn Hf Hlen He. split; [| split; reflexivity].
  split; [apply applyPowerUp_get |].
  rewrite <- (baseStat_base K _ _ (applyPowerUp_base K p)).
  apply (timer_runs_out K acts Hn Hf Hlen _ 10).
  - now apply applyPowerUp_wf.
  - apply applyPowerUp_get.
  - reflexivity.
  - exact He.
Qed.

(** A fresh player picks the speed power-up, is updated for four seconds,
    takes damage, and is updated for seven more seconds. *)
Lemma C2_witness :
  TimerMap.get PowerUpType.speed
    (Player.powerUpTimers
       (simulate [Update 4 no_keys ground_level; TakeDamage;
                  Update 7 no_keys ground_level]
          (Player.applyPowerUp PowerUpType.speed (Player.new 100 400))))
  = None
  /\ affectedStat PowerUpType.speed
       (simulate [Update 4 no_keys ground_level; TakeDamage;
                  Update 7 no_keys ground_level]
          (Player.applyPowerUp PowerUpType.speed (Player.new 100 400)))
     = baseStat PowerUpType.speed (Player.new 100 400).
Proof.
  refine (proj2 (proj1 (C2_powerUp_expires PowerUpType.speed (Player.new 100 400)
                   [Update 4 no_keys ground_level; TakeDamage;
                    Update 7 no_keys ground_level] _ _ _ _ _))).
  - apply List.NoDup_nil.
  - intros [H | [H | [H | []]]]; discriminate H.
  - repeat constructor; discriminate.
  - vm_compute. discriminate.
  - vm_compute. discriminate.
Defined.

(** On a player built by the constructor and run through any actions, a
    kind without a timer entry has its stat at the base value: the base
    value is the value the stat had before the power-up. *)
Lemma inactive_stat_is_base (acts : list action) (x y : Q) (K : PowerUpType.t) :
  let p := simulate acts (Player.new x y) in
  TimerMap.wf (Player.powerUpTimers p)
  /\ (TimerMap.get K (Player.powerUpTimers p) = None ->
      affectedStat K p = baseStat K p).
Proof.
  cbv zeta. unfold simulate.
  assert (H0 : TimerMap.wf (Player.powerUpTimers (Player.new x y))
               /\ (TimerMap.get K (Player.powerUpTimers (Player.new x y)) = None ->
                   affectedStat K (Player.new x y) = baseStat K (Player.new x y))).
  { split; [apply List.NoDup_nil | intros _; destruct K; reflexivity]. }
  revert H0. generalize (Player.new x y).
  induction acts as [| a acts IH]; intros p [Hwf Hs]; cbn [fold_left];
    [auto |].
  apply IH.
  assert (D : a = ApplyPowerUp K \/ a <> ApplyPowerUp K).
  { destruct a as [| k | | |]; try (right; discriminate).
    destruct (decide (k = K)) as [-> | N]; [now left | right; congruence]. }
  destruct D as [-> | Na].
  - cbn [act]. split; [now apply applyPowerUp_wf |].
    rewrite applyPowerUp_get. discriminate.
  - destruct (act_powerUp K a p Na Hwf) as (W & B & F).
    split; [exact W |]. rewrite B.
    destruct (TimerMap.get K (Player.powerUpTimers p)) as [timer |] eqn:G.
    + destruct a as [dt input level | k | | |];
        try (destruct F as [-> _]; discriminate).
      destruct (JS.le (JS.sub timer dt) 0); destruct F as [-> S];
        [auto | discriminate].
    + assert (F' : TimerMap.get K (Player.powerUpTimers (act p a)) = None
                   /\ affectedStat K (act p a) = affectedStat K p)
        by (destruct a; exact F).
      destruct F' as [_ ->]. auto.
Qed.

(** ** Enemy against the player's collision method *)

(** [playerStyle_collideWith] is the player's callback: on a player and an
    enemy with the same body the two give the same body. *)
Lemma playerStyle_collideWith_is_Player (bounds : Rectangle.t)
    (p : Player.t) (e : Enemy.t) (platform : Platform.t) :
  Player_body p = Enemy_body e ->
  Player_body (Player.collideWith bounds p platform)
  = Enemy_body (playerStyle_collideWith bounds e platform).
Proof.
  unfold Player_body, Enemy_body. intros H. injection H as Hx Hy Hw Hh Hv Hg.
  unfold Player.collideWith, playerStyle_collideWith; cbv zeta.
  unfold Player.set_vx, Player.set_vy.
  split_ifs; cbn; congruence.
Qed.

Lemma playerStyle_checkPlatformCollisions_is_Player
    (level : Level.t) (p : Player.t) (e : Enemy.t) :
  Player_body p = Enemy_body e ->
  Player_body (Player.checkPlatformCollisions level p)
  = Enemy_body (playerStyle_checkPlatformCollisions (Level.platforms level) e).
Proof.
  intros H.
  unfold Player.checkPlatformCollisions, playerStyle_checkPlatformCollisions.
  cbv zeta.
  assert (Hb : Player.getBounds p = Enemy.getBounds e).
  { unfold Player_body, Enemy_body in H. injection H as Hx Hy Hw Hh Hv Hg.
    unfold Player.getBounds, Enemy.getBounds. congruence. }
  rewrite Hb.
  assert (H0 : Player_body (Player.set_isGrounded false p)
               = Enemy_body (Enemy.set_isGrounded false e)).
  { unfold Player_body, Enemy_body in *. cbn. congruence. }
  revert H0.
  generalize (Player.set_isGrounded false p) (Enemy.set_isGrounded false e).
  induction (Level.platforms level) as [| platform l IH]; intros q f Hqf;
    cbn [fold_left]; [exact Hqf |].
  apply IH. now apply playerStyle_collideWith_is_Player.
Qed.

Lemma fold_left_related {A B C : Type} (f : A -> C -> A) (g : B -> C -> B)
    (R : A -> B -> Prop) (ok : C -> Prop) :
  (forall a b c, ok c -> R a b -> R (f a c) (g b c)) ->
  forall (l : list C) (a : A) (b : B),
    List.Forall ok l -> R a b -> R (fold_left f l a) (fold_left g l b).
Proof.
  intros Hstep l. induction l as [| c l IH]; intros a b Hok HR; cbn; [exact HR |].
  inversion Hok; subst. apply IH; auto.
Qed.

(** C3, as the claim states it, fails.  A goomba whose top is 14 units
    inside the underside of a floating platform: the player's method puts
    the body under the platform ([y = 224]); the enemy's method has no
    branch for this case and leaves [y = 210]. *)
Lemma C3_counterexample :
  let e := Enemy.new 100 210 goomba in
  let platforms := [Platform.new 90 200 100 24 floating] in
  Enemy.y (playerStyle_checkPlatformCollisions platforms e) == 224
  /\ Enemy.y (Enemy.checkPlatformCollisions platforms e) == 210
  /\ Enemy_body (Enemy.checkPlatformCollisions platforms e)
     <> Enemy_body (playerStyle_checkPlatformCollisions platforms e).
Proof.
  cbv zeta. split; [reflexivity |]. split; [reflexivity |].
  intros H. apply (f_equal body_y) in H. vm_compute in H. discriminate H.
Qed.

(** The other difference: against a wall the player's method zeroes
    [velocity.x], the enemy's keeps it (it is overwritten at the start of
    the next [updateGroundMovement]). *)
Example enemy_keeps_velocity_x_at_wall :
  let e := Enemy.set_velocity (Vector2.new (-60) 0) (Enemy.new 200 190 goomba) in
  let platforms := [Platform.new 100 100 110 200 floating] in
  Vector2.x (Enemy.velocity (playerStyle_checkPlatformCollisions platforms e)) == 0
  /\ Vector2.x (Enemy.velocity (Enemy.checkPlatformCollisions platforms e)) == -60
  /\ Enemy.x (Enemy.checkPlatformCollisions platforms e) == 210
  /\ Enemy.direction (Enemy.checkPlatformCollisions platforms e) == 1.
Proof. cbv zeta. repeat split; reflexivity. Qed.

Lemma collideWith_shared (b : Rectangle.t) (e s : Enemy.t) (platform : Platform.t) :
  Enemy.x e = Enemy.x s /\ Enemy.isGrounded e = Enemy.isGrounded s
  /\ Enemy.direction e = Enemy.direction s
  /\ Enemy.width e = Enemy.width s /\ Enemy.height e = Enemy.height s ->
  let e' := Enemy.collideWith b e platform in
  let s' := playerStyle_collideWith b s platform in
  Enemy.x e' = Enemy.x s' /\ Enemy.isGrounded e' = Enemy.isGrounded s'
  /\ Enemy.direction e' = Enemy.direction s'
  /\ Enemy.width e' = Enemy.width s' /\ Enemy.height e' = Enemy.height s'.
Proof.
  intros (Hx & Hg & Hd & Hw & Hh).
  unfold Enemy.collideWith, playerStyle_collideWith; cbv zeta.
  split_ifs; cbn; repeat split; congruence.
Qed.

Lemma collideWith_vertical (b : Rectangle.t) (e s : Enemy.t) (platform : Platform.t) :
  hitsUnderside b platform = false ->
  Enemy.y e = Enemy.y s
  /\ Vector2.y (Enemy.velocity e) = Vector2.y (Enemy.velocity s)
  /\ Enemy.height e = Enemy.height s ->
  let e' := Enemy.collideWith b e platform in
  let s' := playerStyle_collideWith b s platform in
  Enemy.y e' = Enemy.y s'
  /\ Vector2.y (Enemy.velocity e') = Vector2.y (Enemy.velocity s')
  /\ Enemy.height e' = Enemy.height s'.
Proof.
  unfold hitsUnderside, Rectangle.overlaps; cbv zeta; cbn [fst snd].
  intros Hu (Hy & Hv & Hh).
  unfold Enemy.collideWith, playerStyle_collideWith; cbv zeta.
  destruct (Rectangle.intersects _ _); [| auto].
  destruct (JS.lt (JS.min _ _) (JS.min _ _)); cbn in Hu.
  - split_ifs; cbn; auto.
  - destruct (JS.lt (Rectangle.centerY _) (Rectangle.centerY _));
      [| discriminate Hu].
    cbn. repeat split; congruence.
Qed.

Lemma collideWith_direction (b : Rectangle.t) (e : Enemy.t) (platform : Platform.t) :
  Enemy.direction (Enemy.collideWith b e platform)
  = if hitsWall b platform then Enemy.direction e * -1 else Enemy.direction e.
Proof.
  unfold hitsWall, Rectangle.overlaps, Enemy.collideWith; cbv zeta; cbn [fst snd].
  destruct (Rectangle.intersects _ _); [| reflexivity].
  destruct (JS.lt (JS.min _ _) (JS.min _ _)); cbn [andb];
    split_ifs; reflexivity.
Qed.

Lemma collideWith_velocity_x (b : Rectangle.t) (e : Enemy.t) (platform : Platform.t) :
  Vector2.x (Enemy.velocity (Enemy.collideWith b e platform))
  = Vector2.x (Enemy.velocity e).
Proof. unfold Enemy.collideWith; cbv zeta. split_ifs; reflexivity. Qed.

(** The enemy's callback is the player's with the two differences, at
    every platform and on every enemy. *)
Lemma collideWith_enemyStyle (b : Rectangle.t) (e : Enemy.t) (platform : Platform.t) :
  Enemy.collideWith b e platform = enemyStyle_collideWith b e platform.
Proof.
  unfold enemyStyle_collideWith, hitsUnderside, Rectangle.overlaps,
    Enemy.collideWith, playerStyle_collideWith; cbv zeta; cbn [fst snd].
  destruct e as [x y w h ty [vx vy] sp d hp g gr af at_ fo ft].
  destruct (Rectangle.intersects _ _); [| reflexivity].
  destruct (JS.lt (JS.min _ _) (JS.min _ _)); cbn [andb negb].
  - destruct (JS.lt (Rectangle.centerX _) (Rectangle.centerX _)); reflexivity.
  - destruct (JS.lt (Rectangle.centerY _) (Rectangle.centerY _)); reflexivity.
Qed.

(** C3, amended.  For every enemy and every platform list,
    [Enemy.checkPlatformCollisions] is the player's method carried over to
    the enemy with exactly two differences, at each platform of the list:
    a platform met from below is ignored (the enemy is not moved and
    [velocity.y] is kept, where the player's method would put the body
    under the platform and zero [velocity.y]), and [velocity.x] is kept
    (the player's method zeroes it at a wall).  So it agrees with the
    player's method ([playerStyle_checkPlatformCollisions]) on the
    horizontal position, on the grounded flag and on the direction, which
    is reversed once for every wall contact; it never changes
    [velocity.x]; when no platform is hit from below it agrees on the
    vertical position and on [velocity.y] as well; and a hit from below
    against a single platform changes nothing but the reset of the
    grounded flag. *)
Theorem C3_enemy_resolution (e : Enemy.t) (platforms : list Platform.t) :
  let b := Enemy.getBounds e in
  let e' := Enemy.checkPlatformCollisions platforms e in
  let s' := playerStyle_checkPlatformCollisions platforms e in
  e' = fold_left (enemyStyle_collideWith b) platforms (Enemy.set_isGrounded false e)
  /\ (Enemy.x e' = Enemy.x s'
   /\ Enemy.isGrounded e' = Enemy.isGrounded s'
   /\ Enemy.direction e' = Enemy.direction s')
  /\ Enemy.direction e'
     = fold_left (fun d platform => if hitsWall b platform then d * -1 else d)
                 platforms (Enemy.direction e)
  /\ Vector2.x (Enemy.velocity e') = Vector2.x (Enemy.velocity e)
  /\ (List.Forall (fun platform => hitsUnderside b platform = false) platforms ->
      Enemy.y e' = Enemy.y s'
      /\ Vector2.y (Enemy.velocity e') = Vector2.y (Enemy.velocity s'))
  /\ (forall platform,
         platforms = [platform] -> hitsUnderside b platform = true ->
         e' = Enemy.set_isGrounded false e).
Proof.
  intros b e' s'. subst e' s'.
  unfold Enemy.checkPlatformCollisions, playerStyle_checkPlatformCollisions.
  cbv zeta. fold b.
  set (e0 := Enemy.set_isGrounded false e).
  split; [| split; [| split; [| split; [| split]]]].
  - generalize e0. induction platforms as [| platform l IH]; intros a;
      cbn [fold_left]; [reflexivity |].
    rewrite IH. now rewrite collideWith_enemyStyle.
  - assert (H := fold_left_related (Enemy.collideWith b) (playerStyle_collideWith b)
                   (fun a s => Enemy.x a = Enemy.x s
                               /\ Enemy.isGrounded a = Enemy.isGrounded s
                               /\ Enemy.direction a = Enemy.direction s
                               /\ Enemy.width a = Enemy.width s
                               /\ Enemy.height a = Enemy.height s)
                   (fun _ => True)).
    cbv beta in H.
    destruct (H (fun a s c _ R => collideWith_shared b a s c R) platforms e0 e0)
      as (Hx & Hg & Hd & _); auto.
    clear. induction platforms; auto.
  - change (Enemy.direction e) with (Enemy.direction e0).
    generalize e0. induction platforms as [| platform l IH]; intros a;
      cbn [fold_left]; [reflexivity |].
    rewrite IH. now rewrite collideWith_direction.
  - change (Vector2.x (Enemy.velocity e)) with (Vector2.x (Enemy.velocity e0)).
    apply (fold_left_invariant _
             (fun a => Vector2.x (Enemy.velocity a) = Vector2.x (Enemy.velocity e0)));
      [| reflexivity].
    intros a platform <-. apply collideWith_velocity_x.
  - intros Hok.
    assert (H := fold_left_related (Enemy.collideWith b) (playerStyle_collideWith b)
                   (fun a s => Enemy.y a = Enemy.y s
                               /\ Vector2.y (Enemy.velocity a)
                                  = Vector2.y (Enemy.velocity s)
                               /\ Enemy.height a = Enemy.height s)
                   (fun platform => hitsUnderside b platform = false)).
    cbv beta in H.
    destruct (H (fun a s c Hc R => collideWith_vertical b a s c Hc R)
                platforms e0 e0 Hok)
      as (Hy & Hv & _); auto.
  - intros platform -> Hu. cbn [fold_left].
    unfold hitsUnderside, Rectangle.overlaps in Hu; cbv zeta in Hu;
      cbn [fst snd] in Hu.
    unfold Enemy.collideWith; cbv zeta.
    destruct (Rectangle.intersects _ _); [| discriminate Hu].
    destruct (JS.lt (JS.min _ _) (JS.min _ _)); [discriminate Hu |].
    destruct (JS.lt (Rectangle.centerY _) (Rectangle.centerY _));
      [discriminate Hu | reflexivity].
Qed.

(** A goomba that has fallen four units into a ground tile lands on it,
    as a player would. *)
Lemma C3_witness :
  Enemy.y (Enemy.checkPlatformCollisions
             [Platform.new 256 512 128 64 ground] (Enemy.new 300 492 goomba))
  = Enemy.y (playerStyle_checkPlatformCollisions
               [Platform.new 256 512 128 64 ground] (Enemy.new 300 492 goomba)).
Proof.
  refine (proj1 (proj1 (proj2 (proj2 (proj2 (proj2
            (C3_enemy_resolution (Enemy.new 300 492 goomba)
               [Platform.new 256 512 128 64 ground]))))) _)).
  repeat constructor.
Defined.

(** ** Level generation *)

Lemma for_range_S {S : Type} (count start : nat) (body : nat -> S -> Level.Gen S)
    (s : S) (n : nat) :
  Level.for_range (Datatypes.S count) start body s n
  = Level.for_range count (Datatypes.S start) body
      (fst (body start s n)) (snd (body start s n)).
Proof.
  cbn [Level.for_range]. unfold mbind, Level.Gen_bind.
  destruct (body start s n); reflexivity.
Qed.

(** A loop invariant indexed by the number of iterations done, over the
    loop state and the number of random draws. *)
Lemma for_range_invariant {S : Type} (body : nat -> S -> Level.Gen S)
    (count : nat) :
  forall (I : nat -> S * nat -> Prop),
    (forall k i s n, (k < count)%nat -> I k (s, n) -> I (Datatypes.S k) (body i s n)) ->
    forall start s n,
      I 0%nat (s, n) -> I count (Level.for_range count start body s n).
Proof.
  induction count as [| count IH]; intros I Hstep start s n H0.
  - exact H0.
  - rewrite for_range_S.
    apply (IH (fun k => I (Datatypes.S k))).
    + intros k i s' n' Hk. apply Hstep. lia.
    + rewrite <- surjective_pairing. apply Hstep; [lia | exact H0].
Qed.

#[local] Arguments groundRow : simpl never.

Lemma groundLoop_new (fuel : nat) (N : Z) :
  (17 <= fuel)%nat ->
  Level.groundLoop fuel 0 (Level.mk 2048 576 [] [] [] [] N)
  = Level.mk 2048 576 groundRow [] [] [] N.
Proof.
  intros H. do 17 (destruct fuel as [| fuel]; [lia |]). reflexivity.
Qed.

Lemma groundRow_tiles : tiles groundRow 0 2048.
Proof. cbn. repeat split. Qed.

Ltac gen_unfold :=
  unfold Level.pick, Level.random, mbind, mret, Level.Gen_bind, Level.Gen_ret.

(** What [generatePlatforms] makes of the empty level of the constructor:
    the ground row, then the floating platforms, then the moving ones. *)
Lemma generatePlatforms_new (sin : Q -> Q) (rnd : nat -> Q) (N : Z) (n0 : nat) :
  exists (F M : list Platform.t),
    fst (Level.generatePlatforms sin rnd (Level.mk 2048 576 [] [] [] [] N) n0)
    = Level.mk 2048 576 (groundRow ++ F ++ M) [] [] [] N
    /\ length F = Z.to_nat (8 + Z.min N 5 * 2)
    /\ List.Forall isFloating F
    /\ ((3 <= N)%Z -> List.Forall2 (fun m m' => Platform.x m == Platform.x m'
                                       /\ Platform.y m == Platform.y m'
                                       /\ Platform.width m = 128
                                       /\ Platform.height m = 24
                                       /\ Platform.type m = moving) M movingPair)
    /\ ((N < 3)%Z -> M = []).
Proof.
  unfold Level.generatePlatforms.
  change (Level.groundFuel (Level.mk 2048 576 [] [] [] [] N)) with 17%nat.
  rewrite groundLoop_new by lia. cbv zeta. cbn [Level.levelNumber].
  set (count := Z.to_nat (8 + Z.min N 5 * 2)).
  match goal with
  | |- context [Level.for_range count 0 ?b _] => set (body := b)
  end.
  assert (HF : exists F,
             fst (Level.for_range count 0 body
                    (Level.mk 2048 576 groundRow [] [] [] N) n0)
             = Level.mk 2048 576 (groundRow ++ F) [] [] [] N
             /\ length F = count /\ List.Forall isFloating F).
  { apply (for_range_invariant body count
             (fun k st => exists F,
                  fst st = Level.mk 2048 576 (groundRow ++ F) [] [] [] N
                  /\ length F = k /\ List.Forall isFloating F)).
    - intros k i l n _ (F & E & HL & HT). cbn [fst] in E. subst l.
      eexists (F ++ [_]). unfold body. gen_unfold. cbn [fst].
      unfold Level.push_platform. cbn.
      rewrite <- List.app_assoc. split; [reflexivity |].
      split; [rewrite List.length_app; cbn; lia |].
      apply List.Forall_app. split; [exact HT |]. repeat constructor.
    - exists []. cbn. rewrite List.app_nil_r. auto. }
  destruct HF as (F & EF & HL & HT).
  unfold mbind at 1. unfold Level.Gen_bind at 1.
  destruct (Level.for_range count 0 body _ n0) as [l2 n2]. cbn [fst] in EF.
  subst l2. cbn [Level.levelNumber].
  destruct (N >=? 3)%Z eqn:C.
  - exists F, [Platform.new (600 + JS.num 0 * 400) (300 + JS.num 0 * 50) 128 24 moving;
               Platform.new (600 + JS.num 1 * 400) (300 + JS.num 1 * 50) 128 24 moving].
    split; [| split; [exact HL | split; [exact HT | split]]].
    + cbn [Level.for_range]. gen_unfold. cbn [fst].
      unfold Level.push_platform. cbn. rewrite <- !List.app_assoc. reflexivity.
    + intros _. repeat constructor.
    + intros. lia.
  - exists F, []. rewrite List.app_nil_r.
    split; [reflexivity | split; [exact HL | split; [exact HT | split]]].
    + intros. lia.
    + reflexivity.
Qed.

Lemma generateEnemies_keeps (rnd : nat -> Q) (l : Level.t) (n : nat) :
  sameTerrain l (fst (Level.generateEnemies rnd l n))
  /\ Level.collectibles (fst (Level.generateEnemies rnd l n)) = Level.collectibles l.
Proof.
  unfold Level.generateEnemies; cbv zeta.
  apply (for_range_invariant _ _
           (fun _ st => sameTerrain l (fst st)
                        /\ Level.collectibles (fst st) = Level.collectibles l)).
  - intros k i l' n' _ [(Hw & Hh & Hp & Hn) Hc]. cbn [fst] in *.
    gen_unfold. cbn [fst]. unfold sameTerrain, Level.push_enemy. cbn. auto.
  - unfold sameTerrain. cbn. auto.
Qed.

Lemma generatePowerUps_keeps (rnd : nat -> Q) (l : Level.t) (n : nat) :
  sameTerrain l (fst (Level.generatePowerUps rnd l n))
  /\ Level.collectibles (fst (Level.generatePowerUps rnd l n)) = Level.collectibles l.
Proof.
  unfold Level.generatePowerUps; cbv zeta.
  apply (for_range_invariant _ _
           (fun _ st => sameTerrain l (fst st)
                        /\ Level.collectibles (fst st) = Level.collectibles l)).
  - intros k i l' n' _ [(Hw & Hh & Hp & Hn) Hc]. cbn [fst] in *.
    gen_unfold. cbn [fst]. unfold sameTerrain, Level.push_powerUp. cbn. auto.
  - unfold sameTerrain. cbn. auto.
Qed.

Lemma existsb_false_Forall {A : Type} (f : A -> bool) (l : list A) :
  existsb f l = false -> List.Forall (fun a => f a = false) l.
Proof.
  induction l as [| a l IH]; cbn; [constructor |].
  intros H. apply orb_false_iff in H. destruct H. constructor; auto.
Qed.

Lemma Collectible_new_position (x y : Q) (ty : CollectibleType) :
  Collectible.x (Collectible.new x y ty) = x
  /\ Collectible.y (Collectible.new x y ty) = y.
Proof. destruct ty; auto. Qed.

(** The loop of [generateCollectibles] after [k] iterations: at most [k]
    collectibles were added, each clear of the platforms, and the number of
    random draws is two for each iteration and one more for each
    collectible placed. *)
Lemma generateCollectibles_loop (rnd : nat -> Q) (l : Level.t) (n : nat) (count : nat) :
  let st :=
    Level.for_range count 0
      (fun (_ : nat) (l : Level.t) =>
         r1 ← Level.random rnd;
         r2 ← Level.random rnd;
         if negb (existsb
                    (Level.insidePlatform (150 + r1 * (Level.width l - 300))
                                          (100 + r2 * (Level.height l - 200)))
                    (Level.platforms l))
         then r3 ← Level.random rnd;
              mret (Level.push_collectible
                      (Collectible.new (150 + r1 * (Level.width l - 300))
                                       (100 + r2 * (Level.height l - 200))
                                       (if JS.lt r3 0.7 then coin else gem)) l)
         else mret l) l n in
  sameTerrain l (fst st)
  /\ exists cs,
      Level.collectibles (fst st) = Level.collectibles l ++ cs
      /\ (length cs <= count)%nat
      /\ List.Forall (clearOf (Level.platforms l)) cs
      /\ snd st = (n + 2 * count + length cs)%nat.
Proof.
  cbv zeta.
  apply (for_range_invariant _ count
           (fun k st =>
              sameTerrain l (fst st)
              /\ exists cs,
                  Level.collectibles (fst st) = Level.collectibles l ++ cs
                  /\ (length cs <= k)%nat
                  /\ List.Forall (clearOf (Level.platforms l)) cs
                  /\ snd st = (n + 2 * k + length cs)%nat)).
  - intros k i l' n' _ [(Hw & Hh & Hp & Hn) (cs & Hc & Hl & Hf & Hd)].
    cbn [fst snd] in *. gen_unfold. cbn beta iota zeta.
    rewrite Hw, Hh, Hp.
    set (x := 150 + rnd n' * (Level.width l - 300)).
    set (y := 100 + rnd (Datatypes.S n') * (Level.height l - 200)).
    destruct (existsb (Level.insidePlatform x y) (Level.platforms l)) eqn:E;
      cbn [negb fst snd].
    + split; [unfold sameTerrain; auto |].
      exists cs. repeat split; auto; lia.
    + split; [unfold sameTerrain, Level.push_collectible; cbn; auto |].
      eexists (cs ++ [_]). unfold Level.push_collectible. cbn.
      rewrite Hc, <- List.app_assoc. split; [reflexivity |].
      rewrite List.length_app. cbn [length].
      split; [lia |]. split; [| lia].
      apply List.Forall_app. split; [exact Hf |]. constructor; [| constructor].
      unfold clearOf.
      destruct (Collectible_new_position x y
                  (if JS.lt (rnd (Datatypes.S (Datatypes.S n'))) 0.7
                   then coin else gem)) as [-> ->].
      now apply existsb_false_Forall.
  - cbn [fst snd]. split; [unfold sameTerrain; auto |].
    exists []. rewrite List.app_nil_r. repeat split; auto. cbn. lia.
Qed.



Lemma ofType_app (ty : PlatformType) (ps qs : list Platform.t) :
  ofType ty (ps ++ qs) = ofType ty ps ++ ofType ty qs.
Proof. apply List.filter_app. Qed.

Lemma ofType_all (ty : PlatformType) (ps : list Platform.t) :
  List.Forall (fun p => Platform.type p = ty) ps -> ofType ty ps = ps.
Proof.
  induction 1 as [| p ps Hp _ IH]; [reflexivity |].
  unfold ofType in *. cbn [List.filter]. rewrite Hp.
  destruct ty; rewrite IH; reflexivity.
Qed.

Lemma ofType_none (ty ty' : PlatformType) (ps : list Platform.t) :
  ty <> ty' ->
  List.Forall (fun p => Platform.type p = ty') ps -> ofType ty ps = [].
Proof.
  intros N. induction 1 as [| p ps Hp _ IH]; [reflexivity |].
  unfold ofType in *. cbn [List.filter]. rewrite Hp.
  destruct ty, ty'; try congruence; exact IH.
Qed.

Lemma groundRow_ground : List.Forall (fun p => Platform.type p = ground) groundRow.
Proof. repeat constructor. Qed.

(** The platforms of a generated level. *)
Lemma new_platforms (sin : Q -> Q) (rnd : nat -> Q) (N : Z) (n0 : nat) :
  exists (F M : list Platform.t),
    Level.platforms (fst (Level.new sin rnd N n0)) = groundRow ++ F ++ M
    /\ Level.width (fst (Level.new sin rnd N n0)) = 2048
    /\ length F = Z.to_nat (8 + Z.min N 5 * 2)
    /\ List.Forall (fun p => Platform.type p = floating) F
    /\ List.Forall (fun p => Platform.type p = moving) M
    /\ ((3 <= N)%Z -> length M = 2%nat)
    /\ ((N < 3)%Z -> M = []).
Proof.
  destruct (generatePlatforms_new sin rnd N n0) as (F & M & E & HL & HF & HM3 & HM0).
  exists F, M.
  assert (H : Level.platforms (fst (Level.new sin rnd N n0)) = groundRow ++ F ++ M
              /\ Level.width (fst (Level.new sin rnd N n0)) = 2048).
  { unfold Level.new, Level.generateLevel.
    cbn [Level.width Level.height Level.levelNumber].
    unfold mbind, Level.Gen_bind.
    destruct (Level.generatePlatforms sin rnd _ n0) as [l1 n1]. cbn [fst] in E.
    destruct (generateEnemies_keeps rnd l1 n1) as [(W2 & _ & P2 & _) _].
    destruct (Level.generateEnemies rnd l1 n1) as [l2 n2]. cbn [fst] in *.
    assert (T3 := proj1 (generateCollectibles_loop rnd l2 n2
                           (Z.to_nat (15 + Level.levelNumber l2 * 3)))).
    cbv zeta in T3. fold (Level.generateCollectibles rnd l2) in T3.
    destruct T3 as (W3 & _ & P3 & _).
    destruct (Level.generateCollectibles rnd l2 n2) as [l3 n3]. cbn [fst] in *.
    destruct (generatePowerUps_keeps rnd l3 n3) as [(W4 & _ & P4 & _) _].
    rewrite P4, P3, P2, W4, W3, W2, E. cbn [Level.platforms Level.width]. auto. }
  destruct H as [-> ->].
  split; [reflexivity |]. split; [reflexivity |]. split; [exact HL |].
  split; [exact HF |].
  assert (HMt : List.Forall (fun p => Platform.type p = moving) M).
  { destruct (Z_lt_le_dec N 3) as [C | C].
    - rewrite (HM0 C). constructor.
    - specialize (HM3 C). clear -HM3.
      induction HM3 as [| m m' M M' Hm _ IH]; constructor; [tauto | exact IH]. }
  split; [exact HMt |]. split; [| exact HM0].
  intros C. apply List.Forall2_length in HM3; [exact HM3 | exact C].
Qed.

(** C4, as the claim states it, fails on its first clause: the ground is
    not one platform but a row of sixteen tiles of width 128 (level 1, with
    any [Math.sin] and [Math.random]; here both constant). *)
Lemma C4_counterexample :
  length (ofType ground
            (Level.platforms
               (fst (Level.new flat_sin even_rnd 1 0%nat)))) = 16%nat
  /\ length (ofType ground
               (Level.platforms
                  (fst (Level.new flat_sin even_rnd 1 0%nat)))) <> 1%nat.
Proof. split; [vm_compute; reflexivity | vm_compute; discriminate]. Qed.

(** C4, amended.  For every level number [N >= 1] (and every [Math.sin]
    and stream of [Math.random] results) the generated level has exactly
    sixteen ground platforms, the tiles of width 128 that cover the level
    from [0] to its width [2048] edge to edge; exactly [8 + 2 * min(N, 5)]
    floating platforms; and exactly two moving platforms when [N >= 3],
    none otherwise. *)
Theorem C4_generated_platforms
    (sin : Q -> Q) (rnd : nat -> Q) (N : Z) (n0 : nat) :
  (1 <= N)%Z ->
  let level := fst (Level.new sin rnd N n0) in
  let ps := Level.platforms level in
  length (ofType ground ps) = 16%nat
  /\ tiles (ofType ground ps) 0 (Level.width level)
  /\ Z.of_nat (length (ofType floating ps)) = (8 + 2 * Z.min N 5)%Z
  /\ (length (ofType moving ps) = 2%nat <-> (3 <= N)%Z)
  /\ ((N < 3)%Z -> length (ofType moving ps) = 0%nat)
  /\ length ps = (length (ofType ground ps) + length (ofType floating ps)
                  + length (ofType moving ps))%nat.
Proof.
  intros HN level ps. subst ps level.
  destruct (new_platforms sin rnd N n0) as (F & M & -> & -> & HL & HF & HM & HM3 & HM0).
  rewrite !ofType_app.
  rewrite (ofType_all ground groundRow groundRow_ground).
  rewrite (ofType_none ground floating F), (ofType_none ground moving M)
    by (auto; discriminate).
  rewrite (ofType_none floating ground groundRow), (ofType_all floating F),
    (ofType_none floating moving M) by (auto using groundRow_ground; discriminate).
  rewrite (ofType_none moving ground groundRow), (ofType_none moving floating F),
    (ofType_all moving M) by (auto using groundRow_ground; discriminate).
  rewrite !List.app_nil_r, !List.length_app. cbn [app].
  split; [reflexivity |]. split; [exact groundRow_tiles |].
  change (length (@nil Platform.t)) with 0%nat. cbn [Nat.add].
  split; [rewrite HL; lia |].
  split; [| split].
  - split; [| exact HM3].
    intros H2. destruct (Z_lt_le_dec N 3) as [C | C]; [| exact C].
    rewrite (HM0 C) in H2. discriminate H2.
  - intros C. now rewrite (HM0 C).
  - reflexivity.
Qed.

(** Level 3: sixteen ground tiles, fourteen floating platforms, two moving
    ones. *)
Lemma C4_witness :
  length (ofType ground
            (Level.platforms (fst (Level.new flat_sin even_rnd 3 0%nat))))
  = 16%nat.
Proof.
  refine (proj1 (C4_generated_platforms flat_sin even_rnd 3 0%nat _)).
  lia.
Defined.



(** A draw that lands inside a platform is dropped, not redrawn: with a
    single 2000 by 500 platform under every draw of [1/2], no collectible
    is placed and exactly two draws are made for each of the 18 attempts. *)
Example collectibles_undercount :
  let l := Level.mk 2048 576 [Platform.new 0 0 2000 500 floating] [] [] [] 1 in
  Level.collectibles (fst (Level.generateCollectibles even_rnd l 0%nat)) = []
  /\ snd (Level.generateCollectibles even_rnd l 0%nat) = 36%nat.
Proof. vm_compute. split; reflexivity. Qed.

(** * Further properties of the simulation code *)

(** ** Rectangle *)

(** X1.  [intersects] does not depend on the order of the two rectangles,
    and neither does either component of [overlaps]. *)
Theorem X1_intersects_overlaps_symmetric (a b : Rectangle.t) :
  Rectangle.intersects a b = Rectangle.intersects b a
  /\ fst (Rectangle.overlaps a b) == fst (Rectangle.overlaps b a)
  /\ snd (Rectangle.overlaps a b) == snd (Rectangle.overlaps b a).
Proof.
  split.
  - destruct (Rectangle.intersects a b) eqn:Ha;
      destruct (Rectangle.intersects b a) eqn:Hb; try reflexivity.
    + apply intersects_true in Ha. apply intersects_false in Hb. lra.
    + apply intersects_false in Ha. apply intersects_true in Hb. lra.
  - unfold Rectangle.overlaps; cbn [fst snd]. unfold JS.min.
    split; apply Q.min_comm.
Qed.

(** X2.  Two intersecting rectangles of non-negative width and height
    have a point in common: the corner made of the larger of the two left
    edges and the larger of the two top edges is contained in both. *)
Theorem X2_intersecting_rectangles_share_a_point (a b : Rectangle.t) :
  0 <= Rectangle.width a -> 0 <= Rectangle.height a ->
  0 <= Rectangle.width b -> 0 <= Rectangle.height b ->
  Rectangle.intersects a b = true ->
  let px := JS.max (Rectangle.left a) (Rectangle.left b) in
  let py := JS.max (Rectangle.top a) (Rectangle.top b) in
  Rectangle.contains a px py = true /\ Rectangle.contains b px py = true.
Proof.
  intros Wa Ha Wb Hb H px py.
  apply intersects_true in H. destruct H as (H1 & H2 & H3 & H4).
  unfold Rectangle.right, Rectangle.left, Rectangle.bottom, Rectangle.top in *.
  assert (Hx : Rectangle.x a <= px /\ Rectangle.x b <= px
               /\ px <= Rectangle.x a + Rectangle.width a
               /\ px <= Rectangle.x b + Rectangle.width b).
  { subst px. destruct (JS_max_cases (Rectangle.x a) (Rectangle.x b))
      as [[L E] | [L E]]; rewrite E; repeat split; lra. }
  assert (Hy : Rectangle.y a <= py /\ Rectangle.y b <= py
               /\ py <= Rectangle.y a + Rectangle.height a
               /\ py <= Rectangle.y b + Rectangle.height b).
  { subst py. destruct (JS_max_cases (Rectangle.y a) (Rectangle.y b))
      as [[L E] | [L E]]; rewrite E; repeat split; lra. }
  unfold Rectangle.contains, Rectangle.right, Rectangle.left, Rectangle.bottom,
    Rectangle.top.
  rewrite !andb_true_iff, !JS_ge_true, !JS_le_true. repeat split; lra.
Qed.

(** Two crossing rectangles share the point [(2, 2)]. *)
Lemma X2_witness :
  Rectangle.contains (Rectangle.new 0 0 4 5)
    (JS.max (Rectangle.left (Rectangle.new 0 0 4 5))
            (Rectangle.left (Rectangle.new 2 2 4 5)))
    (JS.max (Rectangle.top (Rectangle.new 0 0 4 5))
            (Rectangle.top (Rectangle.new 2 2 4 5))) = true.
Proof.
  refine (proj1 (X2_intersecting_rectangles_share_a_point
                   (Rectangle.new 0 0 4 5) (Rectangle.new 2 2 4 5)
                   _ _ _ _ eq_refl)); discriminate.
Defined.

(** ** GameState *)

Lemma unlock_achievements (b : bool) (id : string) (g : GameState.t) :
  GameState.achievements g ⊆ GameState.achievements (GameState.unlock b id g)
  /\ (b = true -> id ∈ GameState.achievements (GameState.unlock b id g)).
Proof.
  unfold GameState.unlock.
  destruct b; cbn [andb].
  - destruct (bool_decide (id ∈ GameState.achievements g)) eqn:E; cbn.
    + apply bool_decide_eq_true in E. split; [set_solver | auto].
    + split; [set_solver | intros _; set_solver].
  - split; [set_solver | discriminate].
Qed.

Lemma checkScoreAchievements_achievements (g : GameState.t) :
  GameState.achievements g
  ⊆ GameState.achievements (GameState.checkScoreAchievements g)
  /\ (10000 <= GameState.score g ->
      "score_10k" ∈ GameState.achievements (GameState.checkScoreAchievements g))
  /\ (50000 <= GameState.score g ->
      "score_50k" ∈ GameState.achievements (GameState.checkScoreAchievements g)).
Proof.
  unfold GameState.checkScoreAchievements; cbv zeta.
  destruct (unlock_achievements (JS.ge (GameState.score g) 10000) "score_10k" g)
    as [S1 I1].
  destruct (unlock_fields (JS.ge (GameState.score g) 10000) "score_10k" g)
    as (E1 & _).
  set (g1 := GameState.unlock _ "score_10k" g) in *.
  destruct (unlock_achievements (JS.ge (GameState.score g1) 50000) "score_50k" g1)
    as [S2 I2].
  split; [set_solver |]. split.
  - intros H. apply S2, I1. now apply JS_ge_true.
  - intros H. apply I2. rewrite E1. now apply JS_ge_true.
Qed.

Lemma checkLevelAchievements_achievements (g : GameState.t) :
  GameState.achievements g
  ⊆ GameState.achievements (GameState.checkLevelAchievements g)
  /\ ((5 <= GameState.currentLevel g)%Z ->
      "level_5" ∈ GameState.achievements (GameState.checkLevelAchievements g))
  /\ ((10 <= GameState.currentLevel g)%Z ->
      "level_10" ∈ GameState.achievements (GameState.checkLevelAchievements g)).
Proof.
  unfold GameState.checkLevelAchievements; cbv zeta.
  destruct (unlock_achievements (5 <=? GameState.currentLevel g)%Z "level_5" g)
    as [S1 I1].
  destruct (unlock_fields (5 <=? GameState.currentLevel g)%Z "level_5" g)
    as (_ & _ & E1 & _).
  set (g1 := GameState.unlock _ "level_5" g) in *.
  destruct (unlock_achievements (10 <=? GameState.currentLevel g1)%Z "level_10" g1)
    as [S2 I2].
  split; [set_solver |]. split.
  - intros H. apply S2, I1. now apply Z.leb_le.
  - intros H. apply I2. rewrite E1. now apply Z.leb_le.
Qed.

Lemma addScore_achievements (points : Q) (g : GameState.t) :
  GameState.achievements g ⊆ GameState.achievements (GameState.addScore points g).
Proof.
  unfold GameState.addScore; cbv zeta.
  match goal with
  | |- _ ⊆ GameState.achievements (GameState.checkScoreAchievements ?g2) =>
      assert (H := proj1 (checkScoreAchievements_achievements g2));
      assert (E : GameState.achievements g2 = GameState.achievements g)
        by (destruct (JS.gt _ _); reflexivity)
  end.
  rewrite E in H. exact H.
Qed.

(** The high score after [addScore] is the larger of the old high score
    and the new score. *)
Lemma addScore_highScore_max (points : Q) (g : GameState.t) :
  GameState.highScore (GameState.addScore points g)
  == JS.max (GameState.highScore g)
            (GameState.score (GameState.addScore points g))
  /\ GameState.highScore g <= GameState.highScore (GameState.addScore points g).
Proof.
  rewrite addScore_score, addScore_highScore.
  destruct (JS_max_cases (GameState.highScore g) (GameState.score g + points))
    as [[L E] | [L E]]; rewrite E;
    destruct (JS.gt _ _) eqn:C; js_props; split; lra.
Qed.

Lemma addScore_currentLevel (points : Q) (g : GameState.t) :
  GameState.currentLevel (GameState.addScore points g) = GameState.currentLevel g.
Proof.
  unfold GameState.addScore; cbv zeta.
  unfold GameState.checkScoreAchievements; cbv zeta.
  rewrite (proj1 (proj2 (proj2 (unlock_fields _ "score_50k" _)))).
  rewrite (proj1 (proj2 (proj2 (unlock_fields _ "score_10k" _)))).
  destruct (JS.gt _ _); reflexivity.
Qed.

Lemma nextLevel_currentLevel (g : GameState.t) :
  GameState.currentLevel (GameState.nextLevel g) = (GameState.currentLevel g + 1)%Z.
Proof.
  unfold GameState.nextLevel; cbv zeta.
  unfold GameState.checkLevelAchievements; cbv zeta.
  rewrite (proj1 (proj2 (proj2 (unlock_fields _ "level_10" _)))).
  rewrite (proj1 (proj2 (proj2 (unlock_fields _ "level_5" _)))).
  now rewrite addScore_currentLevel.
Qed.

(** [nextLevel] raises the level by one, adds [1000] times the new level
    to the score, leaves the lives alone and keeps the high score at the
    maximum of its old value and the new score. *)
Theorem nextLevel_bonus (g : GameState.t) :
  GameState.currentLevel (GameState.nextLevel g) = (GameState.currentLevel g + 1)%Z
  /\ GameState.score (GameState.nextLevel g)
     = GameState.score g + 1000 * inject_Z (GameState.currentLevel g + 1)
  /\ GameState.lives (GameState.nextLevel g) = GameState.lives g
  /\ GameState.highScore (GameState.nextLevel g)
     == JS.max (GameState.highScore g) (GameState.score (GameState.nextLevel g)).
Proof.
  split; [apply nextLevel_currentLevel |].
  unfold GameState.nextLevel; cbv zeta.
  set (g1 := GameState.mk _ _ (GameState.currentLevel g + 1)%Z _ _).
  set (pts := 1000 * inject_Z (GameState.currentLevel g1)).
  destruct (checkLevelAchievements_fields (GameState.addScore pts g1))
    as (E1 & E2 & E3).
  rewrite E1, E2, E3.
  split; [exact (addScore_score pts g1) |].
  split; [exact (addScore_lives pts g1) |].
  exact (proj1 (addScore_highScore_max pts g1)).
Qed.

Lemma perform_keeps (g : GameState.t) (c : GameState.call) :
  GameState.achievements g ⊆ GameState.achievements (GameState.perform g c)
  /\ GameState.highScore g <= GameState.highScore (GameState.perform g c).
Proof.
  destruct c; cbn [GameState.perform].
  - split; [apply addScore_achievements | apply addScore_highScore_max].
  - split; [reflexivity | apply Qle_refl].
  - split; [reflexivity | apply Qle_refl].
  - unfold GameState.nextLevel; cbv zeta.
    set (g1 := GameState.mk _ _ (GameState.currentLevel g + 1)%Z _ _).
    set (pts := 1000 * inject_Z (GameState.currentLevel g1)).
    split.
    + etransitivity;
        [| apply (proj1 (checkLevelAchievements_achievements _))].
      exact (addScore_achievements pts g1).
    + rewrite (proj2 (proj2 (checkLevelAchievements_fields _))).
      exact (proj2 (addScore_highScore_max pts g1)).
  - split; [reflexivity | apply Qle_refl].
Qed.

(** X3.  However a [GameState] is used, through any sequence of [addScore],
    [loseLife], [gainLife], [nextLevel] and [reset] calls, no achievement
    is ever removed and the high score never goes down ([reset] keeps
    both). *)
Theorem X3_achievements_and_highScore_only_grow
    (cs : list GameState.call) (g : GameState.t) :
  GameState.achievements g ⊆ GameState.achievements (GameState.run cs g)
  /\ GameState.highScore g <= GameState.highScore (GameState.run cs g).
Proof.
  revert g. induction cs as [| c cs IH]; intros g.
  - split; [reflexivity | apply Qle_refl].
  - change (GameState.run (c :: cs) g)
      with (GameState.run cs (GameState.perform g c)).
    destruct (perform_keeps g c) as [A H].
    destruct (IH (GameState.perform g c)) as [A' H'].
    split; [| lra].
    transitivity (GameState.achievements (GameState.perform g c)); assumption.
Qed.

(** X4.  The milestones are awarded at once: after [addScore] a score of at
    least [10000] (resp. [50000]) comes with the achievement [score_10k]
    (resp. [score_50k]), and after [nextLevel] a level of at least [5]
    (resp. [10]) comes with [level_5] (resp. [level_10]). *)
Theorem X4_milestones_unlock_achievements (g : GameState.t) (points : Q) :
  (10000 <= GameState.score (GameState.addScore points g) ->
   "score_10k" ∈ GameState.achievements (GameState.addScore points g))
  /\ (50000 <= GameState.score (GameState.addScore points g) ->
      "score_50k" ∈ GameState.achievements (GameState.addScore points g))
  /\ ((5 <= GameState.currentLevel (GameState.nextLevel g))%Z ->
      "level_5" ∈ GameState.achievements (GameState.nextLevel g))
  /\ ((10 <= GameState.currentLevel (GameState.nextLevel g))%Z ->
      "level_10" ∈ GameState.achievements (GameState.nextLevel g)).
Proof.
  assert (HS : forall g2,
             GameState.score (GameState.checkScoreAchievements g2)
             = GameState.score g2)
    by (intros; apply checkScoreAchievements_fields).
  split; [| split].
  - unfold GameState.addScore; cbv zeta. rewrite HS.
    apply checkScoreAchievements_achievements.
  - unfold GameState.addScore; cbv zeta. rewrite HS.
    apply checkScoreAchievements_achievements.
  - rewrite nextLevel_currentLevel.
    unfold GameState.nextLevel; cbv zeta.
    set (g1 := GameState.mk _ _ (GameState.currentLevel g + 1)%Z _ _).
    set (g2 := GameState.addScore _ g1).
    assert (E : GameState.currentLevel g2 = (GameState.currentLevel g + 1)%Z)
      by apply addScore_currentLevel.
    rewrite <- E. split; apply checkLevelAchievements_achievements.
Qed.

(** The score milestone at exactly [10000] points. *)
Lemma X4_witness :
  "score_10k" ∈ GameState.achievements
                  (GameState.addScore 10000 (GameState.new None)).
Proof.
  apply (proj1 (X4_milestones_unlock_achievements (GameState.new None) 10000)).
  vm_compute. discriminate.
Defined.

(** ** Enemy: damage and removal *)

Lemma iter_takeDamage_health (n : nat) (e : Enemy.t) :
  Enemy.health (Nat.iter n Enemy.takeDamage e) = (Enemy.health e - Z.of_nat n)%Z.
Proof.
  induction n as [| n IH]; [cbn; lia |].
  rewrite Nat.iter_succ. unfold Enemy.takeDamage at 1. cbn [Enemy.health Enemy.set_health].
  rewrite IH. lia.
Qed.

(** An enemy is alive after [n] hits exactly when [n] is less than its
    health; so a goomba or a flying enemy is removed by the first hit and
    a koopa or a spiky by the second. *)
Theorem enemy_dies_after_health_hits (n : nat) (e : Enemy.t) (x y : Q) :
  (Enemy.isAlive (Nat.iter n Enemy.takeDamage e) = true
   <-> (Z.of_nat n < Enemy.health e)%Z)
  /\ Enemy.isAlive (Enemy.new x y goomba) = true
  /\ Enemy.isAlive (Enemy.takeDamage (Enemy.new x y goomba)) = false
  /\ Enemy.isAlive (Enemy.takeDamage (Enemy.new x y flying)) = false
  /\ Enemy.isAlive (Enemy.takeDamage (Enemy.new x y koopa)) = true
  /\ Enemy.isAlive (Enemy.takeDamage (Enemy.takeDamage (Enemy.new x y koopa))) = false
  /\ Enemy.isAlive (Enemy.takeDamage (Enemy.new x y spiky)) = true
  /\ Enemy.isAlive (Enemy.takeDamage (Enemy.takeDamage (Enemy.new x y spiky))) = false.
Proof.
  split; [| repeat split].
  unfold Enemy.isAlive. rewrite iter_takeDamage_health, Z.ltb_lt. lia.
Qed.

Lemma Enemy_collideWith_frame (b : Rectangle.t) (e : Enemy.t) (platform : Platform.t) :
  Enemy.health (Enemy.collideWith b e platform) = Enemy.health e
  /\ Enemy.type (Enemy.collideWith b e platform) = Enemy.type e
  /\ Enemy.gravity (Enemy.collideWith b e platform) = Enemy.gravity e
  /\ (0 <= Vector2.y (Enemy.velocity e) ->
      0 <= Vector2.y (Enemy.velocity (Enemy.collideWith b e platform))).
Proof.
  unfold Enemy.collideWith; cbv zeta.
  split_ifs; cbn; repeat split; auto; intros; apply Qle_refl.
Qed.

Lemma Enemy_checkPlatformCollisions_frame (platforms : list Platform.t) (e : Enemy.t) :
  Enemy.health (Enemy.checkPlatformCollisions platforms e) = Enemy.health e
  /\ Enemy.type (Enemy.checkPlatformCollisions platforms e) = Enemy.type e
  /\ Enemy.gravity (Enemy.checkPlatformCollisions platforms e) = Enemy.gravity e
  /\ (0 <= Vector2.y (Enemy.velocity e) ->
      0 <= Vector2.y (Enemy.velocity (Enemy.checkPlatformCollisions platforms e))).
Proof.
  unfold Enemy.checkPlatformCollisions; cbv zeta.
  apply (fold_left_invariant _
           (fun a => Enemy.health a = Enemy.health e
                     /\ Enemy.type a = Enemy.type e
                     /\ Enemy.gravity a = Enemy.gravity e
                     /\ (0 <= Vector2.y (Enemy.velocity e) ->
                         0 <= Vector2.y (Enemy.velocity a)))).
  - intros a platform (H1 & H2 & H3 & H4).
    destruct (Enemy_collideWith_frame (Enemy.getBounds e) a platform)
      as (F1 & F2 & F3 & F4).
    rewrite F1, F2, F3. repeat split; auto.
  - cbn. auto.
Qed.

Lemma Enemy_checkEdgesAndWalls_frame (platforms : list Platform.t) (e : Enemy.t) :
  Enemy.health (Enemy.checkEdgesAndWalls platforms e) = Enemy.health e
  /\ Enemy.type (Enemy.checkEdgesAndWalls platforms e) = Enemy.type e
  /\ Enemy.gravity (Enemy.checkEdgesAndWalls platforms e) = Enemy.gravity e
  /\ Enemy.velocity (Enemy.checkEdgesAndWalls platforms e) = Enemy.velocity e
  /\ Enemy.y (Enemy.checkEdgesAndWalls platforms e) = Enemy.y e.
Proof.
  unfold Enemy.checkEdgesAndWalls; cbv zeta.
  destruct (Enemy.isGrounded e); [| auto].
  destruct (negb _); cbn; auto.
Qed.

Lemma Enemy_updateGroundMovement_frame (dt : Q) (platforms : list Platform.t)
    (e : Enemy.t) :
  Enemy.health (Enemy.updateGroundMovement dt platforms e) = Enemy.health e
  /\ Enemy.type (Enemy.updateGroundMovement dt platforms e) = Enemy.type e
  /\ Enemy.gravity (Enemy.updateGroundMovement dt platforms e) = Enemy.gravity e
  /\ (0 <= dt -> 0 <= Enemy.gravity e -> 0 <= Vector2.y (Enemy.velocity e) ->
      0 <= Vector2.y (Enemy.velocity (Enemy.updateGroundMovement dt platforms e))).
Proof.
  unfold Enemy.updateGroundMovement; cbv zeta.
  match goal with
  | |- context [Enemy.checkPlatformCollisions platforms ?e4] =>
      destruct (Enemy_checkPlatformCollisions_frame platforms e4)
        as (C1 & C2 & C3 & C4);
      destruct (Enemy_checkEdgesAndWalls_frame platforms
                  (Enemy.checkPlatformCollisions platforms e4))
        as (W1 & W2 & W3 & W4 & _)
  end.
  rewrite W1, W2, W3, W4, C1, C2, C3. cbn in *.
  repeat split. intros Hd Hg Hv. apply C4. nra.
Qed.

Lemma Enemy_updateAnimation_frame (dt : Q) (e : Enemy.t) :
  Enemy.health (Enemy.updateAnimation dt e) = Enemy.health e
  /\ Enemy.type (Enemy.updateAnimation dt e) = Enemy.type e
  /\ Enemy.gravity (Enemy.updateAnimation dt e) = Enemy.gravity e
  /\ Enemy.velocity (Enemy.updateAnimation dt e) = Enemy.velocity e
  /\ Enemy.x (Enemy.updateAnimation dt e) = Enemy.x e
  /\ Enemy.y (Enemy.updateAnimation dt e) = Enemy.y e
  /\ Enemy.isGrounded (Enemy.updateAnimation dt e) = Enemy.isGrounded e.
Proof.
  unfold Enemy.updateAnimation; cbv zeta. destruct (JS.ge _ _); cbn; auto 10.
Qed.

Lemma Enemy_checkBounds_frame (w h : Q) (e : Enemy.t) :
  Enemy.health (Enemy.checkBounds w h e)
  = (if JS.gt (Enemy.y e) (h + 100) then 0%Z else Enemy.health e)
  /\ Enemy.type (Enemy.checkBounds w h e) = Enemy.type e
  /\ Enemy.gravity (Enemy.checkBounds w h e) = Enemy.gravity e
  /\ Enemy.velocity (Enemy.checkBounds w h e) = Enemy.velocity e
  /\ Enemy.x (Enemy.checkBounds w h e) = Enemy.x e
  /\ Enemy.y (Enemy.checkBounds w h e) = Enemy.y e
  /\ Enemy.isGrounded (Enemy.checkBounds w h e) = Enemy.isGrounded e.
Proof.
  unfold Enemy.checkBounds; cbv zeta.
  destruct (_ || _); cbn; destruct (JS.gt _ _); cbn; auto 10.
Qed.

Lemma Enemy_updateMovement_health (sin : Q -> Q) (dt : Q)
    (platforms : list Platform.t) (e : Enemy.t) :
  Enemy.health (Enemy.updateMovement sin dt platforms e) = Enemy.health e.
Proof.
  unfold Enemy.updateMovement.
  destruct (Enemy.type e);
    try apply Enemy_updateGroundMovement_frame; reflexivity.
Qed.

(** X5.  [Enemy.update] removes an enemy by the fall rule only: the updated
    enemy is alive exactly when it was alive before and does not end below
    [level.height + 100]; whatever it collides with, its health is
    otherwise left alone. *)
Theorem X5_enemy_update_kills_only_the_fallen
    (sin : Q -> Q) (dt W H : Q) (platforms : list Platform.t) (e : Enemy.t) :
  let e' := Enemy.update sin dt W H platforms e in
  (Enemy.isAlive e' = true
   <-> Enemy.isAlive e = true /\ Enemy.y e' <= H + 100)
  /\ (Enemy.y e' <= H + 100 -> Enemy.health e' = Enemy.health e)
  /\ (H + 100 < Enemy.y e' -> Enemy.health e' = 0%Z).
Proof.
  intros e'. subst e'. unfold Enemy.update; cbv zeta.
  set (e2 := Enemy.updateAnimation dt (Enemy.updateMovement sin dt platforms e)).
  assert (Hh : Enemy.health e2 = Enemy.health e).
  { unfold e2. rewrite (proj1 (Enemy_updateAnimation_frame _ _)).
    apply Enemy_updateMovement_health. }
  destruct (Enemy_checkBounds_frame W H e2) as (B1 & _ & _ & _ & _ & B2 & _).
  unfold Enemy.isAlive. rewrite B1, B2, Hh.
  destruct (JS.gt (Enemy.y e2) (H + 100)) eqn:C; js_props.
  - split; [| split; [intros; lra | reflexivity]].
    split; [discriminate | intros [_ L]; lra].
  - split; [| split; [reflexivity | intros; lra]].
    split; [intros A; split; [exact A | exact C] | tauto].
Qed.

(** X6.  A ground enemy never moves upward: with [dt >= 0] and a non-negative
    gravity (the constructor's is [600]), an enemy of type goomba, koopa or
    spiky whose [velocity.y] is non-negative still has a non-negative
    [velocity.y] after [update], whatever platforms it meets; type and
    gravity are unchanged, so this holds frame after frame. *)
Theorem X6_ground_enemy_never_rises
    (sin : Q -> Q) (dt W H : Q) (platforms : list Platform.t) (e : Enemy.t) :
  Enemy.type e <> flying ->
  0 <= dt ->
  0 <= Enemy.gravity e ->
  0 <= Vector2.y (Enemy.velocity e) ->
  let e' := Enemy.update sin dt W H platforms e in
  0 <= Vector2.y (Enemy.velocity e')
  /\ Enemy.type e' = Enemy.type e
  /\ Enemy.gravity e' = Enemy.gravity e.
Proof.
  intros Ht Hd Hg Hv e'. subst e'. unfold Enemy.update; cbv zeta.
  destruct (Enemy_checkBounds_frame W H
              (Enemy.updateAnimation dt (Enemy.updateMovement sin dt platforms e)))
    as (_ & B2 & B3 & B4 & _).
  destruct (Enemy_updateAnimation_frame dt
              (Enemy.updateMovement sin dt platforms e))
    as (_ & A2 & A3 & A4 & _).
  rewrite B2, B3, B4, A2, A3, A4.
  assert (E : Enemy.updateMovement sin dt platforms e
              = Enemy.updateGroundMovement dt platforms e).
  { unfold Enemy.updateMovement. destruct (Enemy.type e); congruence. }
  rewrite E.
  destruct (Enemy_updateGroundMovement_frame dt platforms e) as (_ & G2 & G3 & G4).
  auto.
Qed.

(** A goomba just built, one sixtieth of a second over a ground tile. *)
Lemma X6_witness :
  0 <= Vector2.y
         (Enemy.velocity
            (Enemy.update flat_sin (1 # 60) 2048 576
               [Platform.new 256 512 128 64 ground] (Enemy.new 300 448 goomba))).
Proof.
  refine (proj1 (X6_ground_enemy_never_rises flat_sin (1 # 60) 2048 576
                   [Platform.new 256 512 128 64 ground]
                   (Enemy.new 300 448 goomba) _ _ _ _));
    discriminate.
Defined.

(** X7.  A flying enemy ignores the platforms: its update is the same against
    any two platform lists, it moves horizontally by exactly
    [direction * speed * dt], and neither its velocity nor its grounded
    flag is touched; with [|sin| <= 1] and [dt >= 0] it moves vertically
    by at most [30 * dt]. *)
Theorem X7_flying_enemy_ignores_platforms
    (sin : Q -> Q) (dt W H : Q) (platforms platforms' : list Platform.t)
    (e : Enemy.t) :
  Enemy.type e = flying ->
  let e' := Enemy.update sin dt W H platforms e in
  e' = Enemy.update sin dt W H platforms' e
  /\ Enemy.x e' = Enemy.x e + Enemy.direction e * Enemy.speed e * dt
  /\ Enemy.velocity e' = Enemy.velocity e
  /\ Enemy.isGrounded e' = Enemy.isGrounded e
  /\ ((forall a, -1 <= sin a <= 1) -> 0 <= dt ->
      Enemy.y e - 30 * dt <= Enemy.y e' <= Enemy.y e + 30 * dt).
Proof.
  intros Ht e'. subst e'. unfold Enemy.update; cbv zeta.
  unfold Enemy.updateMovement. rewrite Ht.
  split; [reflexivity |].
  destruct (Enemy_checkBounds_frame W H
              (Enemy.updateAnimation dt (Enemy.updateFlyingMovement sin dt e)))
    as (_ & _ & _ & B4 & B5 & B6 & B7).
  destruct (Enemy_updateAnimation_frame dt (Enemy.updateFlyingMovement sin dt e))
    as (_ & _ & _ & A4 & A5 & A6 & A7).
  rewrite B4, B5, B6, B7, A4, A5, A6, A7.
  unfold Enemy.updateFlyingMovement; cbn.
  repeat split;
    match goal with
    | Hs : forall a, _ <= sin a <= _ |- _ =>
        destruct (Hs ((Enemy.flyingTimer e + dt) * 4)) as [L U]; nra
    end.
Qed.

(** A flying enemy just built, against a ground tile and against nothing. *)
Lemma X7_witness :
  Enemy.update flat_sin (1 # 60) 2048 576
    [Platform.new 256 512 128 64 ground] (Enemy.new 300 448 flying)
  = Enemy.update flat_sin (1 # 60) 2048 576 [] (Enemy.new 300 448 flying).
Proof.
  exact (proj1 (X7_flying_enemy_ignores_platforms flat_sin (1 # 60) 2048 576
                  [Platform.new 256 512 128 64 ground] []
                  (Enemy.new 300 448 flying) eq_refl)).
Defined.

(** ** Platforms, collectibles and power-ups in motion *)

Lemma Platform_update_frame (sin : Q -> Q) (dt : Q) (p : Platform.t) :
  Platform.y (Platform.update sin dt p) = Platform.y p
  /\ Platform.width (Platform.update sin dt p) = Platform.width p
  /\ Platform.height (Platform.update sin dt p) = Platform.height p
  /\ Platform.type (Platform.update sin dt p) = Platform.type p.
Proof.
  destruct p as [x y w h ty ox oy ms mr md mt]. destruct ty; cbn; auto.
Qed.

Lemma Collectible_update_frame (sin : Q -> Q) (PI dt : Q) (c : Collectible.t) :
  Collectible.x (Collectible.update sin PI dt c) = Collectible.x c
  /\ Collectible.y (Collectible.update sin PI dt c) = Collectible.y c
  /\ Collectible.type (Collectible.update sin PI dt c) = Collectible.type c
  /\ Collectible.value (Collectible.update sin PI dt c) = Collectible.value c.
Proof.
  unfold Collectible.update; cbv zeta.
  destruct (match Collectible.type c with gem => _ | _ => _ end) as [f tm].
  cbn. auto.
Qed.

(** X8.  [Platform.update] touches moving platforms only, and of those only
    [x] and the time accumulator: [y], the size, the type and the origin
    never change; and with [|sin| <= 1] and a non-negative range a moving
    platform stays within [moveRange] of its origin. *)
Theorem X8_platform_update_stays_near_origin
    (sin : Q -> Q) (dt : Q) (p : Platform.t) :
  let p' := Platform.update sin dt p in
  (Platform.type p <> moving -> p' = p)
  /\ Platform.y p' = Platform.y p
  /\ Platform.width p' = Platform.width p
  /\ Platform.height p' = Platform.height p
  /\ Platform.type p' = Platform.type p
  /\ Platform.originalX p' = Platform.originalX p
  /\ Platform.moveRange p' = Platform.moveRange p
  /\ ((forall a, -1 <= sin a <= 1) -> 0 <= Platform.moveRange p ->
      Platform.type p = moving ->
      Platform.originalX p - Platform.moveRange p <= Platform.x p'
      <= Platform.originalX p + Platform.moveRange p).
Proof.
  destruct p as [x y w h ty ox oy ms mr md mt].
  destruct ty; cbn; repeat split; auto; try congruence;
    match goal with
    | Hs : forall a, _ <= sin a <= _ |- _ =>
        destruct (Hs ((mt + dt) * 2)) as [L U]; nra
    end.
Qed.

(** The first moving platform of a level, half a second in. *)
Lemma X8_witness :
  Platform.originalX (Platform.new 600 300 128 24 moving)
  - Platform.moveRange (Platform.new 600 300 128 24 moving)
  <= Platform.x (Platform.update flat_sin (1 # 2) (Platform.new 600 300 128 24 moving))
  <= Platform.originalX (Platform.new 600 300 128 24 moving)
     + Platform.moveRange (Platform.new 600 300 128 24 moving).
Proof.
  refine (proj2 (proj2 (proj2 (proj2 (proj2 (proj2 (proj2
            (X8_platform_update_stays_near_origin flat_sin (1 # 2)
               (Platform.new 600 300 128 24 moving)))))))) _ _ eq_refl).
  - intros a. split; discriminate.
  - discriminate.
Defined.

(** X9.  [Collectible.update] only animates: position, size, type and value
    are unchanged, and with [|sin| <= 1] the collision box is displaced
    vertically by at most [3] from the collectible's position. *)
Theorem X9_collectible_update_only_bobs
    (sin : Q -> Q) (PI dt : Q) (c : Collectible.t) :
  let c' := Collectible.update sin PI dt c in
  Collectible.x c' = Collectible.x c /\ Collectible.y c' = Collectible.y c
  /\ Collectible.width c' = Collectible.width c
  /\ Collectible.height c' = Collectible.height c
  /\ Collectible.type c' = Collectible.type c
  /\ Collectible.value c' = Collectible.value c
  /\ Rectangle.x (Collectible.getBounds c') = Collectible.x c
  /\ ((forall a, -1 <= sin a <= 1) ->
      Collectible.y c - 3 <= Rectangle.y (Collectible.getBounds c')
      <= Collectible.y c + 3).
Proof.
  intros c'. subst c'. unfold Collectible.update; cbv zeta.
  destruct (match Collectible.type c with gem => _ | _ => _ end) as [f tm].
  cbn. repeat split;
    match goal with
    | Hs : forall a, _ <= sin a <= _ |- _ =>
        destruct (Hs (Collectible.bobTimer c + dt * 4)) as [L U]; lra
    end.
Qed.

(** A coin, one sixtieth of a second on. *)
Lemma X9_witness :
  Collectible.y (Collectible.new 500 300 coin) - 3
  <= Rectangle.y (Collectible.getBounds
                    (Collectible.update flat_sin 3 (1 # 60)
                       (Collectible.new 500 300 coin)))
  <= Collectible.y (Collectible.new 500 300 coin) + 3.
Proof.
  refine (proj2 (proj2 (proj2 (proj2 (proj2 (proj2 (proj2
            (X9_collectible_update_only_bobs flat_sin 3 (1 # 60)
               (Collectible.new 500 300 coin)))))))) _).
  intros a. split; discriminate.
Defined.

(** ** Level: the frame update *)

Lemma updateEnemies_filter (sin : Q -> Q) (dt : Q) (l : Level.t) (es : list Enemy.t) :
  Level.updateEnemies sin dt l es
  = List.filter Enemy.isAlive
      (map (Enemy.update sin dt (Level.width l) (Level.height l) (Level.platforms l))
           es).
Proof.
  induction es as [| e es IH]; [reflexivity |].
  cbn [Level.updateEnemies map List.filter]. cbv zeta.
  destruct (Enemy.isAlive _); rewrite IH; reflexivity.
Qed.

(** X10.  [Level.update] updates every enemy against the level as it stands and
    keeps exactly the ones that are alive afterwards, so no dead enemy
    stays and none is added; it keeps the level's size and number; it
    moves no platform vertically and changes no platform's size or type;
    and it leaves the position, type and value of every collectible and
    the position and type of every power-up as they are. *)
Theorem X10_level_update_drops_dead_enemies_only
    (sin : Q -> Q) (PI dt : Q) (l : Level.t) :
  let l' := Level.update sin PI dt l in
  Level.enemies l'
  = List.filter Enemy.isAlive
      (map (Enemy.update sin dt (Level.width l) (Level.height l) (Level.platforms l))
           (Level.enemies l))
  /\ List.Forall (fun e => Enemy.isAlive e = true) (Level.enemies l')
  /\ (length (Level.enemies l') <= length (Level.enemies l))%nat
  /\ (Level.width l' = Level.width l /\ Level.height l' = Level.height l
      /\ Level.levelNumber l' = Level.levelNumber l)
  /\ map (fun p => (Platform.y p, Platform.width p, Platform.height p, Platform.type p))
         (Level.platforms l')
     = map (fun p => (Platform.y p, Platform.width p, Platform.height p, Platform.type p))
           (Level.platforms l)
  /\ map (fun c => (Collectible.x c, Collectible.y c, Collectible.type c,
                    Collectible.value c)) (Level.collectibles l')
     = map (fun c => (Collectible.x c, Collectible.y c, Collectible.type c,
                      Collectible.value c)) (Level.collectibles l)
  /\ map (fun p => (PowerUp.x p, PowerUp.y p, PowerUp.type p)) (Level.powerUps l')
     = map (fun p => (PowerUp.x p, PowerUp.y p, PowerUp.type p)) (Level.powerUps l).
Proof.
  intros l'. subst l'. unfold Level.update; cbv zeta.
  cbn [Level.enemies Level.width Level.height Level.levelNumber Level.platforms
       Level.collectibles Level.powerUps].
  rewrite updateEnemies_filter.
  split; [reflexivity |]. split.
  { apply List.Forall_forall. intros e He. now apply List.filter_In in He. }
  split.
  { etransitivity; [apply List.filter_length_le |].
    now rewrite List.length_map. }
  split; [auto |].
  rewrite !List.map_map. split; [| split].
  - apply List.map_ext. intros p.
    destruct (Platform_update_frame sin dt p) as (-> & -> & -> & ->).
    reflexivity.
  - apply List.map_ext. intros c.
    destruct (Collectible_update_frame sin PI dt c) as (-> & -> & -> & ->).
    reflexivity.
  - apply List.map_ext. intros p. reflexivity.
Qed.

(** ** Player: input *)

Lemma clamp_bounds (m v : Q) :
  0 <= m -> - m <= JS.max (- m) (JS.min m v) <= m.
Proof.
  intros Hm.
  destruct (JS_min_cases m v) as [[A E] | [A E]];
    destruct (JS_max_cases (- m) (JS.min m v)) as [[B F] | [B F]];
    rewrite F; split; lra.
Qed.

(** After [handleInput] the horizontal velocity is within
    [[-maxSpeed, maxSpeed]], whatever keys are held and whatever the
    velocity was (for a non-negative [maxSpeed], as the constructor and the
    speed power-up set it). *)
Theorem handleInput_limits_speed
    (input : InputManager.t) (dt : Q) (p : Player.t) :
  0 <= Player.maxSpeed p ->
  - Player.maxSpeed p <= Player.vx (Player.handleInput input dt p)
  <= Player.maxSpeed p.
Proof.
  intros Hm. unfold Player.handleInput; cbv zeta.
  split_ifs; cbn; apply (clamp_bounds _ _ Hm).
Qed.

(** A fresh player with no key held. *)
Lemma handleInput_limits_speed_witness :
  - Player.maxSpeed (Player.new 100 400)
  <= Player.vx (Player.handleInput no_keys (1 # 60) (Player.new 100 400))
  <= Player.maxSpeed (Player.new 100 400).
Proof.
  apply (handleInput_limits_speed no_keys (1 # 60) (Player.new 100 400)).
  discriminate.
Defined.

(** X11.  There is no jump in mid-air: [handleInput] leaves [velocity.y] of a
    player that is not grounded as it is, whatever keys are held; a
    grounded player holding space, up or w gets [velocity.y = -jumpPower]
    and stops being grounded. *)
Theorem X11_jump_needs_ground (input : InputManager.t) (dt : Q) (p : Player.t) :
  (Player.isGrounded p = false ->
   Player.vy (Player.handleInput input dt p) = Player.vy p
   /\ Player.isGrounded (Player.handleInput input dt p) = false)
  /\ (Player.isGrounded p = true ->
      InputManager.isPressed input "space" || InputManager.isPressed input "up"
      || InputManager.isPressed input "w" = true ->
      Player.vy (Player.handleInput input dt p) = - Player.jumpPower p
      /\ Player.isGrounded (Player.handleInput input dt p) = false).
Proof.
  split.
  - intros Hg. unfold Player.handleInput; cbv zeta.
    destruct (InputManager.isPressed input "left" || InputManager.isPressed input "a");
      [| destruct (InputManager.isPressed input "right"
                   || InputManager.isPressed input "d")];
      cbn; rewrite Hg, andb_false_r; split_ifs; cbn; auto.
  - intros Hg Hj. unfold Player.handleInput; cbv zeta. rewrite Hj.
    destruct (InputManager.isPressed input "left" || InputManager.isPressed input "a");
      [| destruct (InputManager.isPressed input "right"
                   || InputManager.isPressed input "d")];
      cbn; rewrite Hg; split_ifs; cbn; auto.
Qed.

(** Holding space on the ground and in the air. *)
Lemma X11_witness :
  Player.vy (Player.handleInput (InputManager.mk {[ "space"%string ]} ∅) (1 # 60)
               (Player.new 100 400))
  = Player.vy (Player.new 100 400).
Proof.
  exact (proj1 (proj1 (X11_jump_needs_ground
                         (InputManager.mk {[ "space"%string ]} ∅) (1 # 60)
                         (Player.new 100 400)) eq_refl)).
Defined.

(** ** Player: the grounded flag *)

Lemma Player_collideWith_isGrounded (b : Rectangle.t) (p : Player.t)
    (platform : Platform.t) :
  Player.isGrounded (Player.collideWith b p platform)
  = Player.isGrounded p || landsOn b platform.
Proof.
  unfold Player.collideWith, landsOn, Rectangle.overlaps; cbv zeta; cbn [fst snd].
  destruct (Rectangle.intersects _ _); cbn [andb];
    [| now rewrite orb_false_r].
  destruct (JS.lt (JS.min _ _) (JS.min _ _)); cbn [andb negb].
  - split_ifs; cbn; now rewrite orb_false_r.
  - destruct (JS.lt (Rectangle.centerY _) (Rectangle.centerY _)); cbn;
      [now rewrite orb_true_r | now rewrite orb_false_r].
Qed.

(** X12.  The grounded flag is recomputed from scratch by every
    [checkPlatformCollisions]: afterwards the player is grounded exactly
    when the rectangle it had on entry comes down on some platform of the
    level; the flag it had before does not matter, and in a level without
    platforms it is never grounded. *)
Theorem X12_grounded_means_landed_this_frame (level : Level.t) (p : Player.t) :
  Player.isGrounded (Player.checkPlatformCollisions level p)
  = existsb (landsOn (Player.getBounds p)) (Level.platforms level).
Proof.
  unfold Player.checkPlatformCollisions; cbv zeta.
  change (existsb (landsOn (Player.getBounds p)) (Level.platforms level))
    with (Player.isGrounded (Player.set_isGrounded false p)
          || existsb (landsOn (Player.getBounds p)) (Level.platforms level)).
  generalize (Player.set_isGrounded false p).
  induction (Level.platforms level) as [| platform l IH]; intros q;
    cbn [fold_left existsb].
  - now rewrite orb_false_r.
  - rewrite IH, Player_collideWith_isGrounded. now rewrite orb_assoc.
Qed.

(** ** Player: damage and power-ups again *)

(** A second hit right after the first changes nothing: [takeDamage]
    leaves the player invulnerable, so [takeDamage] twice is [takeDamage]
    once. *)
Theorem takeDamage_twice (p : Player.t) :
  Player.isInvulnerable (Player.takeDamage p) = true
  /\ Player.takeDamage (Player.takeDamage p) = Player.takeDamage p.
Proof.
  assert (H : Player.isInvulnerable (Player.takeDamage p) = true).
  { unfold Player.takeDamage.
    destruct (Player.isInvulnerable p) eqn:E; cbn [negb]; [exact E |].
    reflexivity. }
  split; [exact H |].
  unfold Player.takeDamage at 1. now rewrite H.
Qed.

Lemma TimerMap_set_set (k : PowerUpType.t) (v : Q) (m : TimerMap.t) :
  TimerMap.set k v (TimerMap.set k v m) = TimerMap.set k v m.
Proof.
  induction m as [| [k' v'] m IH]; cbn.
  - now rewrite decide_True.
  - destruct (decide (k = k')) as [-> | N]; cbn.
    + now rewrite decide_True.
    + rewrite decide_False by assumption. now rewrite IH.
Qed.

(** X13.  Power-ups do not stack: applying a kind that is already applied gives
    the same player as applying it once (the timer is back at [10] and the
    stat is again the multiple of the stored base value, not of the
    current one). *)
Theorem X13_applyPowerUp_twice (k : PowerUpType.t) (p : Player.t) :
  Player.applyPowerUp k (Player.applyPowerUp k p) = Player.applyPowerUp k p.
Proof.
  destruct k; unfold Player.applyPowerUp; cbn; rewrite TimerMap_set_set;
    reflexivity.
Qed.

(** ** Player: the fall limit and the animation frame *)

Lemma tickPowerUp_y dt p entry :
  Player.y (Player.tickPowerUp dt p entry) = Player.y p.
Proof.
  destruct entry as [k timer]. unfold Player.tickPowerUp.
  destruct (JS.le _ _); [destruct k |]; reflexivity.
Qed.

Lemma update_y_after_physics dt p2 :
  Player.y (Player.updateInvulnerability dt
              (Player.updateAnimation dt (Player.updatePowerUps dt p2)))
  = Player.y p2.
Proof.
  assert (A : forall q, Player.y (Player.updateInvulnerability dt q) = Player.y q)
    by (intros; unfold Player.updateInvulnerability; split_ifs; reflexivity).
  assert (B : forall q, Player.y (Player.updateAnimation dt q) = Player.y q)
    by (intros; unfold Player.updateAnimation; cbv zeta; split_ifs; reflexivity).
  rewrite A, B. unfold Player.updatePowerUps.
  apply (fold_left_invariant _ (fun q => Player.y q = Player.y p2));
    [| reflexivity].
  intros q entry <-. apply tickPowerUp_y.
Qed.

(** X14.  After [update] the player is never below the fall limit: in a level
    at least 300 high (the generated ones are 576 high) its [y] is at most
    [level.height + 100], because a player that ends the physics step
    below the limit is put back at the spawn point [(100, 400)]. *)
Theorem X14_player_never_left_below_fall_limit
    (dt : Q) (input : InputManager.t) (level : Level.t) (p : Player.t) :
  300 <= Level.height level ->
  Player.y (Player.update dt input level p) <= Level.height level + 100.
Proof.
  intros Hh. unfold Player.update; cbv zeta.
  rewrite update_y_after_physics.
  unfold Player.updatePhysics; cbv zeta.
  destruct (JS.gt _ _) eqn:C; js_props; [cbn; lra | exact C].
Qed.

(** A player falling out of the bottom of a generated level. *)
Lemma X14_witness :
  Player.y (Player.update (1 # 60) no_keys ground_level (Player.new 100 700))
  <= Level.height ground_level + 100.
Proof.
  apply (X14_player_never_left_below_fall_limit (1 # 60) no_keys ground_level
           (Player.new 100 700)).
  vm_compute. discriminate.
Defined.

(** The two fields that only [updateAnimation], [updateInvulnerability],
    [applyPowerUp] and [takeDamage] write. *)
Lemma physics_keeps_frame_and_timer dt input level p :
  let p3 := Player.updatePowerUps dt
              (Player.updatePhysics dt level (Player.handleInput input dt p)) in
  Player.animationFrame p3 = Player.animationFrame p
  /\ Player.invulnerabilityTimer p3 = Player.invulnerabilityTimer p.
Proof.
  cbv zeta.
  assert (A : forall q,
             Player.animationFrame (Player.handleInput input dt q)
             = Player.animationFrame q
             /\ Player.invulnerabilityTimer (Player.handleInput input dt q)
                = Player.invulnerabilityTimer q)
    by (intros; unfold Player.handleInput; cbv zeta; split_ifs; auto).
  assert (B : forall q,
             Player.animationFrame (Player.checkPlatformCollisions level q)
             = Player.animationFrame q
             /\ Player.invulnerabilityTimer (Player.checkPlatformCollisions level q)
                = Player.invulnerabilityTimer q).
  { intros q. unfold Player.checkPlatformCollisions; cbv zeta.
    apply (fold_left_invariant _
             (fun a => Player.animationFrame a = Player.animationFrame q
                       /\ Player.invulnerabilityTimer a
                          = Player.invulnerabilityTimer q)); [| auto].
    intros a platform [<- <-]. unfold Player.collideWith; cbv zeta.
    split_ifs; auto. }
  assert (C : forall q,
             Player.animationFrame (Player.updatePhysics dt level q)
             = Player.animationFrame q
             /\ Player.invulnerabilityTimer (Player.updatePhysics dt level q)
                = Player.invulnerabilityTimer q).
  { intros q. unfold Player.updatePhysics; cbv zeta.
    match goal with
    | |- context [Player.checkPlatformCollisions level ?q3] =>
        destruct (B q3) as [B1 B2];
        set (p4 := Player.checkPlatformCollisions level q3) in *
    end.
    destruct (JS.gt _ _); cbn; cbn in B1, B2; auto. }
  assert (D : forall q,
             Player.animationFrame (Player.updatePowerUps dt q)
             = Player.animationFrame q
             /\ Player.invulnerabilityTimer (Player.updatePowerUps dt q)
                = Player.invulnerabilityTimer q).
  { intros q. unfold Player.updatePowerUps.
    apply (fold_left_invariant _
             (fun a => Player.animationFrame a = Player.animationFrame q
                       /\ Player.invulnerabilityTimer a
                          = Player.invulnerabilityTimer q)); [| auto].
    intros a [k timer] [<- <-]. unfold Player.tickPowerUp.
    destruct (JS.le _ _); [destruct k |]; auto. }
  destruct (D (Player.updatePhysics dt level (Player.handleInput input dt p)))
    as [-> ->].
  destruct (C (Player.handleInput input dt p)) as [-> ->]. apply A.
Qed.

Lemma update_invulnerabilityTimer dt input level p :
  Player.invulnerabilityTimer (Player.update dt input level p)
  = if JS.gt (Player.invulnerabilityTimer p) 0
    then JS.sub (Player.invulnerabilityTimer p) dt
    else Player.invulnerabilityTimer p.
Proof.
  unfold Player.update; cbv zeta.
  destruct (physics_keeps_frame_and_timer dt input level p) as [_ T].
  cbv zeta in T.
  set (p3 := Player.updatePowerUps dt _) in *.
  assert (A : Player.invulnerabilityTimer (Player.updateAnimation dt p3)
              = Player.invulnerabilityTimer p3)
    by (unfold Player.updateAnimation; cbv zeta; split_ifs; reflexivity).
  unfold Player.updateInvulnerability. rewrite A, T.
  destruct (JS.gt _ _); cbn; rewrite ?A, ?T; reflexivity.
Qed.

Lemma fold_tickPowerUp_absent K dt (es : TimerMap.t) :
  TimerMap.get K es = None ->
  forall p,
    TimerMap.get K (Player.powerUpTimers (fold_left (Player.tickPowerUp dt) es p))
    = TimerMap.get K (Player.powerUpTimers p).
Proof.
  induction es as [| [k timer] es IH]; intros Hn p; cbn [fold_left];
    [reflexivity |].
  cbn [TimerMap.get] in Hn.
  destruct (decide (K = k)) as [-> | N]; [discriminate |].
  rewrite (IH Hn), tickPowerUp_get. now rewrite decide_False.
Qed.

Lemma update_keeps_absent K dt input level p :
  TimerMap.get K (Player.powerUpTimers p) = None ->
  TimerMap.get K (Player.powerUpTimers (Player.update dt input level p)) = None.
Proof.
  intros Hn. unfold Player.update; cbv zeta.
  rewrite (powerState_timers _ _ (update_powerState_after dt _)).
  assert (S2 := update_powerState_before dt input level p).
  set (p2 := Player.updatePhysics dt level _) in *.
  unfold Player.updatePowerUps.
  rewrite fold_tickPowerUp_absent;
    rewrite (powerState_timers _ _ S2); exact Hn.
Qed.

Lemma calm_elapsed_nonneg (acts : list action) :
  List.Forall calm acts -> 0 <= elapsed acts.
Proof.
  induction 1 as [| a acts Ha _ IH]; cbn; [apply Qle_refl |].
  destruct a; cbn in Ha; try lra; tauto.
Qed.

(** The invulnerability timer through a calm run of [n] actions: each
    update subtracts [dt] as doubles do, off by at most half of
    [Number.EPSILON], relatively.  So the timer is still positive while
    the elapsed time is below it by the factor [1 - n * EPSILON], and it
    is used up once the elapsed time exceeds it by [1 + n * EPSILON]. *)
Lemma invulnerability_runs_down (acts : list action) :
  List.Forall calm acts ->
  JS.num (length acts) * JS.EPSILON <= 1 ->
  forall q,
    TimerMap.get PowerUpType.invincible (Player.powerUpTimers q) = None ->
    TimerMap.get PowerUpType.invincible
      (Player.powerUpTimers (simulate acts q)) = None
    /\ (0 < Player.invulnerabilityTimer q ->
        elapsed acts
        < Player.invulnerabilityTimer q * (1 - JS.num (length acts) * JS.EPSILON) ->
        0 < Player.invulnerabilityTimer (simulate acts q))
    /\ (Player.invulnerabilityTimer q * (1 + JS.num (length acts) * JS.EPSILON)
        <= elapsed acts ->
        Player.invulnerabilityTimer (simulate acts q) <= 0).
Proof.
  induction 1 as [| a acts Ha Hc IH]; intros Hlen q Hn.
  - cbn. change (JS.num 0) with 0. repeat split; auto; intros; lra.
  - change (simulate (a :: acts) q) with (simulate acts (act q a)).
    assert (He := calm_elapsed_nonneg acts Hc).
    cbn [length] in *. rewrite num_S in Hlen. rewrite !num_S.
    assert (Hm := num_nonneg (length acts)).
    assert (He0 : 0 < JS.EPSILON) by reflexivity.
    set (M := JS.num (length acts)) in *. set (e := JS.EPSILON) in *.
    assert (P1 : 0 <= M * e) by (apply Qmult_le_0_compat; lra).
    assert (Hlen' : M * e <= 1) by lra.
    specialize (IH Hlen').
    destruct a as [dt input level | k | | |]; cbn in Ha; try tauto;
      cbn [elapsed act].
    + destruct (IH (Player.update dt input level q)
                  (update_keeps_absent _ dt input level q Hn)) as (I1 & I2 & I3).
      rewrite update_invulnerabilityTimer in I2, I3.
      split; [exact I1 |].
      set (t := Player.invulnerabilityTimer q) in *.
      destruct (JS.gt t 0) eqn:C; js_props.
      * destruct (Qlt_le_dec dt t) as [Hx | Hx].
        -- destruct (sub_pos t dt Hx) as (Sp & Sl & Su). fold e in Sl, Su.
           set (t' := JS.sub t dt) in *. clearbody t' t M e.
           assert (L1 : (1 - e * (1 # 2)) * (t - dt) * (1 - M * e)
                        <= t' * (1 - M * e))
             by (apply Qmult_le_compat_r; lra).
           assert (L2 : 1 - (M + 1) * e <= (1 - e * (1 # 2)) * (1 - M * e)) by nra.
           assert (L3 : (1 - (M + 1) * e) * (t - dt)
                        <= (1 - e * (1 # 2)) * (1 - M * e) * (t - dt))
             by (apply Qmult_le_compat_r; lra).
           assert (U1 : t' * (1 + M * e)
                        <= (1 + e * (1 # 2)) * (t - dt) * (1 + M * e))
             by (apply Qmult_le_compat_r; lra).
           assert (U2 : (1 + e * (1 # 2)) * (1 + M * e) <= 1 + (M + 1) * e) by nra.
           assert (U3 : (1 + e * (1 # 2)) * (1 + M * e) * (t - dt)
                        <= (1 + (M + 1) * e) * (t - dt))
             by (apply Qmult_le_compat_r; lra).
           assert (U4 : 0 <= (M + 1) * e * dt)
             by (apply Qmult_le_0_compat; [apply Qmult_le_0_compat |]; lra).
           split; intros; [apply I2; [exact Sp |] | apply I3]; lra.
        -- assert (Sn := sub_nonpos t dt Hx).
           set (t' := JS.sub t dt) in *. clearbody t' t M e.
           split.
           ++ intros _ Hlt. exfalso.
              assert (t * ((M + 1) * e) >= 0)
                by (apply Qle_ge, Qmult_le_0_compat; [| apply Qmult_le_0_compat]; lra).
              lra.
           ++ intros _. apply I3.
              assert (t' * (1 + M * e) <= 0 * (1 + M * e))
                by (apply Qmult_le_compat_r; lra).
              lra.
      * clearbody t M e. split; [intros; lra |].
        intros _. apply I3.
        assert (t * (1 + M * e) <= 0 * (1 + M * e))
          by (apply Qmult_le_compat_r; lra).
        lra.
    + destruct (IH (Player.bounce q) Hn) as (I1 & I2 & I3).
      change (Player.invulnerabilityTimer (Player.bounce q))
        with (Player.invulnerabilityTimer q) in *.
      set (t := Player.invulnerabilityTimer q) in *. clearbody t M e.
      split; [exact I1 |]. split.
      * intros Hp Hlt. apply I2; [exact Hp |].
        assert (0 <= t * e) by (apply Qmult_le_0_compat; lra). lra.
      * intros Hle. destruct (Qlt_le_dec 0 t) as [Hp | Hp].
        -- apply I3. assert (0 <= t * e) by (apply Qmult_le_0_compat; lra). lra.
        -- apply I3.
           assert (t * (1 + M * e) <= 0 * (1 + M * e))
             by (apply Qmult_le_compat_r; lra).
           lra.
    + destruct (IH (Player.respawn q) Hn) as (I1 & I2 & I3).
      change (Player.invulnerabilityTimer (Player.respawn q))
        with (Player.invulnerabilityTimer q) in *.
      set (t := Player.invulnerabilityTimer q) in *. clearbody t M e.
      split; [exact I1 |]. split.
      * intros Hp Hlt. apply I2; [exact Hp |].
        assert (0 <= t * e) by (apply Qmult_le_0_compat; lra). lra.
      * intros Hle. destruct (Qlt_le_dec 0 t) as [Hp | Hp].
        -- apply I3. assert (0 <= t * e) by (apply Qmult_le_0_compat; lra). lra.
        -- apply I3.
           assert (t * (1 + M * e) <= 0 * (1 + M * e))
             by (apply Qmult_le_compat_r; lra).
           lra.
Qed.

(** X15.  The invulnerability window is two seconds of updates, up to the
    rounding of the countdown.  After a hit on a vulnerable player, and
    while nothing hits it again or makes it invincible, through a run of
    [n] actions (at most [2^52]) the player is invulnerable as long as the
    updates since the hit add up to less than [2 * (1 - n * EPSILON)]
    seconds and vulnerable again once they add up to
    [2 * (1 + n * EPSILON)] seconds or more, for [EPSILON = 2^-52]; in
    between, the rounded subtractions decide. *)
Theorem X15_invulnerability_lasts_two_seconds (p : Player.t) (acts : list action) :
  Player.isInvulnerable p = false ->
  List.Forall calm acts ->
  JS.num (length acts) * JS.EPSILON <= 1 ->
  let p' := simulate acts (Player.takeDamage p) in
  (elapsed acts < 2 * (1 - JS.num (length acts) * JS.EPSILON) ->
   Player.isInvulnerable p' = true)
  /\ (2 * (1 + JS.num (length acts) * JS.EPSILON) <= elapsed acts ->
      Player.isInvulnerable p' = false).
Proof.
  intros Hv Hc Hlen p'. subst p'.
  assert (Hn : TimerMap.get PowerUpType.invincible
                 (Player.powerUpTimers (Player.takeDamage p)) = None).
  { rewrite (powerState_timers _ _ (takeDamage_powerState p)).
    unfold Player.isInvulnerable, TimerMap.has in Hv.
    apply orb_false_iff in Hv. destruct Hv as [_ Hv].
    destruct (TimerMap.get _ _); [discriminate | reflexivity]. }
  assert (Ht : Player.invulnerabilityTimer (Player.takeDamage p) = 2)
    by (unfold Player.takeDamage; rewrite Hv; reflexivity).
  destruct (invulnerability_runs_down acts Hc Hlen _ Hn) as (I1 & I2 & I3).
  rewrite Ht in I2, I3. unfold Player.isInvulnerable, TimerMap.has. rewrite I1.
  rewrite orb_false_r. split; intros He.
  - apply JS_gt_true, I2; [reflexivity | exact He].
  - apply JS_gt_false, I3, He.
Qed.

(** One second after a hit the player is still invulnerable. *)
Lemma X15_witness :
  Player.isInvulnerable
    (simulate [Update 1 no_keys ground_level] (Player.takeDamage (Player.new 100 400)))
  = true.
Proof.
  refine (proj1 (X15_invulnerability_lasts_two_seconds (Player.new 100 400)
                   [Update 1 no_keys ground_level] eq_refl _ _) _).
  - repeat constructor. discriminate.
  - vm_compute. discriminate.
  - vm_compute. reflexivity.
Defined.

Lemma invulnerabilityTimer_of_updates (dt : Q) (input : InputManager.t)
    (level : Level.t) (n : nat) :
  forall p,
    Player.invulnerabilityTimer (simulate (repeat (Update dt input level) n) p)
    = Nat.iter n (fun t => if JS.gt t 0 then JS.sub t dt else t)
        (Player.invulnerabilityTimer p).
Proof.
  induction n as [| n IH]; intros p; [reflexivity |].
  rewrite Nat.iter_succ_r. cbn [repeat].
  change (simulate (Update dt input level :: repeat (Update dt input level) n) p)
    with (simulate (repeat (Update dt input level) n)
            (Player.update dt input level p)).
  now rewrite IH, update_invulnerabilityTimer.
Qed.

(** Between the two bounds the rounding decides: 160 updates of [0.0125]
    seconds (the double, a little above one eightieth) add up to at least
    two seconds, and the player hit before them is still invulnerable. *)
Example invulnerability_outlasts_two_seconds :
  let dt := JS.double 0.0125 in
  let acts := repeat (Update dt no_keys ground_level) 160 in
  2 <= elapsed acts
  /\ Player.isInvulnerable (simulate acts (Player.takeDamage (Player.new 100 400)))
     = true.
Proof.
  cbv zeta. split.
  - rewrite elapsed_repeat. vm_compute. discriminate.
  - unfold Player.isInvulnerable. rewrite invulnerabilityTimer_of_updates.
    apply orb_true_iff. left. vm_compute. reflexivity.
Qed.

Lemma act_animationFrame (p : Player.t) (a : action) :
  (0 <= Player.animationFrame p <= 3)%Z ->
  (0 <= Player.animationFrame (act p a) <= 3)%Z.
Proof.
  intros H. destruct a as [dt input level | k | | |]; cbn [act].
  - unfold Player.update; cbv zeta.
    destruct (physics_keeps_frame_and_timer dt input level p) as [F _].
    cbv zeta in F. set (p3 := Player.updatePowerUps dt _) in *.
    assert (A : (0 <= Player.animationFrame (Player.updateAnimation dt p3) <= 3)%Z).
    { unfold Player.updateAnimation; cbv zeta.
      destruct (_ && _); [| cbn; lia].
      destruct (JS.ge _ _); cbn; rewrite F; [| exact H].
      assert (R := Z.rem_bound_pos (Player.animationFrame p + 1) 4). lia. }
    unfold Player.updateInvulnerability. destruct (JS.gt _ _); exact A.
  - destruct k; exact H.
  - unfold Player.takeDamage. destruct (negb _); exact H.
  - exact H.
  - exact H.
Qed.

(** X16.  The animation frame of a player built by the constructor is always
    one of [0, 1, 2, 3], whatever happens to the player. *)
Theorem X16_animation_frame_in_range (acts : list action) (x y : Q) :
  (0 <= Player.animationFrame (simulate acts (Player.new x y)) <= 3)%Z.
Proof.
  unfold simulate.
  apply (fold_left_invariant act (fun p => (0 <= Player.animationFrame p <= 3)%Z)).
  - intros p a. apply act_animationFrame.
  - cbn. lia.
Qed.

(** ** Player: standing still *)

Lemma has_empty (k : string) : InputManager.has k ∅ = false.
Proof. unfold InputManager.has. apply bool_decide_eq_false. set_solver. Qed.

Lemma handleInput_idle (input : InputManager.t) (dt : Q) (p : Player.t) :
  InputManager.keys input = ∅ ->
  Player.handleInput input dt p
  = Player.set_vx
      (JS.max (- Player.maxSpeed p)
              (JS.min (Player.maxSpeed p) (Player.vx p * 1 * Player.friction p)))
      (Player.set_vx (Player.vx p * 1 * Player.friction p)
         (Player.set_vx (Player.vx p * 1) (Player.set_isRunning false p))).
Proof.
  intros Hk. unfold Player.handleInput; cbv zeta.
  unfold InputManager.isPressed. rewrite Hk. cbn -[Qmult Qplus Qminus Qopp].
  rewrite !has_empty. reflexivity.
Qed.

(** [lra] reads [a * (1 # 2)] but not [a / 2]. *)
Ltac halves := unfold Qdiv in *; change (/ 2) with (1 # 2) in *.

Lemma rest_one_frame (dt : Q) (input : InputManager.t) (level : Level.t)
    (platform : Platform.t) (p : Player.t) :
  InputManager.keys input = ∅ ->
  restsOn dt level platform p ->
  let p' := Player.update dt input level p in
  restsOn dt level platform p'
  /\ Player.x p' == Player.x p /\ Player.y p' == Player.y p
  /\ Player.vy p' == 0 /\ Player.isGrounded p' = true.
Proof.
  intros Hk (HL & HT & Hvx & Hvy & Hfeet & Hs0 & Hsl & Hsr & Hc & Hm & Hx & Hy) p'.
  subst p'. unfold Player.update; cbv zeta.
  rewrite (handleInput_idle input dt p Hk).
  destruct p as [x y [vx vy] w h sp jp g fr ms gr run fac inv af atm asp tm bv].
  unfold Player.vx, Player.vy in *. cbn in HT, Hvx, Hvy, Hfeet, Hs0, Hsl, Hsr, Hc, Hm, Hx, Hy.
  subst tm.
  cbn [Player.maxSpeed Player.velocity Player.friction Vector2.x].
  set (A := JS.max (- ms) (JS.min ms (vx * 1 * fr))).
  assert (HA : A == 0).
  { assert (E : vx * 1 * fr == 0) by (rewrite Hvx; ring).
    subst A.
    destruct (JS_min_cases ms (vx * 1 * fr)) as [[L1 E1] | [L1 E1]];
      destruct (JS_max_cases (- ms) (JS.min ms (vx * 1 * fr)))
        as [[L2 E2] | [L2 E2]]; rewrite E2; lra. }
  assert (HAd : A * dt == 0) by (rewrite HA; ring).
  assert (Hvd : vy * dt == 0) by (rewrite Hvy; ring).
  clearbody A.
  unfold Player.updatePhysics; cbv zeta.
  unfold Player.checkPlatformCollisions; cbv zeta.
  rewrite HL. cbn [fold_left].
  unfold Player.collideWith; cbv zeta.
  match goal with
  | |- context [Rectangle.intersects ?b ?q] =>
      destruct (Rectangle.intersects b q) eqn:I
  end.
  2:{ exfalso. apply intersects_false in I. rect_unfold. lra. }
  match goal with
  | |- context [JS.lt (JS.min ?a ?b) (JS.min ?c ?d)] =>
      destruct (JS.lt (JS.min a b) (JS.min c d)) eqn:O
  end.
  { exfalso. js_props. rect_unfold.
    match type of O with
    | JS.min ?a ?b < JS.min ?c ?d =>
        destruct (JS_min_cases a b) as [[L1 E1] | [L1 E1]];
        destruct (JS_min_cases c d) as [[L2 E2] | [L2 E2]];
        rewrite E1, E2 in O; lra
    end. }
  match goal with
  | |- context [JS.lt (Rectangle.centerY ?b) (Rectangle.centerY ?q)] =>
      destruct (JS.lt (Rectangle.centerY b) (Rectangle.centerY q)) eqn:Cy
  end.
  2:{ exfalso. js_props. rect_unfold. halves. lra. }
  clear I O Cy.
  match goal with
  | |- context [JS.gt ?a ?b] => destruct (JS.gt a b) eqn:F
  end.
  { exfalso. js_props. rect_unfold. lra. }
  clear F.
  unfold Player.updatePowerUps, Player.updateAnimation, Player.updateInvulnerability.
  cbn -[Qplus Qminus Qmult Qopp Qle Qlt Qeq JS.max JS.min JS.gt JS.ge].
  set (X := JS.max 0 (JS.min (Level.width level - w) (x + A * dt))).
  assert (HX : X == x).
  { subst X.
    destruct (JS_min_cases (Level.width level - w) (x + A * dt))
      as [[L1 E1] | [L1 E1]];
      destruct (JS_max_cases 0 (JS.min (Level.width level - w) (x + A * dt)))
        as [[L2 E2] | [L2 E2]]; rewrite E2; lra. }
  clearbody X.
  destruct (JS.gt inv 0); unfold restsOn, Player.vx, Player.vy; cbn;
    repeat split; auto; try reflexivity; lra.
Qed.

(** X17.  A player at rest on a platform stays there: with no key held, over
    any number of frames its position does not change, its [velocity.y]
    is back at [0] after every frame, and from the first frame on it is
    grounded (gravity sinks it into the platform and the collision
    resolution puts it back on top, every frame). *)
Theorem X17_player_rests_on_platform
    (n : nat) (dt : Q) (input : InputManager.t) (level : Level.t)
    (platform : Platform.t) (p : Player.t) :
  InputManager.keys input = ∅ ->
  restsOn dt level platform p ->
  let pn := frames n dt input level p in
  Player.x pn == Player.x p /\ Player.y pn == Player.y p
  /\ Player.vy pn == 0
  /\ ((0 < n)%nat -> Player.isGrounded pn = true).
Proof.
  intros Hk Hr pn. subst pn.
  assert (H : restsOn dt level platform (frames n dt input level p)
              /\ Player.x (frames n dt input level p) == Player.x p
              /\ Player.y (frames n dt input level p) == Player.y p
              /\ Player.vy (frames n dt input level p) == 0
              /\ ((0 < n)%nat ->
                  Player.isGrounded (frames n dt input level p) = true)).
  { induction n as [| n IH].
    - cbn. split; [exact Hr |].
      split; [reflexivity |]. split; [reflexivity |].
      split; [apply Hr | lia].
    - destruct IH as (R & X & Y & _).
      unfold frames in *. rewrite Nat.iter_succ.
      destruct (rest_one_frame dt input level platform _ Hk R)
        as (R' & X' & Y' & V' & G').
      split; [exact R' |].
      split; [now rewrite X' |]. split; [now rewrite Y' |].
      split; [exact V' | intros _; exact G']. }
  tauto.
Qed.

(** One simulated second, sixty frames of [1/60] s, on the first ground
    tile. *)
Lemma X17_witness :
  Player.y (frames 60 (1 # 60) no_keys
              (Level.mk 2048 576 [Platform.new 0 512 128 64 ground] [] [] [] 1)
              (Player.new 40 464))
  == Player.y (Player.new 40 464).
Proof.
  refine (proj1 (proj2
            (X17_player_rests_on_platform 60 (1 # 60) no_keys
               (Level.mk 2048 576 [Platform.new 0 512 128 64 ground] [] [] [] 1)
               (Platform.new 0 512 128 64 ground) (Player.new 40 464)
               eq_refl _))).
  unfold restsOn.
  repeat split; vm_compute; try reflexivity; discriminate.
Defined.

(** ** The population of a generated level *)

(** The loop invariant again, now with the loop index: iteration [k]
    runs the body at [start + k]. *)
Lemma for_range_indexed {S : Type} (body : nat -> S -> Level.Gen S)
    (count : nat) :
  forall (start : nat) (I : nat -> S * nat -> Prop),
    (forall k s n, (k < count)%nat -> I k (s, n) ->
                   I (Datatypes.S k) (body (start + k)%nat s n)) ->
    forall s n, I 0%nat (s, n) -> I count (Level.for_range count start body s n).
Proof.
  induction count as [| count IH]; intros start I Hstep s n H0.
  - exact H0.
  - rewrite for_range_S.
    apply (IH (Datatypes.S start) (fun k => I (Datatypes.S k))).
    + intros k s' n' Hk H.
      replace (Datatypes.S start + k)%nat with (start + Datatypes.S k)%nat by lia.
      apply Hstep; [lia | exact H].
    + rewrite <- surjective_pairing.
      specialize (Hstep 0%nat s n ltac:(lia) H0).
      rewrite Nat.add_0_r in Hstep. exact Hstep.
Qed.

(** [Math.floor(r * len)] is an index of an array of length [len] when
    [r] is a result of [Math.random]. *)
Lemma pick_index (r : Q) (len : nat) :
  0 <= r < 1 -> (0 < len)%nat ->
  (Z.to_nat (Qfloor (r * JS.num len)) < len)%nat.
Proof.
  intros [H0 H1] Hl. unfold JS.num.
  assert (HL : 0 < inject_Z (Z.of_nat len)).
  { change 0 with (inject_Z 0). rewrite <- Zlt_Qlt. lia. }
  set (L := inject_Z (Z.of_nat len)) in *.
  assert (Hlo : (0 <= Qfloor (r * L))%Z).
  { change 0%Z with (Qfloor 0). apply Qfloor_resp_le. nra. }
  assert (Hhi : (Qfloor (r * L) < Z.of_nat len)%Z).
  { rewrite Zlt_Qlt. fold L.
    apply Qle_lt_trans with (r * L); [apply Qfloor_le | nra]. }
  lia.
Qed.

(** The [i]-th of [count] positions spread from [lo] over a span
    [w]: [lo + (i * w) / count]. *)
Lemma spread_bounds (lo w : Q) (i : nat) (count : Z) :
  0 <= w -> (Z.of_nat i < count)%Z ->
  lo <= lo + (JS.num i * w) / inject_Z count
  /\ (0 < w -> lo + (JS.num i * w) / inject_Z count < lo + w).
Proof.
  intros Hw Hi. unfold JS.num.
  assert (Hc : 0 < inject_Z count).
  { change 0 with (inject_Z 0). rewrite <- Zlt_Qlt. lia. }
  assert (H0 : 0 <= inject_Z (Z.of_nat i)).
  { change 0 with (inject_Z 0). rewrite <- Zle_Qle. lia. }
  assert (H1 : inject_Z (Z.of_nat i) < inject_Z count) by now rewrite <- Zlt_Qlt.
  set (a := inject_Z (Z.of_nat i)) in *. set (c := inject_Z count) in *.
  split.
  - assert (0 <= a * w / c) by (apply Qle_shift_div_l; [exact Hc | nra]). lra.
  - intros Hw'.
    assert (a * w / c < w) by (apply Qlt_shift_div_r; [exact Hc | nra]). lra.
Qed.

Lemma Enemy_new_fields (x y : Q) (ty : EnemyType) :
  Enemy.x (Enemy.new x y ty) = x /\ Enemy.y (Enemy.new x y ty) = y
  /\ Enemy.type (Enemy.new x y ty) = ty.
Proof. destruct ty; auto. Qed.

(** [generateEnemies]: what the loop appends. *)
Lemma generateEnemies_adds (rnd : nat -> Q) (l : Level.t) (n : nat) :
  (forall k, 0 <= rnd k < 1) -> 600 < Level.width l ->
  exists es,
    fst (Level.generateEnemies rnd l n)
    = Level.mk (Level.width l) (Level.height l) (Level.platforms l)
        (Level.enemies l ++ es) (Level.collectibles l) (Level.powerUps l)
        (Level.levelNumber l)
    /\ length es = Z.to_nat (3 + Level.levelNumber l)
    /\ List.Forall
         (fun e => (300 <= Enemy.x e /\ Enemy.x e < Level.width l - 300)
                   /\ Enemy.y e = Level.height l - 128
                   /\ (Enemy.type e = spiky -> (2 <= Level.levelNumber l)%Z)
                   /\ (Enemy.type e = flying -> (4 <= Level.levelNumber l)%Z))
         es.
Proof.
  intros Hr Hw. unfold Level.generateEnemies; cbv zeta.
  destruct l as [w h ps es0 cs pus N].
  cbn [Level.width Level.height Level.platforms Level.enemies
       Level.collectibles Level.powerUps Level.levelNumber] in *.
  apply (for_range_indexed _ (Z.to_nat (3 + N)) 0%nat
           (fun k st => exists es,
                fst st = Level.mk w h ps (es0 ++ es) cs pus N
                /\ length es = k
                /\ List.Forall
                     (fun e => (300 <= Enemy.x e /\ Enemy.x e < w - 300)
                               /\ Enemy.y e = h - 128
                               /\ (Enemy.type e = spiky -> (2 <= N)%Z)
                               /\ (Enemy.type e = flying -> (4 <= N)%Z))
                     es)).
  - intros k l' n' Hk (es & E & HL & HF). cbn [fst] in E. subst l'.
    cbn [Nat.add]. gen_unfold.
    cbn [fst Level.width Level.height Level.levelNumber].
    eexists (es ++ [_]). unfold Level.push_enemy.
    cbn [Level.width Level.height Level.platforms Level.enemies
         Level.collectibles Level.powerUps Level.levelNumber].
    rewrite <- List.app_assoc. split; [reflexivity |].
    split; [rewrite List.length_app; cbn [length]; lia |].
    apply List.Forall_app. split; [exact HF |]. constructor; [| constructor].
    match goal with
    | |- context [Enemy.new ?x ?y ?ty] =>
        destruct (Enemy_new_fields x y ty) as (-> & -> & ->)
    end.
    destruct (spread_bounds 300 (w - 600) k (3 + N)) as [X0 X1]; [lra | lia |].
    split; [split; [exact X0 | specialize (X1 ltac:(lra)); lra] |].
    split; [reflexivity |].
    match goal with
    | |- context [nth (Z.to_nat (Qfloor (?r * JS.num (length ?ts)))) _ _] =>
        assert (Hi := fun H => pick_index r (length ts) (Hr n') H);
        set (idx := Z.to_nat (Qfloor (r * JS.num (length ts)))) in *
    end.
    clearbody idx. clear -Hi.
    destruct (Z.geb_spec N 2), (Z.geb_spec N 4);
      cbn [app length] in Hi; specialize (Hi ltac:(lia));
      cbn [app];
      repeat (destruct idx as [| idx];
              [cbn [nth]; split; intros; first [discriminate | lia] | try lia]).
  - exists []. cbn [fst]. rewrite List.app_nil_r. repeat split. constructor.
Qed.

(** [generateCollectibles]: what the loop appends. *)
Lemma generateCollectibles_adds (rnd : nat -> Q) (l : Level.t) (n : nat) :
  (forall k, 0 <= rnd k < 1) -> 300 < Level.width l -> 200 < Level.height l ->
  exists cs,
    fst (Level.generateCollectibles rnd l n)
    = Level.mk (Level.width l) (Level.height l) (Level.platforms l)
        (Level.enemies l) (Level.collectibles l ++ cs) (Level.powerUps l)
        (Level.levelNumber l)
    /\ List.Forall
         (fun c => (Collectible.type c = coin /\ Collectible.value c = 100
                    \/ Collectible.type c = gem /\ Collectible.value c = 500)
                   /\ (150 <= Collectible.x c /\ Collectible.x c < Level.width l - 150)
                   /\ (100 <= Collectible.y c /\ Collectible.y c < Level.height l - 100))
         cs.
Proof.
  intros Hr Hw Hh. unfold Level.generateCollectibles; cbv zeta.
  destruct l as [w h ps es cs0 pus N].
  cbn [Level.width Level.height Level.platforms Level.enemies
       Level.collectibles Level.powerUps Level.levelNumber] in *.
  apply (for_range_invariant _ (Z.to_nat (15 + N * 3))
           (fun _ st => exists cs,
                fst st = Level.mk w h ps es (cs0 ++ cs) pus N
                /\ List.Forall
                     (fun c => (Collectible.type c = coin /\ Collectible.value c = 100
                                \/ Collectible.type c = gem /\ Collectible.value c = 500)
                               /\ (150 <= Collectible.x c /\ Collectible.x c < w - 150)
                               /\ (100 <= Collectible.y c /\ Collectible.y c < h - 100))
                     cs)).
  - intros k i l' n' _ (cs & E & HF). cbn [fst] in E. subst l'.
    gen_unfold. cbn beta iota zeta.
    cbn [Level.width Level.height Level.platforms].
    destruct (Hr n') as [A0 A1]. destruct (Hr (Datatypes.S n')) as [B0 B1].
    set (x := 150 + rnd n' * (w - 300)).
    set (y := 100 + rnd (Datatypes.S n') * (h - 200)).
    destruct (existsb (Level.insidePlatform x y) ps); cbn [negb fst].
    + exists cs. auto.
    + eexists (cs ++ [_]). unfold Level.push_collectible.
      cbn [Level.width Level.height Level.platforms Level.enemies
           Level.collectibles Level.powerUps Level.levelNumber].
      rewrite <- List.app_assoc. split; [reflexivity |].
      apply List.Forall_app. split; [exact HF |]. constructor; [| constructor].
      assert (Hx : 150 <= x /\ x < w - 150) by (subst x; split; nra).
      assert (Hy : 100 <= y /\ y < h - 100) by (subst y; split; nra).
      destruct (JS.lt (rnd (Datatypes.S (Datatypes.S n'))) 0.7);
        cbn [Collectible.new Collectible.type Collectible.value
             Collectible.x Collectible.y]; auto.
  - exists []. cbn [fst]. rewrite List.app_nil_r. split; [reflexivity | constructor].
Qed.

(** [generatePowerUps]: what the loop appends. *)
Lemma generatePowerUps_adds (rnd : nat -> Q) (l : Level.t) (n : nat) :
  (forall k, 0 <= rnd k < 1) -> 800 < Level.width l ->
  exists pus,
    fst (Level.generatePowerUps rnd l n)
    = Level.mk (Level.width l) (Level.height l) (Level.platforms l)
        (Level.enemies l) (Level.collectibles l) (Level.powerUps l ++ pus)
        (Level.levelNumber l)
    /\ length pus = Z.to_nat (2 + Level.levelNumber l / 2)
    /\ List.Forall
         (fun p => (400 <= PowerUp.x p /\ PowerUp.x p < Level.width l - 400)
                   /\ (200 <= PowerUp.y p /\ PowerUp.y p < 400))
         pus.
Proof.
  intros Hr Hw. unfold Level.generatePowerUps; cbv zeta.
  destruct l as [w h ps es cs pus0 N].
  cbn [Level.width Level.height Level.platforms Level.enemies
       Level.collectibles Level.powerUps Level.levelNumber] in *.
  apply (for_range_indexed _ (Z.to_nat (2 + N / 2)) 0%nat
           (fun k st => exists pus,
                fst st = Level.mk w h ps es cs (pus0 ++ pus) N
                /\ length pus = k
                /\ List.Forall
                     (fun p => (400 <= PowerUp.x p /\ PowerUp.x p < w - 400)
                               /\ (200 <= PowerUp.y p /\ PowerUp.y p < 400))
                     pus)).
  - intros k l' n' Hk (pus & E & HL & HF). cbn [fst] in E. subst l'.
    cbn [Nat.add]. gen_unfold.
    cbn [fst Level.width Level.height Level.levelNumber].
    eexists (pus ++ [_]). unfold Level.push_powerUp.
    cbn [Level.width Level.height Level.platforms Level.enemies
         Level.collectibles Level.powerUps Level.levelNumber].
    rewrite <- List.app_assoc. split; [reflexivity |].
    split; [rewrite List.length_app; cbn [length]; lia |].
    apply List.Forall_app. split; [exact HF |]. constructor; [| constructor].
    unfold PowerUp.new. cbn [PowerUp.x PowerUp.y].
    destruct (spread_bounds 400 (w - 800) k (2 + N / 2)) as [X0 X1]; [lra | lia |].
    destruct (Hr n') as [A0 A1].
    split; [split; [exact X0 | specialize (X1 ltac:(lra)); lra] |].
    split; nra.
  - exists []. cbn [fst]. rewrite List.app_nil_r. repeat split. constructor.
Qed.

(** [generatePlatforms] on the empty level of the constructor: where the
    platforms other than the ground row are. *)
Lemma generatePlatforms_positions (sin : Q -> Q) (rnd : nat -> Q) (N : Z) (n0 : nat) :
  (forall a, -1 <= sin a <= 1) -> (forall k, 0 <= rnd k < 1) ->
  exists ps,
    fst (Level.generatePlatforms sin rnd (Level.mk 2048 576 [] [] [] [] N) n0)
    = Level.mk 2048 576 ps [] [] [] N
    /\ List.Forall
         (fun p => Platform.type p <> ground ->
                   (200 <= Platform.x p /\ Platform.x p + Platform.width p < 2008)
                   /\ (100 <= Platform.y p /\ Platform.y p + Platform.height p < 424))
         ps.
Proof.
  intros Hs Hr. unfold Level.generatePlatforms.
  change (Level.groundFuel (Level.mk 2048 576 [] [] [] [] N)) with 17%nat.
  rewrite groundLoop_new by lia. cbv zeta. cbn [Level.levelNumber].
  set (count := Z.to_nat (8 + Z.min N 5 * 2)).
  match goal with
  | |- context [Level.for_range count 0 ?b _] => set (body := b)
  end.
  assert (HF : exists ps,
             fst (Level.for_range count 0 body
                    (Level.mk 2048 576 groundRow [] [] [] N) n0)
             = Level.mk 2048 576 ps [] [] [] N
             /\ List.Forall
                  (fun p => Platform.type p <> ground ->
                            (200 <= Platform.x p /\ Platform.x p + Platform.width p < 2008)
                            /\ (100 <= Platform.y p /\ Platform.y p + Platform.height p < 424))
                  ps).
  { apply (for_range_indexed body count 0%nat
             (fun k st => exists ps,
                  fst st = Level.mk 2048 576 ps [] [] [] N
                  /\ List.Forall
                       (fun p => Platform.type p <> ground ->
                                 (200 <= Platform.x p
                                  /\ Platform.x p + Platform.width p < 2008)
                                 /\ (100 <= Platform.y p
                                     /\ Platform.y p + Platform.height p < 424))
                       ps)).
    - intros k l n Hk (ps & E & HP). cbn [fst] in E. subst l.
      cbn [Nat.add]. unfold body. gen_unfold. cbn [fst Level.width].
      eexists (ps ++ [_]). unfold Level.push_platform.
      cbn [Level.width Level.height Level.platforms Level.enemies
           Level.collectibles Level.powerUps Level.levelNumber].
      split; [reflexivity |].
      apply List.Forall_app. split; [exact HP |]. constructor; [| constructor].
      intros _. unfold Platform.new.
      cbn [Platform.x Platform.y Platform.width Platform.height].
      destruct (spread_bounds 200 (2048 - 400) k (8 + Z.min N 5 * 2))
        as [X0 X1]; [lra | lia |].
      specialize (X1 ltac:(lra)).
      destruct (Hr n) as [A0 A1]. destruct (Hr (Datatypes.S n)) as [B0 B1].
      destruct (Hs (JS.num k * 0.5)) as [S0 S1].
      repeat split; lra.
    - exists groundRow. split; [reflexivity |].
      eapply List.Forall_impl; [| exact groundRow_ground].
      intros p Hp Hn. contradiction. }
  destruct HF as (ps & EF & HP).
  unfold mbind at 1. unfold Level.Gen_bind at 1.
  destruct (Level.for_range count 0 body _ n0) as [l2 n2]. cbn [fst] in EF.
  subst l2. cbn [Level.levelNumber].
  destruct (N >=? 3)%Z.
  - eexists. cbn [Level.for_range]. gen_unfold. cbn [fst].
    unfold Level.push_platform.
    cbn [Level.width Level.height Level.platforms Level.enemies
         Level.collectibles Level.powerUps Level.levelNumber].
    split; [reflexivity |].
    rewrite <- List.app_assoc.
    apply List.Forall_app. split; [exact HP |].
    constructor; [| constructor; [| constructor]]; intros _; unfold Platform.new;
      cbn [Platform.x Platform.y Platform.width Platform.height];
      unfold JS.num; cbn [Z.of_nat]; repeat split; vm_compute; congruence.
  - exists ps. split; [reflexivity | exact HP].
Qed.

(** The level of the constructor, stage by stage: the platforms are those
    of [generatePlatforms], and the three later stages each fill one list. *)
Lemma new_population (sin : Q -> Q) (rnd : nat -> Q) (N : Z) (n0 : nat) :
  (forall k, 0 <= rnd k < 1) ->
  exists es cs pus,
    fst (Level.new sin rnd N n0)
    = Level.mk 2048 576
        (Level.platforms
           (fst (Level.generatePlatforms sin rnd
                   (Level.mk 2048 576 [] [] [] [] N) n0)))
        es cs pus N
    /\ (length es = Z.to_nat (3 + N)
        /\ List.Forall
             (fun e => (300 <= Enemy.x e /\ Enemy.x e < 2048 - 300)
                       /\ Enemy.y e = 576 - 128
                       /\ (Enemy.type e = spiky -> (2 <= N)%Z)
                       /\ (Enemy.type e = flying -> (4 <= N)%Z))
             es)
    /\ List.Forall
         (fun c => (Collectible.type c = coin /\ Collectible.value c = 100
                    \/ Collectible.type c = gem /\ Collectible.value c = 500)
                   /\ (150 <= Collectible.x c /\ Collectible.x c < 2048 - 150)
                   /\ (100 <= Collectible.y c /\ Collectible.y c < 576 - 100))
         cs
    /\ (length pus = Z.to_nat (2 + N / 2)
        /\ List.Forall
             (fun p => (400 <= PowerUp.x p /\ PowerUp.x p < 2048 - 400)
                       /\ (200 <= PowerUp.y p /\ PowerUp.y p < 400))
             pus).
Proof.
  intros Hr. unfold Level.new, Level.generateLevel.
  cbn [Level.width Level.height Level.levelNumber].
  unfold mbind, Level.Gen_bind.
  destruct (generatePlatforms_new sin rnd N n0) as (F & M & E & _).
  destruct (Level.generatePlatforms sin rnd _ n0) as [l1 n1]. cbn [fst] in *.
  subst l1.
  destruct (generateEnemies_adds rnd
              (Level.mk 2048 576 (groundRow ++ F ++ M) [] [] [] N) n1 Hr)
    as (es & E2 & HE); [cbn; lra |].
  destruct (Level.generateEnemies rnd _ n1) as [l2 n2]. cbn [fst] in E2. subst l2.
  cbn [Level.width Level.height Level.platforms Level.enemies
       Level.collectibles Level.powerUps Level.levelNumber app] in *.
  destruct (generateCollectibles_adds rnd
              (Level.mk 2048 576 (groundRow ++ F ++ M) es [] [] N) n2 Hr)
    as (cs & E3 & HC); [cbn; lra | cbn; lra |].
  destruct (Level.generateCollectibles rnd _ n2) as [l3 n3]. cbn [fst] in E3. subst l3.
  cbn [Level.width Level.height Level.platforms Level.enemies
       Level.collectibles Level.powerUps Level.levelNumber app] in *.
  destruct (generatePowerUps_adds rnd
              (Level.mk 2048 576 (groundRow ++ F ++ M) es cs [] N) n3 Hr)
    as (pus & E4 & HP); [cbn; lra |].
  rewrite E4.
  cbn [Level.width Level.height Level.platforms Level.enemies
       Level.collectibles Level.powerUps Level.levelNumber app] in *.
  exists es, cs, pus. auto.
Qed.

(** X18.  The enemies of a generated level, whatever [Math.random] returns
    within its range: there are [3 + N] of them (none when that is
    negative), spread from [x = 300] on, all put at [height - 128]; a
    spiky enemy appears only from level 2 on and a flying one only from
    level 4 on. *)
Theorem X18_generated_enemies
    (sin : Q -> Q) (rnd : nat -> Q) (N : Z) (n0 : nat) :
  (forall k, 0 <= rnd k < 1) ->
  let level := fst (Level.new sin rnd N n0) in
  Z.of_nat (length (Level.enemies level)) = Z.max 0 (3 + N)
  /\ List.Forall
       (fun e => (300 <= Enemy.x e /\ Enemy.x e < Level.width level - 300)
                 /\ Enemy.y e = Level.height level - 128
                 /\ (Enemy.type e = spiky -> (2 <= N)%Z)
                 /\ (Enemy.type e = flying -> (4 <= N)%Z))
       (Level.enemies level).
Proof.
  intros Hr level. subst level.
  destruct (new_population sin rnd N n0 Hr) as (es & cs & pus & -> & [HL HE] & _).
  cbn [Level.enemies Level.width Level.height].
  split; [rewrite HL; lia | exact HE].
Qed.

(** Level 4 with every draw equal to [1/2]. *)
Lemma X18_witness :
  Z.of_nat (length (Level.enemies (fst (Level.new flat_sin even_rnd 4 0%nat))))
  = Z.max 0 (3 + 4).
Proof.
  refine (proj1 (X18_generated_enemies flat_sin even_rnd 4 0%nat _)).
  intros k. unfold even_rnd. split; [discriminate | reflexivity].
Defined.

(** X19.  The power-ups of a generated level: there are [2 + floor(N / 2)] of
    them (none when that is negative), spread over [400 <= x < width - 400]
    at heights [200 <= y < 400]. *)
Theorem X19_generated_powerUps
    (sin : Q -> Q) (rnd : nat -> Q) (N : Z) (n0 : nat) :
  (forall k, 0 <= rnd k < 1) ->
  let level := fst (Level.new sin rnd N n0) in
  Z.of_nat (length (Level.powerUps level)) = Z.max 0 (2 + N / 2)
  /\ List.Forall
       (fun p => (400 <= PowerUp.x p /\ PowerUp.x p < Level.width level - 400)
                 /\ (200 <= PowerUp.y p /\ PowerUp.y p < 400))
       (Level.powerUps level).
Proof.
  intros Hr level. subst level.
  destruct (new_population sin rnd N n0 Hr) as (es & cs & pus & -> & _ & _ & [HL HP]).
  cbn [Level.powerUps Level.width].
  split; [rewrite HL; lia | exact HP].
Qed.

Lemma X19_witness :
  Z.of_nat (length (Level.powerUps (fst (Level.new flat_sin even_rnd 3 0%nat))))
  = Z.max 0 (2 + 3 / 2).
Proof.
  refine (proj1 (X19_generated_powerUps flat_sin even_rnd 3 0%nat _)).
  intros k. unfold even_rnd. split; [discriminate | reflexivity].
Defined.

(** X20.  The collectibles of a generated level are coins worth 100 or gems
    worth 500, never a star, and lie in the box
    [150 <= x < width - 150], [100 <= y < height - 100]. *)
Theorem X20_generated_collectibles
    (sin : Q -> Q) (rnd : nat -> Q) (N : Z) (n0 : nat) :
  (forall k, 0 <= rnd k < 1) ->
  let level := fst (Level.new sin rnd N n0) in
  List.Forall
    (fun c => (Collectible.type c = coin /\ Collectible.value c = 100
               \/ Collectible.type c = gem /\ Collectible.value c = 500)
              /\ (150 <= Collectible.x c /\ Collectible.x c < Level.width level - 150)
              /\ (100 <= Collectible.y c /\ Collectible.y c < Level.height level - 100))
    (Level.collectibles level).
Proof.
  intros Hr level. subst level.
  destruct (new_population sin rnd N n0 Hr) as (es & cs & pus & -> & _ & HC & _).
  exact HC.
Qed.

Lemma X20_witness :
  List.Forall
    (fun c => (Collectible.type c = coin /\ Collectible.value c = 100
               \/ Collectible.type c = gem /\ Collectible.value c = 500)
              /\ (150 <= Collectible.x c /\ Collectible.x c < 2048 - 150)
              /\ (100 <= Collectible.y c /\ Collectible.y c < 576 - 100))
    (Level.collectibles (fst (Level.new flat_sin even_rnd 1 0%nat))).
Proof.
  refine (X20_generated_collectibles flat_sin even_rnd 1 0%nat _).
  intros k. unfold even_rnd. split; [discriminate | reflexivity].
Defined.

(** X21.  The generated level is [2048] wide and [576] high.  With [Math.sin]
    within [[-1, 1]] and [Math.random] within [[0, 1)], every floating or
    moving platform of it lies between [x = 200] and [x = 2008], inside
    the level, and between [y = 100] and [y = 424], above the top of the
    ground row at [576 - 64 = 512]. *)
Theorem X21_generated_platforms_clear_of_ground
    (sin : Q -> Q) (rnd : nat -> Q) (N : Z) (n0 : nat) :
  (forall a, -1 <= sin a <= 1) ->
  (forall k, 0 <= rnd k < 1) ->
  let level := fst (Level.new sin rnd N n0) in
  Level.width level = 2048 /\ Level.height level = 576
  /\ List.Forall
       (fun p => Platform.type p <> ground ->
                 (200 <= Platform.x p /\ Platform.x p + Platform.width p < 2008)
                 /\ (100 <= Platform.y p /\ Platform.y p + Platform.height p < 424))
       (Level.platforms level).
Proof.
  intros Hs Hr level. subst level.
  destruct (new_population sin rnd N n0 Hr) as (es & cs & pus & -> & _).
  destruct (generatePlatforms_positions sin rnd N n0 Hs Hr) as (ps & -> & HP).
  cbn [Level.platforms Level.width Level.height].
  split; [reflexivity |]. split; [reflexivity | exact HP].
Qed.

(** Level 3 with [Math.sin] constantly [0] and every draw equal to [1/2]. *)
Lemma X21_witness :
  Level.width (fst (Level.new flat_sin even_rnd 3 0%nat)) = 2048.
Proof.
  refine (proj1 (X21_generated_platforms_clear_of_ground flat_sin even_rnd 3 0%nat _ _)).
  - intros a. unfold flat_sin. split; discriminate.
  - intros k. unfold even_rnd. split; [discriminate | reflexivity].
Defined.

(** ** InputManager *)

Lemma has_add (key k : string) (this : InputManager.t) :
  InputManager.has key (InputManager.keys (InputManager.add k this))
  = bool_decide (key = k) || InputManager.has key (InputManager.keys this).
Proof.
  unfold InputManager.has, InputManager.add. cbn [InputManager.keys].
  destruct (decide (key = k)) as [-> | Hne].
  - rewrite (bool_decide_eq_true_2 (k = k)) by reflexivity. cbn [orb].
    apply bool_decide_eq_true_2, elem_of_union_r, elem_of_singleton.
    reflexivity.
  - rewrite (bool_decide_eq_false_2 (key = k)) by exact Hne. cbn [orb].
    apply bool_decide_ext. rewrite elem_of_union, elem_of_singleton. tauto.
Qed.

Lemma has_delete (key k : string) (this : InputManager.t) :
  InputManager.has key (InputManager.keys (InputManager.delete k this))
  = negb (bool_decide (key = k)) && InputManager.has key (InputManager.keys this).
Proof.
  unfold InputManager.has, InputManager.delete. cbn [InputManager.keys].
  destruct (decide (key = k)) as [-> | Hne].
  - rewrite (bool_decide_eq_true_2 (k = k)) by reflexivity. cbn [negb andb].
    apply bool_decide_eq_false_2. rewrite elem_of_difference, elem_of_singleton.
    tauto.
  - rewrite (bool_decide_eq_false_2 (key = k)) by exact Hne. cbn [negb andb].
    apply bool_decide_ext. rewrite elem_of_difference, elem_of_singleton. tauto.
Qed.

Lemma isPressed_of_key (this : InputManager.t) (key : string) :
  InputManager.has key (InputManager.keys this) = true ->
  InputManager.isPressed this key = true.
Proof.
  intros H. unfold InputManager.isPressed.
  set (b := InputManager.has key (InputManager.keys this)) in *.
  clearbody b. subst b.
  repeat case_match; reflexivity.
Qed.

Lemma updateGamepadInput_previousKeys (gamepad : option InputManager.Gamepad)
    (this : InputManager.t) :
  InputManager.previousKeys (InputManager.updateGamepadInput gamepad this)
  = InputManager.previousKeys this.
Proof.
  unfold InputManager.updateGamepadInput.
  destruct gamepad as [pad |]; [| reflexivity]. cbv zeta.
  repeat match goal with
         | |- context [if ?c then _ else _] => destruct c
         end; reflexivity.
Qed.

(** A key other than [k] does not see [k] added or deleted. *)
Lemma has_other (key k : string) (c : bool) (this : InputManager.t) :
  key <> k ->
  InputManager.has key (InputManager.keys (InputManager.add k this))
  = InputManager.has key (InputManager.keys this)
  /\ InputManager.has key (InputManager.keys (InputManager.delete k this))
     = InputManager.has key (InputManager.keys this)
  /\ InputManager.has key
       (InputManager.keys (if c then InputManager.add k this else this))
     = InputManager.has key (InputManager.keys this)
  /\ InputManager.has key
       (InputManager.keys (if c then InputManager.add k this
                           else InputManager.delete k this))
     = InputManager.has key (InputManager.keys this).
Proof.
  intros Hne.
  assert (A : InputManager.has key (InputManager.keys (InputManager.add k this))
              = InputManager.has key (InputManager.keys this)).
  { rewrite has_add, (bool_decide_eq_false_2 (key = k)) by exact Hne. reflexivity. }
  assert (D : InputManager.has key (InputManager.keys (InputManager.delete k this))
              = InputManager.has key (InputManager.keys this)).
  { rewrite has_delete, (bool_decide_eq_false_2 (key = k)) by exact Hne. reflexivity. }
  destruct c; auto.
Qed.

Lemma updateGamepadInput_keys (gamepad : option InputManager.Gamepad)
    (this : InputManager.t) (key : string) :
  ~ In key gamepadKeys ->
  InputManager.has key (InputManager.keys (InputManager.updateGamepadInput gamepad this))
  = InputManager.has key (InputManager.keys this).
Proof.
  intros Hk. unfold InputManager.updateGamepadInput.
  destruct gamepad as [pad |]; [| reflexivity]. cbv zeta.
  assert (Hn : forall k, In k gamepadKeys -> key <> k) by (intros k Hi ->; auto).
  unfold gamepadKeys in Hn. cbn [In] in Hn.
  assert (H1 : key <> "gamepad_left"%string) by (apply Hn; auto 10).
  assert (H2 : key <> "gamepad_right"%string) by (apply Hn; auto 10).
  assert (H3 : key <> "gamepad_up"%string) by (apply Hn; auto 10).
  assert (H4 : key <> "gamepad_down"%string) by (apply Hn; auto 10).
  assert (H5 : key <> "gamepad_jump"%string) by (apply Hn; auto 10).
  assert (H6 : key <> "gamepad_run"%string) by (apply Hn; auto 10).
  rewrite (proj2 (proj2 (proj2 (has_other key _ _ _ H6)))).
  rewrite (proj2 (proj2 (proj2 (has_other key _ _ _ H5)))).
  rewrite (proj1 (proj2 (proj2 (has_other key _ _ _ H4)))).
  rewrite (proj1 (proj2 (proj2 (has_other key _ _ _ H3)))).
  rewrite (proj1 (proj2 (proj2 (has_other key _ _ _ H2)))).
  rewrite (proj1 (proj2 (proj2 (has_other key _ _ _ H1)))).
  rewrite (proj1 (proj2 (has_other key _ true _ H4))).
  rewrite (proj1 (proj2 (has_other key _ true _ H3))).
  rewrite (proj1 (proj2 (has_other key _ true _ H2))).
  rewrite (proj1 (proj2 (has_other key _ true _ H1))).
  reflexivity.
Qed.

Lemma update_previousKeys (gamepad : option InputManager.Gamepad)
    (this : InputManager.t) :
  InputManager.previousKeys (InputManager.update gamepad this)
  = InputManager.keys this.
Proof.
  unfold InputManager.update. now rewrite updateGamepadInput_previousKeys.
Qed.

Lemma update_keys (gamepad : option InputManager.Gamepad)
    (this : InputManager.t) (key : string) :
  ~ In key gamepadKeys ->
  InputManager.has key (InputManager.keys (InputManager.update gamepad this))
  = InputManager.has key (InputManager.keys this).
Proof.
  intros Hk. unfold InputManager.update.
  now rewrite updateGamepadInput_keys.
Qed.

(** X22.  Right after [update()] the key edges are settled.  For a key other
    than the six [gamepad_...] names, [update] leaves its state in [keys]
    alone and copies it to [previousKeys]; so the key is not just
    released, and it is just pressed only when it is not held itself but
    reported through its gamepad alternative. *)
Theorem X22_update_settles_key_edges
    (gamepad : option InputManager.Gamepad) (this : InputManager.t)
    (key : string) :
  ~ In key gamepadKeys ->
  let this' := InputManager.update gamepad this in
  InputManager.has key (InputManager.keys this')
  = InputManager.has key (InputManager.keys this)
  /\ InputManager.isJustReleased this' key = false
  /\ (InputManager.isJustPressed this' key = true ->
      InputManager.has key (InputManager.keys this') = false
      /\ InputManager.isPressed this' key = true).
Proof.
  intros Hk this'. subst this'.
  assert (K := update_keys gamepad this key Hk).
  assert (P := update_previousKeys gamepad this).
  split; [exact K |].
  unfold InputManager.isJustReleased, InputManager.isJustPressed.
  rewrite P, K.
  destruct (InputManager.has key (InputManager.keys this)) eqn:E.
  - rewrite (isPressed_of_key _ key) by now rewrite K.
    split; [reflexivity |]. cbn. discriminate.
  - rewrite andb_false_r. split; [reflexivity |].
    rewrite andb_true_r. auto.
Qed.

Lemma X22_witness :
  InputManager.isJustReleased
    (InputManager.update None (InputManager.mk {[ "left"%string ]} ∅)) "left"
  = false.
Proof.
  refine (proj1 (proj2 (X22_update_settles_key_edges None
                          (InputManager.mk {[ "left"%string ]} ∅) "left" _))).
  unfold gamepadKeys. cbn [In]. intros H.
  repeat (destruct H as [H | H]; [discriminate H |]). exact H.
Defined.

Lemma updateGamepadInput_left (pad : InputManager.Gamepad) (this : InputManager.t) :
  InputManager.has "gamepad_left"
    (InputManager.keys (InputManager.updateGamepadInput (Some pad) this))
  = JS.lt (InputManager.axes pad 0) (- (0.3)) || InputManager.pressed pad 14.
Proof.
  unfold InputManager.updateGamepadInput. cbv zeta.
  rewrite (proj2 (proj2 (proj2 (has_other "gamepad_left" "gamepad_run" _ _
                                  ltac:(discriminate))))).
  rewrite (proj2 (proj2 (proj2 (has_other "gamepad_left" "gamepad_jump" _ _
                                  ltac:(discriminate))))).
  rewrite (proj1 (proj2 (proj2 (has_other "gamepad_left" "gamepad_down" _ _
                                  ltac:(discriminate))))).
  rewrite (proj1 (proj2 (proj2 (has_other "gamepad_left" "gamepad_up" _ _
                                  ltac:(discriminate))))).
  rewrite (proj1 (proj2 (proj2 (has_other "gamepad_left" "gamepad_right" _ _
                                  ltac:(discriminate))))).
  destruct (JS.lt (InputManager.axes pad 0) (- (0.3)) || InputManager.pressed pad 14).
  - cbv iota. rewrite has_add. reflexivity.
  - cbv iota. rewrite !has_delete. reflexivity.
Qed.

(** X23.  A direction held on the gamepad is "just pressed" in every frame.
    While the left stick (or the d-pad's left button) is held and the
    keyboard's [left] key is not, [isJustPressed('left')] is true after
    each [update()], not only after the first: [update] copies [keys] to
    [previousKeys], but [isJustPressed] looks there for [left] and not for
    [gamepad_left]. *)
Theorem X23_gamepad_direction_just_pressed_every_frame
    (pad : InputManager.Gamepad) (this : InputManager.t) (n : nat) :
  JS.lt (InputManager.axes pad 0) (- (0.3)) || InputManager.pressed pad 14 = true ->
  InputManager.has "left" (InputManager.keys this) = false ->
  let this' := Nat.iter (Datatypes.S n) (InputManager.update (Some pad)) this in
  InputManager.isPressed this' "left" = true
  /\ InputManager.isJustPressed this' "left" = true.
Proof.
  intros Hpad Hkey this'. subst this'.
  assert (Hleft : ~ In "left"%string gamepadKeys).
  { unfold gamepadKeys. cbn [In]. intros H.
    repeat (destruct H as [H | H]; [discriminate H |]). exact H. }
  assert (Hn : InputManager.has "left"
                 (InputManager.keys
                    (Nat.iter n (InputManager.update (Some pad)) this)) = false).
  { induction n as [| n IH]; [exact Hkey |].
    rewrite Nat.iter_succ, update_keys by exact Hleft. exact IH. }
  rewrite Nat.iter_succ.
  set (prev := Nat.iter n (InputManager.update (Some pad)) this) in *.
  assert (P : InputManager.isPressed (InputManager.update (Some pad) prev) "left"
              = true).
  { unfold InputManager.isPressed, InputManager.update.
    rewrite updateGamepadInput_left, Hpad. apply orb_true_r. }
  split; [exact P |].
  unfold InputManager.isJustPressed.
  rewrite P, update_previousKeys, Hn. reflexivity.
Qed.

(** The stick held left for three frames, nothing on the keyboard. *)
Lemma X23_witness :
  InputManager.isJustPressed
    (Nat.iter 3 (InputManager.update
                   (Some (InputManager.mkGamepad (fun _ => - 1) (fun _ => false))))
       (InputManager.mk ∅ ∅)) "left"
  = true.
Proof.
  refine (proj2 (X23_gamepad_direction_just_pressed_every_frame
                   (InputManager.mkGamepad (fun _ => - 1) (fun _ => false))
                   (InputManager.mk ∅ ∅) 2 _ _)); reflexivity.
Defined.

(** The key state is a set of names, not a count of physical keys: a
    [keyup] clears the name even while another key with the same name is
    down.  In the key map these are [ShiftLeft] and [ShiftRight], both
    [shift]. *)
Theorem key_up_clears_shared_name
    (toLowerCase : string -> string) (up down : string) (this : InputManager.t) :
  InputManager.normalizeKey toLowerCase up
  = InputManager.normalizeKey toLowerCase down ->
  let held := InputManager.handleKeyDown toLowerCase down this in
  let key := InputManager.normalizeKey toLowerCase down in
  InputManager.has key (InputManager.keys held) = true
  /\ InputManager.has key
       (InputManager.keys (InputManager.handleKeyUp toLowerCase up held))
     = false.
Proof.
  intros E held key. subst held key.
  unfold InputManager.handleKeyUp, InputManager.handleKeyDown.
  rewrite E, has_delete, has_add.
  rewrite bool_decide_eq_true_2 by reflexivity. split; reflexivity.
Qed.

Lemma key_up_shift_witness :
  InputManager.has "shift"
    (InputManager.keys
       (InputManager.handleKeyUp id "ShiftLeft"
          (InputManager.handleKeyDown id "ShiftRight"
             (InputManager.handleKeyDown id "ShiftLeft" (InputManager.mk ∅ ∅)))))
  = false.
Proof.
  refine (proj2 (key_up_clears_shared_name id "ShiftLeft" "ShiftRight"
                   (InputManager.handleKeyDown id "ShiftLeft" (InputManager.mk ∅ ∅))
                   _)).
  reflexivity.
Defined.

(** ** Camera *)

(** X24.  The camera follows its target.  After [update] with a target, [x] is
    not negative and [y] is within [[-100, 100]]; and as long as neither
    the camera nor the position it aims at is left of [0], each frame
    takes the fraction [smoothing] off the horizontal distance between
    the two, whatever [deltaTime] is. *)
Theorem X24_camera_follows_target
    (rnd : nat -> Q) (dt : Q) (player : Player.t) (c : Camera.t) (s : nat) :
  0 <= Camera.smoothing c <= 1 ->
  let targetX := Player.x player - Camera.width c / 2 + Player.width player / 2 in
  let c' := fst (Camera.update rnd dt (Some player) c s) in
  0 <= Camera.x c'
  /\ - 100 <= Camera.y c' <= 100
  /\ (0 <= Camera.x c -> 0 <= targetX ->
      Camera.x c' - targetX == (1 - Camera.smoothing c) * (Camera.x c - targetX)).
Proof.
  intros Hs targetX c'. subst c' targetX.
  unfold Camera.update, Camera.updateScreenShake; cbv zeta.
  unfold Level.random. gen_unfold.
  set (tX := Player.x player - Camera.width c / 2 + Player.width player / 2).
  set (x1 := Camera.x c + (tX - Camera.x c) * Camera.smoothing c).
  set (y1 := Camera.y c + (Player.y player - Camera.height c / 2
                           + Player.height player / 2 - Camera.y c)
                          * Camera.smoothing c).
  assert (E : forall c2 : Camera.t * nat,
             (c2 = (Camera.set_position (JS.max 0 x1) (JS.max (-100) (JS.min 100 y1)) c, s)
              \/ exists a b i n,
                  c2 = (Camera.set_shake a b i
                          (Camera.set_position (JS.max 0 x1)
                             (JS.max (-100) (JS.min 100 y1)) c), n)) ->
             Camera.x (fst c2) = JS.max 0 x1
             /\ Camera.y (fst c2) = JS.max (-100) (JS.min 100 y1)).
  { intros c2 [-> | (a & b & i & n & ->)]; split; reflexivity. }
  match goal with
  | |- context [fst ?t] => destruct (E t) as [-> ->]
  end.
  { cbn [Camera.shakeIntensity Camera.set_position Camera.shakeDecay].
    repeat match goal with
           | |- context [if ?b then _ else _] => destruct b
           end; eauto 10. }
  split; [| split].
  - destruct (JS_max_cases 0 x1) as [[L ->] | [L ->]]; lra.
  - destruct (JS_min_cases 100 y1) as [[L1 E1] | [L1 E1]];
      destruct (JS_max_cases (-100) (JS.min 100 y1)) as [[L2 E2] | [L2 E2]];
      rewrite E2; lra.
  - intros Hx Ht.
    clearbody tX.
    assert (0 <= x1) by (subst x1; nra).
    destruct (JS_max_cases 0 x1) as [[L ->] | [L ->]]; subst x1; nra.
Qed.

Lemma X24_witness :
  0 <= Camera.x (fst (Camera.update even_rnd (1 # 60) (Some (Player.new 40 464))
                        (Camera.new 1024 576) 0%nat)).
Proof.
  refine (proj1 (X24_camera_follows_target even_rnd (1 # 60) (Player.new 40 464)
                   (Camera.new 1024 576) 0%nat _)).
  split; discriminate.
Defined.

(** One frame of a screen shake that started at intensity [I0] and has
    run for [k] frames: it is over, or its intensity is at least [0.1]
    and at most [9 * I0 / (9 + k)]. *)
Lemma update_shake (rnd : nat -> Q) (dt : Q) (target : option Player.t)
    (c : Camera.t) (s : nat) (I0 : Q) (k : nat) :
  Camera.shakeDecay c == 9 # 10 ->
  shakeSettled c
  \/ (0 < Camera.shakeIntensity c
      /\ Camera.shakeIntensity c * (9 + JS.num k) <= 9 * I0) ->
  let c' := fst (Camera.update rnd dt target c s) in
  Camera.shakeDecay c' == 9 # 10
  /\ (shakeSettled c'
      \/ (1 # 10 <= Camera.shakeIntensity c'
          /\ Camera.shakeIntensity c' * (9 + JS.num (Datatypes.S k)) <= 9 * I0)).
Proof.
  intros Hd Hinv c'. subst c'.
  unfold Camera.update. cbv zeta.
  set (c1 := match target with Some _ => _ | None => c end).
  assert (E1 : Camera.shakeIntensity c1 = Camera.shakeIntensity c
               /\ Camera.shakeDecay c1 = Camera.shakeDecay c
               /\ Camera.shakeX c1 = Camera.shakeX c
               /\ Camera.shakeY c1 = Camera.shakeY c).
  { subst c1. destruct target; repeat split. }
  clearbody c1. destruct E1 as (EI & ED & EX & EY).
  unfold Camera.updateScreenShake. unfold Level.random. gen_unfold.
  rewrite EI, ED.
  destruct (JS.gt (Camera.shakeIntensity c) 0) eqn:G; js_props.
  - destruct (JS.lt (Camera.shakeIntensity c * Camera.shakeDecay c) 0.1) eqn:L;
      js_props; cbn [fst Camera.set_shake Camera.shakeDecay Camera.shakeIntensity
                     Camera.shakeX Camera.shakeY]; rewrite ED.
    + split; [exact Hd |]. left. repeat split.
    + split; [exact Hd |]. right.
      destruct Hinv as [(H0 & _) | [Hp Hb]]; [rewrite H0 in G; lra |].
      split; [lra |].
      rewrite num_S. assert (Hk := num_nonneg k).
      rewrite Hd. nra.
  - cbn [fst]. rewrite ED. split; [exact Hd |]. left.
    destruct Hinv as [(H0 & HX & HY) | [Hp _]]; [| lra].
    unfold shakeSettled. now rewrite EI, EX, EY.
Qed.

(** X25.  A screen shake always ends.  With the decay [0.9] of the constructor,
    a shake of intensity [I] is over after [90 * I] frames at the latest,
    whatever the target does meanwhile: the intensity is back at [0] and
    so are both offsets. *)
Theorem X25_camera_shake_dies_out
    (rnd : nat -> Q) (dt : Q) (targets : list (option Player.t))
    (c : Camera.t) (s : nat) :
  Camera.shakeDecay c == 9 # 10 ->
  0 < Camera.shakeIntensity c ->
  90 * Camera.shakeIntensity c <= JS.num (length targets) ->
  let c' := fst (cameraFrames rnd dt targets c s) in
  Camera.shakeIntensity c' = 0 /\ Camera.shakeX c' = 0 /\ Camera.shakeY c' = 0.
Proof.
  intros Hd Hp Hn c'. subst c'.
  set (I0 := Camera.shakeIntensity c) in *.
  assert (Hinv : shakeSettled c
                 \/ (0 < Camera.shakeIntensity c
                     /\ Camera.shakeIntensity c * (9 + JS.num 0) <= 9 * I0)).
  { right. split; [exact Hp |]. fold I0. change (JS.num 0) with 0. lra. }
  assert (Hlen : (0 < length targets)%nat).
  { destruct targets; [| cbn; lia]. cbn in Hn. change (JS.num 0) with 0 in Hn. lra. }
  assert (G : forall ts c0 s0 k,
             (0 < length ts)%nat ->
             Camera.shakeDecay c0 == 9 # 10 ->
             shakeSettled c0
             \/ (0 < Camera.shakeIntensity c0
                 /\ Camera.shakeIntensity c0 * (9 + JS.num k) <= 9 * I0) ->
             shakeSettled (fst (cameraFrames rnd dt ts c0 s0))
             \/ (1 # 10 <= Camera.shakeIntensity (fst (cameraFrames rnd dt ts c0 s0))
                 /\ Camera.shakeIntensity (fst (cameraFrames rnd dt ts c0 s0))
                    * (9 + JS.num (k + length ts)) <= 9 * I0)).
  { clear. induction ts as [| t ts IH]; intros c0 s0 k Hl Hd Hinv; [cbn in Hl; lia |].
    cbn [cameraFrames]. unfold mbind, Level.Gen_bind.
    destruct (update_shake rnd dt t c0 s0 I0 k Hd Hinv) as [Hd1 Hinv1].
    destruct (Camera.update rnd dt t c0 s0) as [c1 s1]. cbn [fst] in Hd1, Hinv1.
    destruct ts as [| t' ts'].
    - cbn [cameraFrames length]. unfold mret, Level.Gen_ret. cbn [fst].
      replace (k + 1)%nat with (Datatypes.S k) by lia. exact Hinv1.
    - replace (k + length (t :: t' :: ts'))%nat
        with (Datatypes.S k + length (t' :: ts'))%nat by (cbn [length]; lia).
      apply IH; [cbn; lia | exact Hd1 |].
      destruct Hinv1 as [Hs | [H1 H2]]; [left; exact Hs | right; split; [lra | exact H2]]. }
  destruct (G targets c s 0%nat Hlen Hd Hinv) as [Hs | [H1 H2]]; [exact Hs |].
  exfalso. cbn [Nat.add] in H2.
  assert (Hk := num_nonneg (length targets)). nra.
Qed.

(** A shake of intensity [1/2] on a new camera, over [45] frames. *)
Lemma X25_witness :
  Camera.shakeIntensity
    (fst (cameraFrames even_rnd (1 # 60) (repeat None 45)
            (Camera.shake (1 # 2) (Camera.new 1024 576)) 0%nat)) = 0.
Proof.
  refine (proj1 (X25_camera_shake_dies_out even_rnd (1 # 60) (repeat None 45)
                   (Camera.shake (1 # 2) (Camera.new 1024 576)) 0%nat _ _ _));
    vm_compute; congruence.
Defined.

(** ** ParticleSystem *)

Lemma stepAll_alive (dt : Q) (ps : list ParticleSystem.Particle) :
  List.Forall
    (fun p => 0 < ParticleSystem.life p
              /\ ParticleSystem.alpha p
                 == ParticleSystem.life p / ParticleSystem.maxLife p)
    (ParticleSystem.stepAll dt ps)
  /\ (length (ParticleSystem.stepAll dt ps) <= length ps)%nat.
Proof.
  induction ps as [| p ps [IH1 IH2]]; [split; [constructor | reflexivity] |].
  cbn [ParticleSystem.stepAll ParticleSystem.step].
  destruct (JS.gt (JS.sub (ParticleSystem.life p) dt) 0) eqn:G; js_props.
  - split; [| cbn [length]; lia].
    constructor; [| exact IH1].
    cbn [ParticleSystem.life ParticleSystem.alpha ParticleSystem.maxLife].
    split; [exact G | reflexivity].
  - split; [exact IH1 | cbn [length]; lia].
Qed.

Lemma sliceFrom_length {A : Type} (m : Z) (l : list A) :
  (1 <= m)%Z -> (m < Z.of_nat (length l))%Z ->
  Z.of_nat (length (ParticleSystem.sliceFrom (- m) l)) = m.
Proof.
  intros H1 H2. unfold ParticleSystem.sliceFrom. cbv zeta.
  destruct (Z.ltb_spec (- m) 0) as [_ | C]; [| lia].
  rewrite List.length_skipn. lia.
Qed.

Lemma Forall_skipn {A : Type} (P : A -> Prop) (k : nat) (l : list A) :
  List.Forall P l -> List.Forall P (skipn k l).
Proof.
  intros H. revert k. induction H as [| a l Ha Hl IH]; intros [| k]; cbn;
    auto using List.Forall_cons, List.Forall_nil.
Qed.

Lemma sliceFrom_le {A : Type} (P : A -> Prop) (start : Z) (l : list A) :
  (List.Forall P l -> List.Forall P (ParticleSystem.sliceFrom start l))
  /\ (length (ParticleSystem.sliceFrom start l) <= length l)%nat.
Proof.
  unfold ParticleSystem.sliceFrom. cbv zeta. split.
  - apply Forall_skipn.
  - rewrite List.length_skipn. lia.
Qed.

(** X26.  What [update] leaves behind.  Every particle still in the system is
    alive ([life > 0]) and has [alpha = life / maxLife]; [update] adds no
    particle; a cap [maxParticles >= 1] holds afterwards; and with the
    particle effects switched off at most twenty particles remain. *)
Theorem X26_particles_after_update (dt : Q) (this : ParticleSystem.t) :
  let this' := ParticleSystem.update dt this in
  List.Forall
    (fun p => 0 < ParticleSystem.life p
              /\ ParticleSystem.alpha p
                 == ParticleSystem.life p / ParticleSystem.maxLife p)
    (ParticleSystem.particles this')
  /\ (length (ParticleSystem.particles this')
      <= length (ParticleSystem.particles this))%nat
  /\ ((1 <= ParticleSystem.maxParticles this)%Z ->
      (Z.of_nat (length (ParticleSystem.particles this'))
       <= ParticleSystem.maxParticles this)%Z)
  /\ (ParticleSystem.particleEffects (ParticleSystem.settings this) = false ->
      (length (ParticleSystem.particles this') <= 20)%nat).
Proof.
  intros this'. subst this'. unfold ParticleSystem.update. cbv zeta.
  cbn [ParticleSystem.particles].
  set (ps0 := if negb _ then _ else _).
  assert (H0 : (length ps0 <= length (ParticleSystem.particles this))%nat
               /\ (ParticleSystem.particleEffects (ParticleSystem.settings this) = false
                   -> (length ps0 <= 20)%nat)).
  { subst ps0.
    destruct (ParticleSystem.particleEffects (ParticleSystem.settings this));
      cbn [negb].
    - split; [lia | discriminate].
    - rewrite List.length_firstn. split; [lia | intros _; lia]. }
  clearbody ps0. destruct H0 as [H0 H20].
  destruct (stepAll_alive dt ps0) as [A L].
  set (ps1 := ParticleSystem.stepAll dt ps0) in *. clearbody ps1.
  destruct (Z.ltb_spec (ParticleSystem.maxParticles this) (Z.of_nat (length ps1)))
    as [C | C].
  - destruct (sliceFrom_le
                (fun p => 0 < ParticleSystem.life p
                          /\ ParticleSystem.alpha p
                             == ParticleSystem.life p / ParticleSystem.maxLife p)
                (- ParticleSystem.maxParticles this) ps1) as [SF SL].
    split; [exact (SF A) |]. split; [lia |].
    split; [intros H1; rewrite sliceFrom_length by assumption; lia |].
    intros E. specialize (H20 E). lia.
  - split; [exact A |]. split; [lia |]. split; [intros _; lia |].
    intros E. specialize (H20 E). lia.
Qed.

Lemma stepAll_keeps_all (dt : Q) (ps : list ParticleSystem.Particle) :
  List.Forall (fun p => dt < ParticleSystem.life p) ps ->
  length (ParticleSystem.stepAll dt ps) = length ps.
Proof.
  induction 1 as [| p ps Hp _ IH]; [reflexivity |].
  cbn [ParticleSystem.stepAll ParticleSystem.step].
  destruct (JS.gt (JS.sub (ParticleSystem.life p) dt) 0) eqn:G; js_props.
  - cbn [length]. now rewrite IH.
  - destruct (sub_pos (ParticleSystem.life p) dt Hp). lra.
Qed.

(** X27.  A cap of [0] caps nothing: [slice(-0)] is [slice(0)], the whole
    array.  With [maxParticles = 0] and the effects on, [update] keeps
    every particle that outlives the frame, however many there are. *)
Theorem X27_particle_cap_zero_caps_nothing (dt : Q) (this : ParticleSystem.t) :
  ParticleSystem.maxParticles this = 0%Z ->
  ParticleSystem.particleEffects (ParticleSystem.settings this) = true ->
  List.Forall (fun p => dt < ParticleSystem.life p) (ParticleSystem.particles this) ->
  length (ParticleSystem.particles (ParticleSystem.update dt this))
  = length (ParticleSystem.particles this).
Proof.
  intros Hm He Hl. unfold ParticleSystem.update. cbv zeta.
  rewrite Hm, He. cbn [negb ParticleSystem.particles].
  change (- 0)%Z with 0%Z.
  assert (S0 : forall l : list ParticleSystem.Particle,
             ParticleSystem.sliceFrom 0 l = l).
  { intros l. unfold ParticleSystem.sliceFrom. cbv zeta.
    change (0 <? 0)%Z with false. cbv iota.
    replace (Z.to_nat (Z.min 0 (Z.of_nat (length l)))) with 0%nat by lia.
    reflexivity. }
  rewrite S0. destruct (_ <? _)%Z; apply stepAll_keeps_all; exact Hl.
Qed.

(** Three trail particles under a cap of [0]: all three survive the frame. *)
Lemma X27_witness :
  let p := ParticleSystem.mkParticle 0 0 0 0 (3 # 10) (3 # 10) "#FFF" 2 (6 # 10) trail in
  length (ParticleSystem.particles
            (ParticleSystem.update (1 # 60)
               (ParticleSystem.mk [p; p; p] (ParticleSystem.mkSettings true) 0 1)))
  = 3%nat.
Proof.
  cbv zeta.
  refine (X27_particle_cap_zero_caps_nothing (1 # 60)
            (ParticleSystem.mk _ (ParticleSystem.mkSettings true) 0 1) _ _ _).
  - reflexivity.
  - reflexivity.
  - repeat constructor.
Defined.

Lemma reduceQuality_maxParticles (n : nat) (this : ParticleSystem.t) :
  ParticleSystem.maxParticles (Nat.iter n ParticleSystem.reduceQuality this)
  = Nat.iter n (fun m => Qfloor (inject_Z m * 0.8)) (ParticleSystem.maxParticles this).
Proof.
  induction n as [| n IH]; [reflexivity |].
  rewrite !Nat.iter_succ. cbn [ParticleSystem.reduceQuality ParticleSystem.maxParticles].
  now rewrite IH.
Qed.

Lemma floor_four_fifths (m : Z) :
  (0 <= m)%Z ->
  (0 <= Qfloor (inject_Z m * 0.8) <= m)%Z
  /\ ((0 < m)%Z -> (Qfloor (inject_Z m * 0.8) < m)%Z).
Proof.
  intros Hm.
  assert (Hq : 0 <= inject_Z m) by (change 0 with (inject_Z 0); now rewrite <- Zle_Qle).
  assert (H0 : (0 <= Qfloor (inject_Z m * 0.8))%Z).
  { change 0%Z with (Qfloor 0). apply Qfloor_resp_le. lra. }
  assert (Hf := Qfloor_le (inject_Z m * 0.8)).
  split; [split; [exact H0 |] |].
  - rewrite Zle_Qle. lra.
  - intros Hp. rewrite Zlt_Qlt.
    assert (0 < inject_Z m) by (change 0 with (inject_Z 0); now rewrite <- Zlt_Qlt).
    lra.
Qed.

(** X28.  [reduceQuality], called any number of times on a system as the
    constructor makes it: the quality multiplier stays within
    [[0.2, 1]] and the particle cap within [[0, 200]]; the cap strictly
    falls while it is positive, and from the twentieth call on it is [0]. *)
Theorem X28_reduceQuality_wears_down (n : nat) (s : ParticleSystem.GameSettings) :
  let this := Nat.iter n ParticleSystem.reduceQuality (ParticleSystem.new s) in
  0.2 <= ParticleSystem.qualityMultiplier this <= 1
  /\ (0 <= ParticleSystem.maxParticles this <= 200)%Z
  /\ ((0 < ParticleSystem.maxParticles this)%Z ->
      (ParticleSystem.maxParticles (ParticleSystem.reduceQuality this)
       < ParticleSystem.maxParticles this)%Z)
  /\ ((20 <= n)%nat -> ParticleSystem.maxParticles this = 0%Z).
Proof.
  intros this. subst this.
  assert (B : 0.2 <= ParticleSystem.qualityMultiplier
                       (Nat.iter n ParticleSystem.reduceQuality (ParticleSystem.new s)) <= 1
              /\ (0 <= ParticleSystem.maxParticles
                         (Nat.iter n ParticleSystem.reduceQuality (ParticleSystem.new s))
                  <= 200)%Z).
  { induction n as [| n [IHq IHm]].
    - destruct s as [[]]; cbn; split; split; try lia; discriminate.
    - rewrite Nat.iter_succ.
      set (t := Nat.iter n ParticleSystem.reduceQuality (ParticleSystem.new s)) in *.
      clearbody t.
      cbn [ParticleSystem.reduceQuality ParticleSystem.qualityMultiplier
           ParticleSystem.maxParticles].
      destruct (floor_four_fifths (ParticleSystem.maxParticles t)) as [F _]; [lia |].
      split; [| lia].
      destruct (JS_max_cases 0.2 (ParticleSystem.qualityMultiplier t * 0.8))
        as [[L ->] | [L ->]]; lra. }
  destruct B as [Bq Bm]. split; [exact Bq |]. split; [exact Bm |]. split.
  - intros Hp. cbn [ParticleSystem.reduceQuality ParticleSystem.maxParticles].
    apply floor_four_fifths; lia.
  - intros Hn. rewrite reduceQuality_maxParticles.
    replace n with ((n - 20) + 20)%nat by lia. rewrite Nat.iter_add.
    assert (Z20 : Nat.iter 20 (fun m => Qfloor (inject_Z m * 0.8))
                    (ParticleSystem.maxParticles (ParticleSystem.new s)) = 0%Z).
    { destruct s as [[]]; vm_compute; reflexivity. }
    rewrite Z20. clear. induction (n - 20)%nat as [| k IH]; [reflexivity |].
    rewrite Nat.iter_succ, IH. reflexivity.
Qed.

(** One step on particles with at most [B] seconds to live: none is left
    when [B <= dt]; otherwise the survivors have at most [B - dt], rounded
    up by at most half of [Number.EPSILON], relatively. *)
Lemma stepAll_life (dt B : Q) (ps : list ParticleSystem.Particle) :
  List.Forall (fun p => ParticleSystem.life p <= B) ps ->
  (B <= dt -> ParticleSystem.stepAll dt ps = [])
  /\ List.Forall
       (fun p => ParticleSystem.life p
                 <= (1 + JS.EPSILON * (1 # 2)) * (B - dt))
       (ParticleSystem.stepAll dt ps).
Proof.
  induction 1 as [| p ps Hp _ [IH0 IH]]; [split; [reflexivity | constructor] |].
  cbn [ParticleSystem.stepAll ParticleSystem.step].
  destruct (JS.gt (JS.sub (ParticleSystem.life p) dt) 0) eqn:G; js_props;
    [| split; assumption].
  destruct (Qlt_le_dec dt (ParticleSystem.life p)) as [Hx | Hx];
    [| assert (N := sub_nonpos (ParticleSystem.life p) dt Hx); lra].
  destruct (sub_pos (ParticleSystem.life p) dt Hx) as (_ & _ & U).
  split; [intros; lra |].
  constructor; [| exact IH]. cbn [ParticleSystem.life].
  assert (He0 : 0 < JS.EPSILON) by reflexivity.
  set (e := JS.EPSILON) in *. set (l := ParticleSystem.life p) in *.
  set (l' := JS.sub l dt) in *. clearbody l' l e.
  assert ((1 + e * (1 # 2)) * (l - dt) <= (1 + e * (1 # 2)) * (B - dt))
    by (apply Qmult_le_l; lra).
  lra.
Qed.

Lemma Forall_firstn {A : Type} (P : A -> Prop) (k : nat) (l : list A) :
  List.Forall P l -> List.Forall P (firstn k l).
Proof.
  intros H. revert k. induction H as [| a l Ha Hl IH]; intros [| k]; cbn;
    auto using List.Forall_cons, List.Forall_nil.
Qed.

Lemma update_life (dt B : Q) (this : ParticleSystem.t) :
  List.Forall (fun p => ParticleSystem.life p <= B) (ParticleSystem.particles this) ->
  (B <= dt -> ParticleSystem.particles (ParticleSystem.update dt this) = [])
  /\ List.Forall
       (fun p => ParticleSystem.life p
                 <= (1 + JS.EPSILON * (1 # 2)) * (B - dt))
       (ParticleSystem.particles (ParticleSystem.update dt this)).
Proof.
  intros H. unfold ParticleSystem.update. cbv zeta. cbn [ParticleSystem.particles].
  set (ps0 := if negb _ then _ else _).
  assert (H0 : List.Forall (fun p => ParticleSystem.life p <= B) ps0).
  { subst ps0. destruct (negb _); [apply Forall_firstn |]; exact H. }
  clearbody ps0. destruct (stepAll_life dt B ps0 H0) as [E F].
  split.
  - intros Hb. rewrite (E Hb). cbn [length]. destruct (_ <? _)%Z; [| reflexivity].
    unfold ParticleSystem.sliceFrom. cbv zeta. apply List.skipn_nil.
  - destruct (_ <? _)%Z; [apply sliceFrom_le |]; exact F.
Qed.

(** X29.  Without new emissions the system empties.  If no particle has
    more than [L] seconds to live, then after [n] frames (at most [2^52])
    of [dt] seconds each that add up to [L * (1 + n * EPSILON)] seconds or
    more no particle is left; [EPSILON = 2^-52] covers the rounding of the
    [n] subtractions. *)
Theorem X29_particles_run_out (dt L : Q) (n : nat) (this : ParticleSystem.t) :
  0 < dt -> 0 < L ->
  List.Forall (fun p => ParticleSystem.life p <= L) (ParticleSystem.particles this) ->
  JS.num n * JS.EPSILON <= 1 ->
  L * (1 + JS.num n * JS.EPSILON) <= JS.num n * dt ->
  ParticleSystem.particles (Nat.iter n (ParticleSystem.update dt) this) = [].
Proof.
  intros Hdt. revert L this.
  induction n as [| n IH]; intros L this HL Hl Hlen Hn.
  - change (JS.num 0) with 0 in Hn. nra.
  - rewrite Nat.iter_succ_r. rewrite num_S in Hlen, Hn.
    assert (Hm := num_nonneg n).
    assert (He0 : 0 < JS.EPSILON) by reflexivity.
    destruct (update_life dt L this Hl) as [E F].
    set (this' := ParticleSystem.update dt this) in *. clearbody this'.
    set (M := JS.num n) in *. set (e := JS.EPSILON) in *.
    assert (P1 : 0 <= M * e) by (apply Qmult_le_0_compat; lra).
    destruct n as [| n'].
    + cbn [Nat.iter nat_rect]. apply E.
      change (JS.num 0) with 0 in M. subst M. clearbody e.
      assert (0 <= L * e) by (apply Qmult_le_0_compat; lra). lra.
    + destruct (Qlt_le_dec dt L) as [Hx | Hx].
      * apply (IH ((1 + e * (1 # 2)) * (L - dt))); [| exact F | lra |].
        -- clearbody M e. apply Qmult_lt_0_compat; lra.
        -- fold M. clearbody M e.
           assert (U2 : (1 + e * (1 # 2)) * (1 + M * e) <= 1 + (M + 1) * e) by nra.
           assert (U3 : (1 + e * (1 # 2)) * (1 + M * e) * (L - dt)
                        <= (1 + (M + 1) * e) * (L - dt))
             by (apply Qmult_le_compat_r; lra).
           assert (U4 : 0 <= (M + 1) * e * dt)
             by (apply Qmult_le_0_compat; [apply Qmult_le_0_compat |]; lra).
           lra.
      * apply (IH (dt * (1 # 2))); [lra | rewrite (E Hx); constructor | lra |].
        fold M. assert (Hn1 : 1 <= M).
        { subst M. rewrite num_S. assert (N := num_nonneg n'). lra. }
        clearbody M e.
        assert (dt * (1 # 2) * (M * e) <= dt * (1 # 2) * 1)
          by (apply Qmult_le_l; lra).
        assert (dt * 1 <= dt * M) by (apply Qmult_le_l; lra).
        lra.
Qed.

(** A particle with a quarter of a second to live is gone after seventeen
    frames of [1/64] s. *)
Lemma X29_witness :
  ParticleSystem.particles
    (Nat.iter 17 (ParticleSystem.update (1 # 64))
       (ParticleSystem.mk
          [ParticleSystem.mkParticle 0 0 0 0 (1 # 4) (1 # 4) "#FFF" 2 1 trail]
          (ParticleSystem.mkSettings true) 200 1))
  = [].
Proof.
  refine (X29_particles_run_out (1 # 64) (1 # 4) 17
            (ParticleSystem.mk _ (ParticleSystem.mkSettings true) 200 1) _ _ _ _ _).
  - reflexivity.
  - reflexivity.
  - repeat constructor. discriminate.
  - vm_compute. discriminate.
  - vm_compute. discriminate.
Defined.

(** Below that the rounding decides: a particle with [0.3] s to live is
    still there after eighteen frames of [1/60] s (both as doubles), which
    add up to at least [0.3] s. *)
Example particle_outlives_its_life :
  let dt := JS.double (1 # 60) in
  let p := ParticleSystem.mkParticle 0 0 0 0 (JS.double 0.3) (JS.double 0.3)
             "#FFF" 2 0.6 trail in
  ParticleSystem.life p <= JS.num 18 * dt
  /\ length (ParticleSystem.particles
               (Nat.iter 18 (ParticleSystem.update dt)
                  (ParticleSystem.mk [p] (ParticleSystem.mkSettings true) 200 1)))
     = 1%nat.
Proof. cbv zeta. split; [vm_compute; discriminate | vm_compute; reflexivity]. Qed.

Lemma emitter_loop (P : ParticleSystem.Particle -> Prop) (count : nat)
    (body : nat -> ParticleSystem.t -> Level.Gen ParticleSystem.t)
    (this : ParticleSystem.t) (s : nat) :
  (forall i t n, exists p, fst (body i t n) = ParticleSystem.push p t /\ P p) ->
  exists new,
    fst (Level.for_range count 0 body this s)
    = ParticleSystem.mk (ParticleSystem.particles this ++ new)
        (ParticleSystem.settings this) (ParticleSystem.maxParticles this)
        (ParticleSystem.qualityMultiplier this)
    /\ length new = count /\ List.Forall P new.
Proof.
  intros Hb. destruct this as [ps st m q]. cbn [ParticleSystem.particles
    ParticleSystem.settings ParticleSystem.maxParticles ParticleSystem.qualityMultiplier].
  apply (for_range_invariant body count
           (fun k st' => exists new,
                fst st' = ParticleSystem.mk (ps ++ new) st m q
                /\ length new = k /\ List.Forall P new)).
  - intros k i t n _ (new & E & HL & HF). cbn [fst] in E. subst t.
    destruct (Hb i (ParticleSystem.mk (ps ++ new) st m q) n) as (p & -> & Hp).
    exists (new ++ [p]). unfold ParticleSystem.push.
    cbn [ParticleSystem.particles ParticleSystem.settings
         ParticleSystem.maxParticles ParticleSystem.qualityMultiplier].
    rewrite <- List.app_assoc. split; [reflexivity |].
    split; [rewrite List.length_app; cbn [length]; lia |].
    apply List.Forall_app. split; [exact HF | constructor; [exact Hp | constructor]].
  - exists []. cbn [fst]. rewrite List.app_nil_r. repeat split. constructor.
Qed.

(** X30.  The emitters only add.  [createExplosion], [createSparkle] and
    [createPowerUpEffect] append [floor(15 q)], [floor(8 q)] and
    [floor(20 q)] particles for the quality multiplier [q] (none when that
    is negative), of the types explosion, sparkle and spark, each opaque
    and with [0 < life <= maxLife <= 1.5]; [createTrail] appends one trail
    particle with [0.3] s to live when the particle effects are on and
    nothing when they are off.  The particles already there, the settings
    and the cap stay as they are. *)
Theorem X30_emitters_only_add
    (sin cos : Q -> Q) (PI : Q) (rnd : nat -> Q) (px py : Q) (col : string)
    (this : ParticleSystem.t) (s : nat) :
  (forall k, 0 <= rnd k < 1) ->
  let q := ParticleSystem.qualityMultiplier this in
  emitted this (Qfloor (15 * q)) explosion
    (fst (ParticleSystem.createExplosion sin cos PI rnd px py col this s))
  /\ emitted this (Qfloor (8 * q)) sparkle
       (fst (ParticleSystem.createSparkle sin cos PI rnd px py col this s))
  /\ emitted this (Qfloor (20 * q)) spark
       (fst (ParticleSystem.createPowerUpEffect sin cos PI rnd px py col this s))
  /\ (if ParticleSystem.particleEffects (ParticleSystem.settings this)
      then exists p,
          fst (ParticleSystem.createTrail rnd px py col this s)
          = ParticleSystem.push p this
          /\ ParticleSystem.type p = trail
          /\ ParticleSystem.life p = 0.3 /\ ParticleSystem.maxLife p = 0.3
      else fst (ParticleSystem.createTrail rnd px py col this s) = this).
Proof.
  intros Hr q. subst q. unfold emitted.
  split; [| split; [| split]].
  - unfold ParticleSystem.createExplosion. cbv zeta.
    match goal with
    | |- context [Level.for_range ?c 0 ?b this s] =>
        destruct (emitter_loop
                    (fun p => ParticleSystem.type p = explosion
                              /\ ParticleSystem.alpha p = 1
                              /\ 0 < ParticleSystem.life p
                              /\ ParticleSystem.life p <= ParticleSystem.maxLife p
                              /\ ParticleSystem.maxLife p <= 1.5)
                    c b this s) as (new & E & HL & HF)
    end.
    { intros i t n. unfold Level.random. gen_unfold. cbn [fst].
      eexists. split; [reflexivity |]. cbn.
      destruct (Hr (Datatypes.S n)). repeat split; lra. }
    exists new. rewrite E. split; [reflexivity |]. split; [lia | exact HF].
  - unfold ParticleSystem.createSparkle. cbv zeta.
    match goal with
    | |- context [Level.for_range ?c 0 ?b this s] =>
        destruct (emitter_loop
                    (fun p => ParticleSystem.type p = sparkle
                              /\ ParticleSystem.alpha p = 1
                              /\ 0 < ParticleSystem.life p
                              /\ ParticleSystem.life p <= ParticleSystem.maxLife p
                              /\ ParticleSystem.maxLife p <= 1.5)
                    c b this s) as (new & E & HL & HF)
    end.
    { intros i t n. unfold Level.random. gen_unfold. cbn [fst].
      eexists. split; [reflexivity |]. cbn.
      destruct (Hr (Datatypes.S (Datatypes.S (Datatypes.S (Datatypes.S n))))).
      repeat split; lra. }
    exists new. rewrite E. split; [reflexivity |]. split; [lia | exact HF].
  - unfold ParticleSystem.createPowerUpEffect. cbv zeta.
    match goal with
    | |- context [Level.for_range ?c 0 ?b this s] =>
        destruct (emitter_loop
                    (fun p => ParticleSystem.type p = spark
                              /\ ParticleSystem.alpha p = 1
                              /\ 0 < ParticleSystem.life p
                              /\ ParticleSystem.life p <= ParticleSystem.maxLife p
                              /\ ParticleSystem.maxLife p <= 1.5)
                    c b this s) as (new & E & HL & HF)
    end.
    { intros i t n. unfold Level.random. gen_unfold. cbn [fst].
      eexists. split; [reflexivity |]. cbn.
      destruct (Hr (Datatypes.S (Datatypes.S n))). repeat split; lra. }
    exists new. rewrite E. split; [reflexivity |]. split; [lia | exact HF].
  - unfold ParticleSystem.createTrail.
    destruct (ParticleSystem.particleEffects (ParticleSystem.settings this));
      cbn [negb]; [| reflexivity].
    unfold Level.random. gen_unfold. cbn [fst].
    eexists. split; [reflexivity |]. repeat split.
Qed.

Lemma X30_witness :
  emitted (ParticleSystem.new (ParticleSystem.mkSettings false))
    (Qfloor (15 * (1 # 2))) explosion
    (fst (ParticleSystem.createExplosion flat_sin flat_sin 3 even_rnd 0 0 "#FFF"
            (ParticleSystem.new (ParticleSystem.mkSettings false)) 0%nat)).
Proof.
  refine (proj1 (X30_emitters_only_add flat_sin flat_sin 3 even_rnd 0 0 "#FFF"
                   (ParticleSystem.new (ParticleSystem.mkSettings false)) 0%nat _)).
  intros k. unfold even_rnd. split; [discriminate | reflexivity].
Defined.
